(** * A full-page slider controller: model and verification

    The development embeds the slider of [src/script.js] (the desktop
    variant) and of the copy in [index.js] (the basic variant) as functions
    over an explicit world: the controller's [state] object, the part of the
    document the code reads and writes, the timer queue of the event loop and
    the variables captured by the listeners' closures.

    Modelling choices.
    - JavaScript numbers that reach the controller are integers, kept in [Z].
    - The class list of an element is reduced to the one class the code
      toggles, [active]; an attribute is an [option string] ([None] is what
      [getAttribute] answers with [null]).
    - [elements.slides] and [elements.indicators] are the node lists of the
      document itself: slides are never created or removed after loading, so
      the cached lists and the lists [querySelector] walks hold the same
      elements.
    - Strings are sequences of bytes, the UTF-8 encoding of the JavaScript
      string.
    - [state.slideIdMap] is a plain object used as a dictionary. Its own
      properties are kept in a [gmap string Z]. An assignment creates an own
      property for every key but [__proto__], where it reaches the setter
      inherited from [Object.prototype], which ignores a number
      ([object_set]). A read of a key that is no own property answers
      [undefined] or a value inherited from [Object.prototype]; neither is a
      number, [goToSlide] drops it at the range test, and the model answers
      [None] for both.
    - [history] holds the URLs the code has given to [history.pushState].
      The session history of the browser, which also grows when the user
      changes the fragment and which Back and Forward move through, is not
      modelled. After a push [location_hash] is the string that was pushed:
      the serialisation of the URL, which percent-encodes some characters
      of a fragment, is not modelled, so that statements about
      [location_hash] after a push are about identifiers the serialisation
      leaves as they are.
    - A property access on a missing button ([null]) throws a [TypeError];
      functions run in a state-and-exception monad that keeps the mutations
      made before the throw.
    - The mutations made by [goToSlide] and by the timer functions, and the
      callbacks the event loop runs, are also appended to a [log], so that
      the order of the side effects and their absence can be stated. *)

From Stdlib Require Import ZArith Bool List Lia Ascii String.
From stdpp Require Import base tactics option list strings pretty gmap.

Local Open Scope Z_scope.

(** ** Configuration: the [CONFIG] object *)

Definition transitionDuration : Z := 600.
Definition scrollThrottle : Z := 50.
Definition swipeThreshold : Z := 50.

(** ** JavaScript conversions *)

(** [if (s)] on the answer of [getAttribute]: [null] and the empty string are
    falsy. *)
Definition truthy_attr (a : option string) : bool :=
  match a with
  | Some s => negb (String.eqb s "")
  | None => false
  end.

(** [if (n)] on a number. *)
Definition truthy_number (n : Z) : bool := negb (n =? 0).

(** [b.toString()] *)
Definition bool_toString (b : bool) : string := if b then "true" else "false".

(** The template literal [`${n}`] on an integer. *)
Definition number_toString (n : Z) : string := pretty n.

(** ** The document *)

Record SlideContent := {
  scrollTop : Z;
  scrollHeight : Z;
  clientHeight : Z
}.

Record SlideEl := {
  slide_id : option string;          (* attribute id *)
  slide_data : option string;        (* attribute data-slide *)
  slide_active : bool;               (* class active *)
  slide_content : option SlideContent (* first descendant .slide-content *)
}.

Record IndicatorEl := {
  ind_data : option string;          (* attribute data-slide *)
  ind_active : bool;                 (* class active *)
  ind_aria_selected : option string  (* attribute aria-selected *)
}.

Record ButtonEl := {
  disabled : bool;
  aria_disabled : option string
}.

Record Document := {
  slides : list SlideEl;             (* the .slide elements, document order *)
  indicators : list IndicatorEl;     (* the .indicator elements *)
  prevBtn : option ButtonEl;         (* getElementById('prevBtn') *)
  nextBtn : option ButtonEl;         (* getElementById('nextBtn') *)
  sliderContainer : bool;            (* a .slider-container exists *)
  innerWidth : Z;                    (* window.innerWidth *)
  location_hash : string;            (* window.location.hash *)
  history : list string              (* arguments of pushState, latest first *)
}.

(** ** The controller's state object *)

Record State := {
  currentSlide : Z;
  isAnimating : bool;
  totalSlides : Z;
  slideIdMap : gmap string Z
}.

(** ** Timers and closures *)

(** The two functions handed to [setTimeout]: the unlock of [goToSlide] and
    the debounced wheel callback, which captures its event's [deltaY]. *)
Inductive Callback :=
| CbUnlock
| CbWheel (deltaY : Z).

Record Timer := {
  timer_id : nat;
  timer_due : Z;
  timer_cb : Callback
}.

(** The variables of [setupTouchNavigation]; the basic variant only has the
    two vertical ones. *)
Record TouchVars := {
  touchStartX : Z;
  touchStartY : Z;
  touchEndX : Z;
  touchEndY : Z;
  isSwiping : bool
}.

Inductive Button := Prev | Next.

(** ** The log of side effects *)

Inductive Effect :=
| SetIsAnimating (b : bool)
| RemoveActiveSlides
| RemoveActiveIndicators
| AddActiveSlide (n : Z)
| AddActiveIndicator (n : Z)
| SetCurrentSlide (n : Z)
| SetDisabled (b : Button) (v : bool)
| SetAriaDisabled (b : Button) (v : string)
| SetAriaSelected (n : Z)
| PushState (url : string)
| SetTimeout (id : nat) (cb : Callback) (delay : Z)
| ClearTimeout (id : option nat)
| TimerFired (id : nat) (cb : Callback).

Record World := {
  state : State;
  doc : Document;
  now : Z;                           (* milliseconds *)
  timers : list Timer;               (* pending, in order of creation *)
  next_timer_id : nat;
  scrollTimeout : option nat;        (* of setupWheelNavigation *)
  touch : TouchVars;
  log : list Effect                  (* oldest first *)
}.

#[global] Instance Callback_eq_dec : EqDecision Callback.
Proof. solve_decision. Defined.
#[global] Instance Button_eq_dec : EqDecision Button.
Proof. solve_decision. Defined.
#[global] Instance Effect_eq_dec : EqDecision Effect.
Proof. solve_decision. Defined.

(** *** Field updates *)

Definition with_state (f : State -> State) (w : World) : World :=
  {| state := f (state w); doc := doc w; now := now w; timers := timers w;
     next_timer_id := next_timer_id w; scrollTimeout := scrollTimeout w;
     touch := touch w; log := log w |}.

Definition with_doc (f : Document -> Document) (w : World) : World :=
  {| state := state w; doc := f (doc w); now := now w; timers := timers w;
     next_timer_id := next_timer_id w; scrollTimeout := scrollTimeout w;
     touch := touch w; log := log w |}.

Definition with_now (t : Z) (w : World) : World :=
  {| state := state w; doc := doc w; now := t; timers := timers w;
     next_timer_id := next_timer_id w; scrollTimeout := scrollTimeout w;
     touch := touch w; log := log w |}.

Definition with_timers (f : list Timer -> list Timer) (w : World) : World :=
  {| state := state w; doc := doc w; now := now w; timers := f (timers w);
     next_timer_id := next_timer_id w; scrollTimeout := scrollTimeout w;
     touch := touch w; log := log w |}.

Definition with_next_timer_id (n : nat) (w : World) : World :=
  {| state := state w; doc := doc w; now := now w; timers := timers w;
     next_timer_id := n; scrollTimeout := scrollTimeout w;
     touch := touch w; log := log w |}.

Definition with_scrollTimeout (o : option nat) (w : World) : World :=
  {| state := state w; doc := doc w; now := now w; timers := timers w;
     next_timer_id := next_timer_id w; scrollTimeout := o;
     touch := touch w; log := log w |}.

Definition with_touch (f : TouchVars -> TouchVars) (w : World) : World :=
  {| state := state w; doc := doc w; now := now w; timers := timers w;
     next_timer_id := next_timer_id w; scrollTimeout := scrollTimeout w;
     touch := f (touch w); log := log w |}.

Definition emit (e : Effect) (w : World) : World :=
  {| state := state w; doc := doc w; now := now w; timers := timers w;
     next_timer_id := next_timer_id w; scrollTimeout := scrollTimeout w;
     touch := touch w; log := log w ++ [e] |}.

Definition st_set_currentSlide (n : Z) (s : State) : State :=
  {| currentSlide := n; isAnimating := isAnimating s;
     totalSlides := totalSlides s; slideIdMap := slideIdMap s |}.

Definition st_set_isAnimating (b : bool) (s : State) : State :=
  {| currentSlide := currentSlide s; isAnimating := b;
     totalSlides := totalSlides s; slideIdMap := slideIdMap s |}.

Definition st_set_totalSlides (n : Z) (s : State) : State :=
  {| currentSlide := currentSlide s; isAnimating := isAnimating s;
     totalSlides := n; slideIdMap := slideIdMap s |}.

Definition st_set_slideIdMap (m : gmap string Z) (s : State) : State :=
  {| currentSlide := currentSlide s; isAnimating := isAnimating s;
     totalSlides := totalSlides s; slideIdMap := m |}.

Definition doc_set_slides (l : list SlideEl) (d : Document) : Document :=
  {| slides := l; indicators := indicators d; prevBtn := prevBtn d;
     nextBtn := nextBtn d; sliderContainer := sliderContainer d;
     innerWidth := innerWidth d; location_hash := location_hash d;
     history := history d |}.

Definition doc_set_indicators (l : list IndicatorEl) (d : Document) : Document :=
  {| slides := slides d; indicators := l; prevBtn := prevBtn d;
     nextBtn := nextBtn d; sliderContainer := sliderContainer d;
     innerWidth := innerWidth d; location_hash := location_hash d;
     history := history d |}.

Definition doc_set_prevBtn (b : option ButtonEl) (d : Document) : Document :=
  {| slides := slides d; indicators := indicators d; prevBtn := b;
     nextBtn := nextBtn d; sliderContainer := sliderContainer d;
     innerWidth := innerWidth d; location_hash := location_hash d;
     history := history d |}.

Definition doc_set_nextBtn (b : option ButtonEl) (d : Document) : Document :=
  {| slides := slides d; indicators := indicators d; prevBtn := prevBtn d;
     nextBtn := b; sliderContainer := sliderContainer d;
     innerWidth := innerWidth d; location_hash := location_hash d;
     history := history d |}.

(** The document after [history.pushState(null, null, url)]: the fragment is
    taken to be [url] as given. *)
Definition doc_push_url (url : string) (d : Document) : Document :=
  {| slides := slides d; indicators := indicators d; prevBtn := prevBtn d;
     nextBtn := nextBtn d; sliderContainer := sliderContainer d;
     innerWidth := innerWidth d; location_hash := url;
     history := url :: history d |}.

(** The fragment changes without a call of [pushState]. *)
Definition doc_set_hash (h : string) (d : Document) : Document :=
  {| slides := slides d; indicators := indicators d; prevBtn := prevBtn d;
     nextBtn := nextBtn d; sliderContainer := sliderContainer d;
     innerWidth := innerWidth d; location_hash := h;
     history := history d |}.

Definition slide_set_active (b : bool) (s : SlideEl) : SlideEl :=
  {| slide_id := slide_id s; slide_data := slide_data s; slide_active := b;
     slide_content := slide_content s |}.

Definition ind_set_active (b : bool) (i : IndicatorEl) : IndicatorEl :=
  {| ind_data := ind_data i; ind_active := b;
     ind_aria_selected := ind_aria_selected i |}.

Definition ind_set_aria_selected (v : string) (i : IndicatorEl) : IndicatorEl :=
  {| ind_data := ind_data i; ind_active := ind_active i;
     ind_aria_selected := Some v |}.

Definition btn_set_disabled (v : bool) (b : ButtonEl) : ButtonEl :=
  {| disabled := v; aria_disabled := aria_disabled b |}.

Definition btn_set_aria_disabled (v : string) (b : ButtonEl) : ButtonEl :=
  {| disabled := disabled b; aria_disabled := Some v |}.

(** ** The monad: state with exceptions that keep the mutations made *)

Inductive JsError := TypeError.

Inductive Outcome (A : Type) :=
| Returned (a : A) (w : World)
| Threw (e : JsError) (w : World).
Arguments Returned {A} a w.
Arguments Threw {A} e w.

Definition M (A : Type) : Type := World -> Outcome A.

Definition ret {A} (a : A) : M A := fun w => Returned a w.

Definition bind {A B} (m : M A) (k : A -> M B) : M B :=
  fun w => match m w with
           | Returned a w' => k a w'
           | Threw e w' => Threw e w'
           end.

Definition throw {A} (e : JsError) : M A := fun w => Threw e w.

(** A mutation that cannot fail. *)
Definition mutate (f : World -> World) : M unit := fun w => Returned tt (f w).

(** The world an outcome leaves behind, whether it returned or threw. *)
Definition world_of {A} (o : Outcome A) : World :=
  match o with
  | Returned _ w => w
  | Threw _ w => w
  end.

Declare Scope js_scope.
Delimit Scope js_scope with js.
Notation "x <- m ; k" := (bind m (fun x => k))
  (at level 100, m at next level, k at level 200, right associativity) : js_scope.
Notation "m ;; k" := (bind m (fun _ => k))
  (at level 100, k at level 200, right associativity) : js_scope.
Local Open Scope js_scope.

(** ** Primitive operations on the world *)

(** [state.isAnimating = b] *)
Definition set_isAnimating (b : bool) : M unit :=
  mutate (fun w => emit (SetIsAnimating b) (with_state (st_set_isAnimating b) w)).

(** [state.currentSlide = n] *)
Definition set_currentSlide (n : Z) : M unit :=
  mutate (fun w => emit (SetCurrentSlide n) (with_state (st_set_currentSlide n) w)).

(** [elements.slides.forEach(slide => slide.classList.remove('active'))] *)
Definition removeActiveSlides : M unit :=
  mutate (fun w =>
    emit RemoveActiveSlides
      (with_doc (fun d => doc_set_slides (map (slide_set_active false) (slides d)) d) w)).

(** [elements.indicators.forEach(indicator => indicator.classList.remove('active'))] *)
Definition removeActiveIndicators : M unit :=
  mutate (fun w =>
    emit RemoveActiveIndicators
      (with_doc (fun d => doc_set_indicators (map (ind_set_active false) (indicators d)) d) w)).

(** The attribute selector [[data-slide="${n}"]]: the attribute is the decimal
    string of [n]. *)
Definition is_slide (n : Z) (s : SlideEl) : Prop :=
  slide_data s = Some (number_toString n).

Definition is_indicator (n : Z) (i : IndicatorEl) : Prop :=
  ind_data i = Some (number_toString n).

#[global] Instance is_slide_dec n s : Decision (is_slide n s).
Proof. unfold is_slide. apply _. Defined.
#[global] Instance is_indicator_dec n i : Decision (is_indicator n i).
Proof. unfold is_indicator. apply _. Defined.

(** [document.querySelector(`.slide[data-slide="${n}"]`)]: the first match in
    document order, with its position. *)
Definition querySlide (n : Z) (d : Document) : option (nat * SlideEl) :=
  list_find (is_slide n) (slides d).

(** [document.querySelector(`.indicator[data-slide="${n}"]`)] *)
Definition queryIndicator (n : Z) (d : Document) : option (nat * IndicatorEl) :=
  list_find (is_indicator n) (indicators d).

(** [if (targetSlide) targetSlide.classList.add('active')] *)
Definition addActiveSlide (n : Z) : M unit := fun w =>
  match querySlide n (doc w) with
  | Some (i, _) =>
      Returned tt
        (emit (AddActiveSlide n)
           (with_doc (fun d => doc_set_slides (alter (slide_set_active true) i (slides d)) d) w))
  | None => Returned tt w
  end.

(** [if (targetIndicator) targetIndicator.classList.add('active')] *)
Definition addActiveIndicator (n : Z) : M unit := fun w =>
  match queryIndicator n (doc w) with
  | Some (i, _) =>
      Returned tt
        (emit (AddActiveIndicator n)
           (with_doc (fun d => doc_set_indicators (alter (ind_set_active true) i (indicators d)) d) w))
  | None => Returned tt w
  end.

(** [elements.<button>.disabled = v]; a [TypeError] when the button is [null]. *)
Definition set_disabled (b : Button) (v : bool) : M unit := fun w =>
  match b with
  | Prev =>
      match prevBtn (doc w) with
      | Some el =>
          Returned tt (emit (SetDisabled Prev v)
            (with_doc (doc_set_prevBtn (Some (btn_set_disabled v el))) w))
      | None => Threw TypeError w
      end
  | Next =>
      match nextBtn (doc w) with
      | Some el =>
          Returned tt (emit (SetDisabled Next v)
            (with_doc (doc_set_nextBtn (Some (btn_set_disabled v el))) w))
      | None => Threw TypeError w
      end
  end.

(** [elements.<button>.setAttribute('aria-disabled', v)] *)
Definition set_aria_disabled (b : Button) (v : string) : M unit := fun w =>
  match b with
  | Prev =>
      match prevBtn (doc w) with
      | Some el =>
          Returned tt (emit (SetAriaDisabled Prev v)
            (with_doc (doc_set_prevBtn (Some (btn_set_aria_disabled v el))) w))
      | None => Threw TypeError w
      end
  | Next =>
      match nextBtn (doc w) with
      | Some el =>
          Returned tt (emit (SetAriaDisabled Next v)
            (with_doc (doc_set_nextBtn (Some (btn_set_aria_disabled v el))) w))
      | None => Threw TypeError w
      end
  end.

(** [history.pushState(null, null, url)]: the fragment changes, no
    [hashchange] event is fired. *)
Definition pushState (url : string) : M unit :=
  mutate (fun w => emit (PushState url) (with_doc (doc_push_url url) w)).

(** [setTimeout(cb, delay)]: a fresh identifier, the timer goes to the end of
    the queue. *)
Definition setTimeout (cb : Callback) (delay : Z) : M nat := fun w =>
  let id := next_timer_id w in
  let t := {| timer_id := id; timer_due := now w + delay; timer_cb := cb |} in
  Returned id
    (emit (SetTimeout id cb delay)
       (with_next_timer_id (S id) (with_timers (fun l => l ++ [t]) w))).

(** [clearTimeout(id)]; [undefined] and identifiers of timers that already
    ran cancel nothing. *)
Definition clearTimeout (id : option nat) : M unit :=
  mutate (fun w =>
    emit (ClearTimeout id)
      (with_timers (filter (fun t => Some (timer_id t) <> id)) w)).

(** ** The controller (the same text in both variants) *)

Definition isValidSlideNumber (slideNumber : Z) (s : State) : bool :=
  (1 <=? slideNumber) && (slideNumber <=? totalSlides s).

(** The body of the loop of [updateAriaAttributes]. *)
Definition aria_selected_for (slideNumber : Z) (index : nat) (indicator : IndicatorEl)
  : IndicatorEl :=
  let isActive := Z.of_nat index + 1 =? slideNumber in
  ind_set_aria_selected (bool_toString isActive) indicator.

Definition updateAriaAttributes (slideNumber : Z) : M unit :=
  mutate (fun w =>
    emit (SetAriaSelected slideNumber)
      (with_doc (fun d =>
         doc_set_indicators (imap (aria_selected_for slideNumber) (indicators d)) d) w)).

Definition updateURL (slideNumber : Z) : M unit := fun w =>
  let slideEl := querySlide slideNumber (doc w) in
  let slideId := match slideEl with
                 | Some (_, el) => slide_id el
                 | None => None
                 end in
  match slideId with
  | Some id => if truthy_attr slideId then pushState ("#" +:+ id) w else Returned tt w
  | None => Returned tt w
  end.

Definition updateNavigationButtons : M unit := fun w =>
  let isFirstSlide := currentSlide (state w) =? 1 in
  let isLastSlide := currentSlide (state w) =? totalSlides (state w) in
  (set_disabled Prev isFirstSlide ;;
   set_disabled Next isLastSlide ;;
   set_aria_disabled Prev (bool_toString isFirstSlide) ;;
   set_aria_disabled Next (bool_toString isLastSlide)) w.

Definition goToSlide (slideNumber : Z) : M unit := fun w =>
  if isAnimating (state w) || negb (isValidSlideNumber slideNumber (state w))
  then Returned tt w
  else
    (set_isAnimating true ;;
     removeActiveSlides ;;
     removeActiveIndicators ;;
     addActiveSlide slideNumber ;;
     addActiveIndicator slideNumber ;;
     set_currentSlide slideNumber ;;
     updateNavigationButtons ;;
     updateAriaAttributes slideNumber ;;
     updateURL slideNumber ;;
     _ <- setTimeout CbUnlock transitionDuration ;
     ret tt) w.

Definition goToPreviousSlide : M unit := fun w =>
  if 1 <? currentSlide (state w)
  then goToSlide (currentSlide (state w) - 1) w
  else Returned tt w.

Definition goToNextSlide : M unit := fun w =>
  if currentSlide (state w) <? totalSlides (state w)
  then goToSlide (currentSlide (state w) + 1) w
  else Returned tt w.

Definition goToSlideById (slideId : string) : M unit := fun w =>
  match slideIdMap (state w) !! slideId with
  | Some slideNumber =>
      if truthy_number slideNumber then goToSlide slideNumber w else Returned tt w
  | None => Returned tt w
  end.

Definition getCurrentSlide (w : World) : Z := currentSlide (state w).
Definition getTotalSlides (w : World) : Z := totalSlides (state w).

(** *** Initialisation *)

(** [cacheElements]: the element handles are those of the document; what the
    function leaves in the state is the number of slides. *)
Definition cacheElements : M unit :=
  mutate (fun w =>
    with_state (st_set_totalSlides (Z.of_nat (length (slides (doc w))))) w).

(** [obj[key] = n] on a plain object holding numbers: an own property is
    created or overwritten, except for the key [__proto__], whose assignment
    goes to the setter inherited from [Object.prototype]; the setter ignores
    a value that is neither an object nor [null]. *)
Definition object_set (key : string) (n : Z) (m : gmap string Z) : gmap string Z :=
  if String.eqb key "__proto__" then m else <[key := n]> m.

(** The loop of [createSlideIdMap], [index] counting from the position of the
    first element of [l]. *)
Fixpoint slideIdMap_from (index : Z) (l : list SlideEl) (m : gmap string Z)
  : gmap string Z :=
  match l with
  | [] => m
  | slide :: rest =>
      slideIdMap_from (index + 1) rest
        (match slide_id slide with
         | Some slideId =>
             if truthy_attr (Some slideId) then object_set slideId (index + 1) m else m
         | None => m
         end)
  end.

Definition createSlideIdMap : M unit :=
  mutate (fun w =>
    with_state (fun s =>
      st_set_slideIdMap (slideIdMap_from 0 (slides (doc w)) (slideIdMap s)) s) w).

(** ** The event loop *)

(** The body of a timer's callback. *)
Definition run_callback (cb : Callback) : M unit :=
  match cb with
  | CbUnlock => set_isAnimating false
  | CbWheel deltaY => if 0 <? deltaY then goToNextSlide else goToPreviousSlide
  end.

(** The pending timer that is due first; among equal due times, the one
    created first. *)
Fixpoint earliest (l : list Timer) : option Timer :=
  match l with
  | [] => None
  | t :: rest =>
      match earliest rest with
      | Some t' => if timer_due t' <? timer_due t then Some t' else Some t
      | None => Some t
      end
  end.

Definition next_due (t : Z) (l : list Timer) : option Timer :=
  match earliest l with
  | Some tm => if timer_due tm <=? t then Some tm else None
  | None => None
  end.

(** Running one timer: the clock reaches its due time, it leaves the queue,
    its callback runs; an exception of the callback ends the callback only. *)
Definition fire (tm : Timer) (w : World) : World :=
  world_of
    (run_callback (timer_cb tm)
       (emit (TimerFired (timer_id tm) (timer_cb tm))
          (with_timers (filter (fun x => timer_id x <> timer_id tm))
             (with_now (Z.max (now w) (timer_due tm)) w)))).

Fixpoint run_timers (fuel : nat) (t : Z) (w : World) : World :=
  match fuel with
  | O => w
  | S fuel' =>
      match next_due t (timers w) with
      | Some tm => run_timers fuel' t (fire tm w)
      | None => w
      end
  end.

(** A wheel callback can start one transition, which creates one unlock
    timer; an unlock creates none. *)
Definition timer_weight (tm : Timer) : nat :=
  match timer_cb tm with
  | CbUnlock => 1
  | CbWheel _ => 2
  end.

Definition timer_budget (l : list Timer) : nat :=
  fold_right (fun tm n => (timer_weight tm + n)%nat) O l.

(** Let time pass until [t]: every timer due by then runs, in order. *)
Definition advance_to (t : Z) (w : World) : World :=
  let w' := run_timers (timer_budget (timers w)) t w in
  with_now (Z.max (now w') t) w'.

(** ** Listeners of the desktop variant, [src/script.js] *)

Record TouchEvent := {
  target_in_navigation : bool;   (* event.target.closest('.navigation') *)
  target_in_indicators : bool;   (* event.target.closest('.slide-indicators') *)
  screenX : Z;                   (* event.changedTouches[0].screenX *)
  screenY : Z
}.

(** [parseInt(s, 10)] on an attribute: leading white space, an optional sign,
    then the longest run of digits; [None] is [NaN]. *)
Definition digit_of (c : Ascii.ascii) : option Z :=
  let n := Z.of_nat (Ascii.nat_of_ascii c) in
  if (48 <=? n) && (n <=? 57) then Some (n - 48) else None.

Fixpoint parse_digits (acc : option Z) (s : string) : option Z :=
  match s with
  | EmptyString => acc
  | String c rest =>
      match digit_of c with
      | Some d => parse_digits (Some (10 * default 0 acc + d)) rest
      | None => acc
      end
  end.

(** The white space [parseInt] skips. In one byte: tab, line feed, vertical
    tab, form feed, carriage return and space. *)
Definition is_blank (c : Ascii.ascii) : bool :=
  let n := Ascii.nat_of_ascii c in
  ((9 <=? n) && (n <=? 13))%nat || (n =? 32)%nat.

(** In two bytes: U+00A0. *)
Definition is_blank2 (c1 c2 : Ascii.ascii) : bool :=
  ((Ascii.nat_of_ascii c1 =? 194) && (Ascii.nat_of_ascii c2 =? 160))%nat.

(** In three bytes: U+1680, U+2000 to U+200A, U+2028, U+2029, U+202F, U+205F,
    U+3000 and U+FEFF. *)
Definition is_blank3 (c1 c2 c3 : Ascii.ascii) : bool :=
  (((Ascii.nat_of_ascii c1 =? 225) && (Ascii.nat_of_ascii c2 =? 154)
    && (Ascii.nat_of_ascii c3 =? 128))
   || ((Ascii.nat_of_ascii c1 =? 226) && (Ascii.nat_of_ascii c2 =? 128)
       && (((128 <=? Ascii.nat_of_ascii c3) && (Ascii.nat_of_ascii c3 <=? 138))
           || (Ascii.nat_of_ascii c3 =? 168) || (Ascii.nat_of_ascii c3 =? 169)
           || (Ascii.nat_of_ascii c3 =? 175)))
   || ((Ascii.nat_of_ascii c1 =? 226) && (Ascii.nat_of_ascii c2 =? 129)
       && (Ascii.nat_of_ascii c3 =? 159))
   || ((Ascii.nat_of_ascii c1 =? 227) && (Ascii.nat_of_ascii c2 =? 128)
       && (Ascii.nat_of_ascii c3 =? 128))
   || ((Ascii.nat_of_ascii c1 =? 239) && (Ascii.nat_of_ascii c2 =? 187)
       && (Ascii.nat_of_ascii c3 =? 191)))%nat.

Fixpoint skip_blanks (s : string) : string :=
  match s with
  | String c1 rest1 =>
      if is_blank c1 then skip_blanks rest1
      else
        match rest1 with
        | String c2 rest2 =>
            if is_blank2 c1 c2 then skip_blanks rest2
            else
              match rest2 with
              | String c3 rest3 =>
                  if is_blank3 c1 c2 c3 then skip_blanks rest3 else s
              | EmptyString => s
              end
        | EmptyString => s
        end
  | EmptyString => s
  end.

Definition parseInt10 (a : option string) : option Z :=
  match a with
  | None => None
  | Some s =>
      match skip_blanks s with
      | String "-"%char rest => Z.opp <$> parse_digits None rest
      | String "+"%char rest => parse_digits None rest
      | s' => parse_digits None s'
      end
  end.

Definition tv_start (x y : Z) (tv : TouchVars) : TouchVars :=
  {| touchStartX := x; touchStartY := y; touchEndX := touchEndX tv;
     touchEndY := touchEndY tv; isSwiping := false |}.

Definition tv_set_isSwiping (b : bool) (tv : TouchVars) : TouchVars :=
  {| touchStartX := touchStartX tv; touchStartY := touchStartY tv;
     touchEndX := touchEndX tv; touchEndY := touchEndY tv; isSwiping := b |}.

Definition tv_end (x y : Z) (tv : TouchVars) : TouchVars :=
  {| touchStartX := touchStartX tv; touchStartY := touchStartY tv;
     touchEndX := x; touchEndY := y; isSwiping := isSwiping tv |}.

Definition tv_startY (y : Z) (tv : TouchVars) : TouchVars :=
  {| touchStartX := touchStartX tv; touchStartY := y; touchEndX := touchEndX tv;
     touchEndY := touchEndY tv; isSwiping := isSwiping tv |}.

Definition tv_endY (y : Z) (tv : TouchVars) : TouchVars :=
  {| touchStartX := touchStartX tv; touchStartY := touchStartY tv;
     touchEndX := touchEndX tv; touchEndY := y; isSwiping := isSwiping tv |}.

(** The click listener of an indicator, the same in both variants. *)
Definition indicatorClick (indicator : nat) : M unit := fun w =>
  match indicators (doc w) !! indicator with
  | Some el =>
      match parseInt10 (ind_data el) with
      | Some slideNumber => goToSlide slideNumber w
      | None => Returned tt w   (* NaN fails both comparisons of the range test *)
      end
  | None => Returned tt w       (* no such indicator, no listener *)
  end.

(** The [keydown] listener, the same in both variants; [preventDefault]
    changes nothing the model holds. *)
Definition keydownListener (key : string) : M unit :=
  if (String.eqb key "ArrowLeft" || String.eqb key "ArrowUp")%bool then goToPreviousSlide
  else if (String.eqb key "ArrowRight" || String.eqb key "ArrowDown")%bool then goToNextSlide
  else ret tt.

(** The [hashchange] listener and [handleInitialHash], the same text. *)
Definition handleInitialHash : M unit := fun w =>
  let hash := match location_hash (doc w) with
              | String _ rest => rest      (* substring(1) *)
              | EmptyString => EmptyString
              end in
  if negb (String.eqb hash "") &&
     match slideIdMap (state w) !! hash with
     | Some n => truthy_number n
     | None => false
     end
  then goToSlideById hash w
  else Returned tt w.

Module Script.

Definition SCROLL_SAFEZONE : Z := 800.

(** The [wheel] listener of [setupWheelNavigation]. *)
Definition wheelListener (deltaY : Z) : M unit := fun w =>
  if innerWidth (doc w) <=? 768 then Returned tt w
  else
    let activeSlide := list_find (fun s => slide_active s = true) (slides (doc w)) in
    let slideContent := match activeSlide with
                        | Some (_, s) => slide_content s
                        | None => None
                        end in
    let consumed :=
      match slideContent with
      | Some c =>
          let isAtTop := scrollTop c <=? SCROLL_SAFEZONE in
          let isAtBottom := scrollHeight c - SCROLL_SAFEZONE <=? scrollTop c + clientHeight c in
          ((0 <? deltaY) && negb isAtBottom) || ((deltaY <? 0) && negb isAtTop)
      | None => false
      end in
    if consumed then Returned tt w
    else
      (clearTimeout (scrollTimeout w) ;;
       id <- setTimeout (CbWheel deltaY) scrollThrottle ;
       mutate (with_scrollTimeout (Some id))) w.

Definition handleSwipe (startX startY endX endY : Z) : M unit :=
  let diffX := startX - endX in
  let diffY := startY - endY in
  let absDiffX := Z.abs diffX in
  let absDiffY := Z.abs diffY in
  if (absDiffY <? absDiffX) && (swipeThreshold <? absDiffX) then
    if 0 <? diffX then goToNextSlide else goToPreviousSlide
  else ret tt.

Definition touchstartListener (e : TouchEvent) : M unit := fun w =>
  if target_in_navigation e || target_in_indicators e then Returned tt w
  else Returned tt (with_touch (tv_start (screenX e) (screenY e)) w).

Definition touchmoveListener : M unit := fun w =>
  if negb (isSwiping (touch w))
  then Returned tt (with_touch (tv_set_isSwiping true) w)
  else Returned tt w.

Definition touchendListener (e : TouchEvent) : M unit := fun w =>
  if negb (isSwiping (touch w)) then Returned tt w
  else
    (mutate (with_touch (tv_end (screenX e) (screenY e))) ;;
     (fun w' => handleSwipe (touchStartX (touch w')) (touchStartY (touch w'))
                            (touchEndX (touch w')) (touchEndY (touch w')) w')) w.

(** Registering the listeners dereferences the two buttons and the
    container. *)
Definition setupEventListeners : M unit := fun w =>
  match prevBtn (doc w), nextBtn (doc w) with
  | Some _, Some _ => if sliderContainer (doc w) then Returned tt w else Threw TypeError w
  | _, _ => Threw TypeError w
  end.

Definition init : M unit :=
  cacheElements ;;
  createSlideIdMap ;;
  updateNavigationButtons ;;
  setupEventListeners.

End Script.

(** ** Listeners of the basic variant, the slider text in [index.js] *)

Module Index.

Definition wheelListener (deltaY : Z) : M unit := fun w =>
  (clearTimeout (scrollTimeout w) ;;
   id <- setTimeout (CbWheel deltaY) scrollThrottle ;
   mutate (with_scrollTimeout (Some id))) w.

Definition handleSwipe (startY endY : Z) : M unit :=
  let diff := startY - endY in
  if swipeThreshold <? Z.abs diff then
    if 0 <? diff then goToNextSlide else goToPreviousSlide
  else ret tt.

Definition touchstartListener (e : TouchEvent) : M unit :=
  mutate (with_touch (tv_startY (screenY e))).

Definition touchendListener (e : TouchEvent) : M unit :=
  mutate (with_touch (tv_endY (screenY e))) ;;
  (fun w' => handleSwipe (touchStartY (touch w')) (touchEndY (touch w')) w').

Definition setupEventListeners : M unit := fun w =>
  match prevBtn (doc w), nextBtn (doc w) with
  | Some _, Some _ => Returned tt w
  | _, _ => Threw TypeError w
  end.

Definition init : M unit :=
  cacheElements ;;
  createSlideIdMap ;;
  updateNavigationButtons ;;
  setupEventListeners.

End Index.

(** ** Inputs and runs *)

Inductive Variant := Desktop | Basic.

Inductive Input :=
| Tick                               (* time passes, nothing else *)
| ClickPrev
| ClickNext
| ClickMobileNext                    (* .mobile-next-btn, desktop variant only *)
| ClickIndicator (indicator : nat)
| KeyDown (key : string)
| Wheel (deltaY : Z)
| TouchStart (e : TouchEvent)
| TouchMove
| TouchEnd (e : TouchEvent)
| HashChange (hash : string)         (* the user edits the fragment *)
| Load                               (* window load: handleInitialHash *)
| CallGoToSlide (n : Z)              (* the public API *)
| CallGoToSlideById (id : string)
| Resize (width : Z)                 (* the window is resized *)
| ScrollContent (slide : nat) (top : Z). (* the inner region of a slide scrolls *)

Definition content_set_scrollTop (top : Z) (c : SlideContent) : SlideContent :=
  {| scrollTop := top; scrollHeight := scrollHeight c; clientHeight := clientHeight c |}.

Definition slide_scroll (top : Z) (s : SlideEl) : SlideEl :=
  {| slide_id := slide_id s; slide_data := slide_data s;
     slide_active := slide_active s;
     slide_content := content_set_scrollTop top <$> slide_content s |}.

Definition doc_set_innerWidth (width : Z) (d : Document) : Document :=
  {| slides := slides d; indicators := indicators d; prevBtn := prevBtn d;
     nextBtn := nextBtn d; sliderContainer := sliderContainer d;
     innerWidth := width; location_hash := location_hash d;
     history := history d |}.

(** What the page does on an input. The last two inputs are changes of the
    environment that no listener of the slider observes when they happen. *)
Definition handle (v : Variant) (i : Input) : M unit :=
  match i with
  | Tick => ret tt
  | ClickPrev => goToPreviousSlide
  | ClickNext => goToNextSlide
  | ClickMobileNext =>
      match v with Desktop => goToNextSlide | Basic => ret tt end
  | ClickIndicator k => indicatorClick k
  | KeyDown key => keydownListener key
  | Wheel deltaY =>
      match v with
      | Desktop => Script.wheelListener deltaY
      | Basic => Index.wheelListener deltaY
      end
  | TouchStart e =>
      match v with
      | Desktop => Script.touchstartListener e
      | Basic => Index.touchstartListener e
      end
  | TouchMove =>
      match v with Desktop => Script.touchmoveListener | Basic => ret tt end
  | TouchEnd e =>
      match v with
      | Desktop => Script.touchendListener e
      | Basic => Index.touchendListener e
      end
  | HashChange hash => mutate (with_doc (doc_set_hash hash)) ;; handleInitialHash
  | Load => handleInitialHash
  | CallGoToSlide n => goToSlide n
  | CallGoToSlideById id => goToSlideById id
  | Resize width => mutate (with_doc (doc_set_innerWidth width))
  | ScrollContent k top =>
      mutate (with_doc (fun d => doc_set_slides (alter (slide_scroll top) k (slides d)) d))
  end.

Definition init (v : Variant) : M unit :=
  match v with
  | Desktop => Script.init
  | Basic => Index.init
  end.

(** An input arriving at time [t]: the timers due by [t] run first, then the
    listener; an exception ends the listener only. *)
Definition step (v : Variant) (w : World) (ti : Z * Input) : World :=
  world_of (handle v (snd ti) (advance_to (fst ti) w)).

Definition run (v : Variant) (inputs : list (Z * Input)) (w : World) : World :=
  fold_left (step v) inputs w.

(** The module-level state before [init], on a freshly loaded document. *)
Definition initial_world (d : Document) : World :=
  {| state := {| currentSlide := 1; isAnimating := false; totalSlides := 0;
                 slideIdMap := ∅ |};
     doc := d; now := 0; timers := []; next_timer_id := 1;
     scrollTimeout := None;
     touch := {| touchStartX := 0; touchStartY := 0; touchEndX := 0;
                 touchEndY := 0; isSwiping := false |};
     log := [] |}.

(** The worlds a page can be in once [init] has returned. *)
Inductive reachable (v : Variant) (d : Document) : World -> Prop :=
| reach_init w :
    init v (initial_world d) = Returned tt w -> reachable v d w
| reach_step w ti :
    reachable v d w -> reachable v d (step v w ti).

(** ** A sample page: five slides [s1] to [s5] *)

Definition sample_slide (k : Z) (active : bool) : SlideEl :=
  {| slide_id := Some ("s" +:+ number_toString k);
     slide_data := Some (number_toString k);
     slide_active := active; slide_content := None |}.

Definition sample_indicator (k : Z) (active : bool) : IndicatorEl :=
  {| ind_data := Some (number_toString k); ind_active := active;
     ind_aria_selected := None |}.

Definition sample_button : ButtonEl := {| disabled := false; aria_disabled := None |}.

Definition sample_doc : Document :=
  {| slides := [sample_slide 1 true; sample_slide 2 false; sample_slide 3 false;
                sample_slide 4 false; sample_slide 5 false];
     indicators := [sample_indicator 1 true; sample_indicator 2 false;
                    sample_indicator 3 false; sample_indicator 4 false;
                    sample_indicator 5 false];
     prevBtn := Some sample_button; nextBtn := Some sample_button;
     sliderContainer := true; innerWidth := 1280; location_hash := "";
     history := [] |}.

Definition sample_world (v : Variant) : World :=
  world_of (init v (initial_world sample_doc)).

(** ** What an accepted [goToSlide] leaves behind *)

(** The slides after the two class updates of [goToSlide]. *)
Definition slides_after (n : Z) (l : list SlideEl) : list SlideEl :=
  let cleared := map (slide_set_active false) l in
  match list_find (is_slide n) cleared with
  | Some (i, _) => alter (slide_set_active true) i cleared
  | None => cleared
  end.

(** The indicators after the class updates and [updateAriaAttributes]. *)
Definition indicators_after (n : Z) (l : list IndicatorEl) : list IndicatorEl :=
  let cleared := map (ind_set_active false) l in
  imap (aria_selected_for n)
    (match list_find (is_indicator n) cleared with
     | Some (i, _) => alter (ind_set_active true) i cleared
     | None => cleared
     end).

(** The URL [updateURL] pushes, if any. *)
Definition url_for (n : Z) (l : list SlideEl) : option string :=
  match list_find (is_slide n) l with
  | Some (_, el) =>
      match slide_id el with
      | Some id => if truthy_attr (Some id) then Some ("#" +:+ id) else None
      | None => None
      end
  | None => None
  end.

Definition button_for (b : bool) : ButtonEl :=
  {| disabled := b; aria_disabled := Some (bool_toString b) |}.

(** The side effects of an accepted [goToSlide], in the order of the code. *)
Definition goToSlide_effects (n : Z) (w : World) : list Effect :=
  [SetIsAnimating true; RemoveActiveSlides; RemoveActiveIndicators]
  ++ match list_find (is_slide n) (slides (doc w)) with
     | Some _ => [AddActiveSlide n] | None => [] end
  ++ match list_find (is_indicator n) (indicators (doc w)) with
     | Some _ => [AddActiveIndicator n] | None => [] end
  ++ [SetCurrentSlide n;
      SetDisabled Prev (n =? 1);
      SetDisabled Next (n =? totalSlides (state w));
      SetAriaDisabled Prev (bool_toString (n =? 1));
      SetAriaDisabled Next (bool_toString (n =? totalSlides (state w)));
      SetAriaSelected n]
  ++ match url_for n (slides (doc w)) with
     | Some url => [PushState url] | None => [] end
  ++ [SetTimeout (next_timer_id w) CbUnlock transitionDuration].

Definition unlock_timer (w : World) : Timer :=
  {| timer_id := next_timer_id w; timer_due := now w + transitionDuration;
     timer_cb := CbUnlock |}.

(** The world after an accepted [goToSlide] on a page with both buttons. *)
Definition after_goToSlide (n : Z) (w : World) : World :=
  {| state := {| currentSlide := n; isAnimating := true;
                 totalSlides := totalSlides (state w);
                 slideIdMap := slideIdMap (state w) |};
     doc := {| slides := slides_after n (slides (doc w));
               indicators := indicators_after n (indicators (doc w));
               prevBtn := Some (button_for (n =? 1));
               nextBtn := Some (button_for (n =? totalSlides (state w)));
               sliderContainer := sliderContainer (doc w);
               innerWidth := innerWidth (doc w);
               location_hash := default (location_hash (doc w))
                                  (url_for n (slides (doc w)));
               history := match url_for n (slides (doc w)) with
                          | Some url => url :: history (doc w)
                          | None => history (doc w)
                          end |};
     now := now w;
     timers := timers w ++ [unlock_timer w];
     next_timer_id := S (next_timer_id w);
     scrollTimeout := scrollTimeout w;
     touch := touch w;
     log := log w ++ goToSlide_effects n w |}.

(** ** The contract with the page, and the vocabulary of the properties *)

(** The [data-slide] attributes of [len] elements numbered by position. *)
Definition position_attrs (len : nat) : list (option string) :=
  (fun i => Some (number_toString (Z.of_nat i + 1))) <$> seq 0 len.

(** The page the slider is written for: every slide and every indicator
    carries its one-based position in [data-slide], there is one indicator
    per slide, and the two buttons exist. *)
Record dom_contract (d : Document) : Prop := {
  contract_slides : slide_data <$> slides d = position_attrs (length (slides d));
  contract_indicators : ind_data <$> indicators d = position_attrs (length (slides d));
  contract_prevBtn : is_Some (prevBtn d);
  contract_nextBtn : is_Some (nextBtn d)
}.

(** Exactly one element of a list of class flags is set, the one at the
    one-based position [n]. *)
Definition only_active (n : Z) (flags : list bool) : Prop :=
  1 <= n <= Z.of_nat (length flags) /\
  forall i b, flags !! i = Some b -> (b = true <-> Z.of_nat i + 1 = n).

(** Exactly one slide and exactly one indicator are active, both at [n]. *)
Definition one_active_at (n : Z) (d : Document) : Prop :=
  only_active n (slide_active <$> slides d) /\
  only_active n (ind_active <$> indicators d).

(** The flags with only position [n] set. *)
Definition flags_at (n : Z) (len : nat) : list bool :=
  (fun i => Z.of_nat i + 1 =? n) <$> seq 0 len.

(** The part of the world that only [goToSlide] and [init] write: the slide
    counters and the map, and the classes and attributes of the elements. *)
Record PageView := {
  pv_currentSlide : Z;
  pv_totalSlides : Z;
  pv_slideIdMap : gmap string Z;
  pv_slide_id : list (option string);
  pv_slide_data : list (option string);
  pv_slide_active : list bool;
  pv_indicators : list IndicatorEl;
  pv_prevBtn : option ButtonEl;
  pv_nextBtn : option ButtonEl
}.

Definition page_view (w : World) : PageView :=
  {| pv_currentSlide := currentSlide (state w);
     pv_totalSlides := totalSlides (state w);
     pv_slideIdMap := slideIdMap (state w);
     pv_slide_id := slide_id <$> slides (doc w);
     pv_slide_data := slide_data <$> slides (doc w);
     pv_slide_active := slide_active <$> slides (doc w);
     pv_indicators := indicators (doc w);
     pv_prevBtn := prevBtn (doc w);
     pv_nextBtn := nextBtn (doc w) |}.

Definition is_unlock (tm : Timer) : Prop := timer_cb tm = CbUnlock.

#[global] Instance is_unlock_dec tm : Decision (is_unlock tm).
Proof. unfold is_unlock. apply _. Defined.

(** The pending releases of the lock. *)
Definition unlock_timers (w : World) : list Timer := filter is_unlock (timers w).

(** Timer identifiers are never reused: the pending timers have distinct
    identifiers, all below the next one to be handed out. *)
Definition fresh_list (next : nat) (l : list Timer) : Prop :=
  NoDup (timer_id <$> l) /\ Forall (fun tm => (timer_id tm < next)%nat) l.

Definition timers_fresh (w : World) : Prop :=
  fresh_list (next_timer_id w) (timers w).

(** One move of the page: a call of [goToSlide]; a quiet move, which leaves
    the view and the lock alone, adds no release and keeps the identifiers
    fresh; or the release of the lock by its timer. *)
Inductive page_step : World -> World -> Prop :=
| step_goToSlide n w :
    page_step w (world_of (goToSlide n w))
| step_quiet w w' :
    page_view w' = page_view w ->
    isAnimating (state w') = isAnimating (state w) ->
    sublist (unlock_timers w') (unlock_timers w) ->
    (timers_fresh w -> timers_fresh w') ->
    page_step w w'
| step_release tm w :
    tm ∈ timers w -> timer_cb tm = CbUnlock ->
    page_step w (fire tm w).

Definition page_steps : World -> World -> Prop := rtc page_step.

(** The invariant of the page view on a page loaded from [d0]: the counters
    and the map are those [init] computed, the attributes the code only
    reads are those of [d0], the buttons mirror the current slide, and, on a
    page that keeps the contract and is delivered with its first slide
    active, the active classes sit on the current slide. *)
Record page_ok (d0 : Document) (pv : PageView) : Prop := {
  ok_total : pv_totalSlides pv = Z.of_nat (length (slides d0));
  ok_map : pv_slideIdMap pv = slideIdMap_from 0 (slides d0) ∅;
  ok_slide_id : pv_slide_id pv = slide_id <$> slides d0;
  ok_slide_data : pv_slide_data pv = slide_data <$> slides d0;
  ok_ind_data : ind_data <$> pv_indicators pv = ind_data <$> indicators d0;
  ok_prevBtn : pv_prevBtn pv = Some (button_for (pv_currentSlide pv =? 1));
  ok_nextBtn :
    pv_nextBtn pv = Some (button_for (pv_currentSlide pv =? pv_totalSlides pv));
  ok_current :
    pv_currentSlide pv = 1 \/ 1 <= pv_currentSlide pv <= pv_totalSlides pv;
  ok_active :
    dom_contract d0 -> one_active_at 1 d0 ->
    only_active (pv_currentSlide pv) (pv_slide_active pv) /\
    only_active (pv_currentSlide pv) (ind_active <$> pv_indicators pv)
}.

(** The world [init] returns on a page with both buttons. *)
Definition after_init (d : Document) : World :=
  {| state := {| currentSlide := 1; isAnimating := false;
                 totalSlides := Z.of_nat (length (slides d));
                 slideIdMap := slideIdMap_from 0 (slides d) ∅ |};
     doc := {| slides := slides d; indicators := indicators d;
               prevBtn := Some (button_for (1 =? 1));
               nextBtn := Some (button_for (1 =? Z.of_nat (length (slides d))));
               sliderContainer := sliderContainer d;
               innerWidth := innerWidth d;
               location_hash := location_hash d;
               history := history d |};
     now := 0; timers := []; next_timer_id := 1; scrollTimeout := None;
     touch := {| touchStartX := 0; touchStartY := 0; touchEndX := 0;
                 touchEndY := 0; isSwiping := false |};
     log := [SetDisabled Prev (1 =? 1);
             SetDisabled Next (1 =? Z.of_nat (length (slides d)));
             SetAriaDisabled Prev (bool_toString (1 =? 1));
             SetAriaDisabled Next (bool_toString (1 =? Z.of_nat (length (slides d))))] |}.

(** ** The order of the steps as the specification lists them *)

(** Modelled on the specification's wording, for comparison with
    [goToSlide]: the same guard and the same steps, with the lock taken after
    [currentSlide] is set, where the specification lists it. *)
Definition goToSlide_spec_order (slideNumber : Z) : M unit := fun w =>
  if isAnimating (state w) || negb (isValidSlideNumber slideNumber (state w))
  then Returned tt w
  else
    (removeActiveSlides ;;
     removeActiveIndicators ;;
     addActiveSlide slideNumber ;;
     addActiveIndicator slideNumber ;;
     set_currentSlide slideNumber ;;
     set_isAnimating true ;;
     updateNavigationButtons ;;
     updateAriaAttributes slideNumber ;;
     updateURL slideNumber ;;
     _ <- setTimeout CbUnlock transitionDuration ;
     ret tt) w.

Definition with_log (l : list Effect) (w : World) : World :=
  {| state := state w; doc := doc w; now := now w; timers := timers w;
     next_timer_id := next_timer_id w; scrollTimeout := scrollTimeout w;
     touch := touch w; log := l |}.

(** The side effects in the order of the specification. *)
Definition spec_order_effects (n : Z) (w : World) : list Effect :=
  [RemoveActiveSlides; RemoveActiveIndicators]
  ++ match list_find (is_slide n) (slides (doc w)) with
     | Some _ => [AddActiveSlide n] | None => [] end
  ++ match list_find (is_indicator n) (indicators (doc w)) with
     | Some _ => [AddActiveIndicator n] | None => [] end
  ++ [SetCurrentSlide n;
      SetIsAnimating true;
      SetDisabled Prev (n =? 1);
      SetDisabled Next (n =? totalSlides (state w));
      SetAriaDisabled Prev (bool_toString (n =? 1));
      SetAriaDisabled Next (bool_toString (n =? totalSlides (state w)));
      SetAriaSelected n]
  ++ match url_for n (slides (doc w)) with
     | Some url => [PushState url] | None => [] end
  ++ [SetTimeout (next_timer_id w) CbUnlock transitionDuration].

(** The lock and its release go together: at most one release is pending,
    and none while the lock is free. *)
Definition lock_ok (w : World) : Prop :=
  (length (unlock_timers w) <= 1)%nat /\
  (isAnimating (state w) = false -> unlock_timers w = []).

(** ** Wheel events *)

(** The world after a wheel event the listener accepts: the pending wheel
    timer is cancelled and a new one is armed, due after the quiet period. *)
Definition after_wheel (deltaY : Z) (w : World) : World :=
  {| state := state w; doc := doc w; now := now w;
     timers := filter (fun t => Some (timer_id t) <> scrollTimeout w) (timers w)
               ++ [{| timer_id := next_timer_id w;
                      timer_due := now w + scrollThrottle;
                      timer_cb := CbWheel deltaY |}];
     next_timer_id := S (next_timer_id w);
     scrollTimeout := Some (next_timer_id w);
     touch := touch w;
     log := log w ++ [ClearTimeout (scrollTimeout w);
                      SetTimeout (next_timer_id w) (CbWheel deltaY) scrollThrottle] |}.

(** The first active slide's inner scrollable region, as the desktop
    listener looks it up. *)
Definition active_content (d : Document) : option SlideContent :=
  match list_find (fun s => slide_active s = true) (slides d) with
  | Some (_, s) => slide_content s
  | None => None
  end.

(** A page whose first slide is active and holds a scrollable region, scrolled
    to the middle of a long text. *)
Definition scrolling_doc : Document :=
  {| slides := [{| slide_id := Some "intro"; slide_data := Some "1";
                   slide_active := true;
                   slide_content := Some {| scrollTop := 1000; scrollHeight := 5000;
                                            clientHeight := 900 |} |};
                {| slide_id := Some "end"; slide_data := Some "2";
                   slide_active := false; slide_content := None |}];
     indicators := [sample_indicator 1 true; sample_indicator 2 false];
     prevBtn := Some sample_button; nextBtn := Some sample_button;
     sliderContainer := true; innerWidth := 1280; location_hash := "";
     history := [] |}.

(** ** A touch that starts on the navigation controls *)

Definition nav_touch : TouchEvent :=
  {| target_in_navigation := true; target_in_indicators := false;
     screenX := 500; screenY := 30 |}.

(** The sample page on its second slide, the transition over. *)
Definition on_second_slide : World :=
  run Desktop [(0, CallGoToSlide 2); (700, Tick)] (after_init sample_doc).

(** ** Bursts of wheel events *)

Definition is_wheel (tm : Timer) : Prop :=
  match timer_cb tm with
  | CbWheel _ => True
  | CbUnlock => False
  end.

#[global] Instance is_wheel_dec tm : Decision (is_wheel tm).
Proof. unfold is_wheel. destruct (timer_cb tm); apply _. Defined.

(** The pending wheel callbacks. *)
Definition wheel_timers (w : World) : list Timer := filter is_wheel (timers w).

(** The wheel callbacks that ran, oldest first, by the [deltaY] they hold. *)
Definition wheel_fired (l : list Effect) : list Z :=
  omap (fun e => match e with
                 | TimerFired _ (CbWheel deltaY) => Some deltaY
                 | _ => None
                 end) l.

(** The transitions made, oldest first, by their target. *)
Definition transitions (l : list Effect) : list Z :=
  omap (fun e => match e with
                 | SetCurrentSlide n => Some n
                 | _ => None
                 end) l.

(** Whether the [wheel] listener of a variant arms its callback on a page:
    always in the basic variant; in the desktop variant when none of the
    guards stops the event. *)
Definition wheel_accepts (v : Variant) (deltaY : Z) (d : Document) : bool :=
  match v with
  | Basic => true
  | Desktop =>
      negb (innerWidth d <=? 768)
      && match active_content d with
         | Some c =>
             negb (((0 <? deltaY)
                    && negb (scrollHeight c - 800 <=? scrollTop c + clientHeight c))
                   || ((deltaY <? 0) && negb (scrollTop c <=? 800)))
         | None => true
         end
  end.

(** A burst: wheel events given by time and [deltaY]. *)
Definition wheel_inputs (evs : list (Z * Z)) : list (Z * Input) :=
  map (fun e => (fst e, Wheel (snd e))) evs.

(** Each event of the burst comes less than the quiet period after the one
    before it, the first one after [t0]. *)
Fixpoint spaced (t0 : Z) (evs : list (Z * Z)) : Prop :=
  match evs with
  | [] => True
  | e :: rest => t0 <= fst e < t0 + scrollThrottle /\ spaced (fst e) rest
  end.

(** The state of the page in a burst that started in [w0], after an accepted
    event at time [t] with vertical delta [deltaY]: one wheel callback is
    pending, the one of that event, and nothing else has happened to the
    page. *)
Record armed (w0 : World) (t deltaY : Z) (w : World) : Prop := {
  armed_view : page_view w = page_view w0;
  armed_doc : doc w = doc w0;
  armed_now : now w = t;
  armed_fresh : timers_fresh w;
  armed_timer :
    exists k, wheel_timers w
              = [{| timer_id := k; timer_due := t + scrollThrottle;
                    timer_cb := CbWheel deltaY |}]
              /\ scrollTimeout w = Some k;
  armed_fired : wheel_fired (log w) = wheel_fired (log w0);
  armed_transitions : transitions (log w) = transitions (log w0)
}.

(** What a stretch of time in which only releases of the lock run leaves
    alone. *)
Record calm (w w' : World) : Prop := {
  calm_view : page_view w' = page_view w;
  calm_doc : doc w' = doc w;
  calm_scrollTimeout : scrollTimeout w' = scrollTimeout w;
  calm_wheel_timers : wheel_timers w' = wheel_timers w;
  calm_fresh : timers_fresh w';
  calm_fired : wheel_fired (log w') = wheel_fired (log w);
  calm_transitions : transitions (log w') = transitions (log w);
  calm_now : now w <= now w'
}.

(** The desktop page of the counterexample: the inner region of the active
    slide is scrolled to its bottom edge. *)
Definition at_bottom : World :=
  world_of (handle Desktop (ScrollContent 0 3300) (after_init scrolling_doc)).

(** The last event of a burst given by its first event and the others. *)
Definition last_event (first : Z * Z) (rest : list (Z * Z)) : Z * Z :=
  List.last rest first.

(** The world once the listener has handled every event of the burst. *)
Definition after_burst (v : Variant) (first : Z * Z) (rest : list (Z * Z))
    (w : World) : World :=
  run v (wheel_inputs (first :: rest)) w.

(** Five wheel events with [deltaY = 120] within 10 ms. *)
Definition five_wheels : list (Z * Z) :=
  [(2, 120); (4, 120); (6, 120); (10, 120)].

(** ** Pages of the counterexamples *)


(** The sample page delivered without the [active] class on any slide or
    indicator. *)
Definition bare_doc : Document :=
  {| slides := [sample_slide 1 false; sample_slide 2 false; sample_slide 3 false;
                sample_slide 4 false; sample_slide 5 false];
     indicators := [sample_indicator 1 false; sample_indicator 2 false;
                    sample_indicator 3 false; sample_indicator 4 false;
                    sample_indicator 5 false];
     prevBtn := Some sample_button; nextBtn := Some sample_button;
     sliderContainer := true; innerWidth := 1280; location_hash := "";
     history := [] |}.

(** A page with the two buttons and no slide. *)
Definition empty_doc : Document :=
  {| slides := []; indicators := [];
     prevBtn := Some sample_button; nextBtn := Some sample_button;
     sliderContainer := true; innerWidth := 1280; location_hash := "";
     history := [] |}.



(** The URLs given to [pushState], oldest first. *)
Definition pushes (l : list Effect) : list string :=
  omap (fun e => match e with
                 | PushState url => Some url
                 | _ => None
                 end) l.

(** ** Pages, events and views used by the further properties *)

(** The sample page delivered without its [next] button. *)
Definition no_next_doc : Document :=
  {| slides := slides sample_doc; indicators := indicators sample_doc;
     prevBtn := Some sample_button; nextBtn := None;
     sliderContainer := true; innerWidth := 1280; location_hash := "";
     history := [] |}.

(** [s.substring(1)] *)
Definition substring1 (s : string) : string :=
  match s with
  | String _ rest => rest
  | EmptyString => EmptyString
  end.

(** A touch on the slide itself, away from the controls. *)
Definition touch_at (x y : Z) : TouchEvent :=
  {| target_in_navigation := false; target_in_indicators := false;
     screenX := x; screenY := y |}.

(** The view of the page [d] showing its slide [n] after a navigation: the
    classes sit on position [n], [aria-selected] is set on every indicator,
    and the buttons are updated for [n]. *)
Definition view_at (d : Document) (n : Z) : PageView :=
  {| pv_currentSlide := n;
     pv_totalSlides := Z.of_nat (length (slides d));
     pv_slideIdMap := slideIdMap_from 0 (slides d) ∅;
     pv_slide_id := slide_id <$> slides d;
     pv_slide_data := slide_data <$> slides d;
     pv_slide_active := flags_at n (length (slides d));
     pv_indicators := indicators_after n (indicators d);
     pv_prevBtn := Some (button_for (n =? 1));
     pv_nextBtn := Some (button_for (n =? Z.of_nat (length (slides d)))) |}.


(** ** The moves of the scheduler *)

(** A timer leaves the queue to run: the clock reaches its due time and the
    run is logged; the body of the callback comes next. *)
Definition dequeued (tm : Timer) (w : World) : World :=
  emit (TimerFired (timer_id tm) (timer_cb tm))
    (with_timers (filter (fun x => timer_id x <> timer_id tm))
       (with_now (Z.max (now w) (timer_due tm)) w)).

(** What a run is made of: calls of [goToSlide], wheel events that arm the
    callback, releases of the lock by its timer, wheel callbacks leaving the
    queue, and moves that touch neither the controller's state, nor the
    timers, nor the view, nor the history, while time may pass. *)
Inductive move : World -> World -> Prop :=
| move_goToSlide n w :
    move w (world_of (goToSlide n w))
| move_wheel deltaY w :
    move w (after_wheel deltaY w)
| move_release tm w :
    tm ∈ timers w -> timer_cb tm = CbUnlock ->
    move w (fire tm w)
| move_dequeue tm w :
    tm ∈ timers w -> is_wheel tm ->
    move w (dequeued tm w)
| move_inert w w' :
    state w' = state w ->
    timers w' = timers w ->
    next_timer_id w' = next_timer_id w ->
    scrollTimeout w' = scrollTimeout w ->
    page_view w' = page_view w ->
    history (doc w') = history (doc w) ->
    log w' = log w ->
    now w <= now w' ->
    move w w'.

Definition moves : World -> World -> Prop := rtc move.

(** The timer queue and the two variables that guard it. *)
Record sched_ok (w : World) : Prop := {
  sched_fresh : timers_fresh w;
  sched_locked :
    isAnimating (state w) = true -> exists tm, unlock_timers w = [tm];
  sched_free : isAnimating (state w) = false -> unlock_timers w = [];
  sched_wheel :
    forall tm, tm ∈ timers w -> is_wheel tm -> scrollTimeout w = Some (timer_id tm);
  sched_unlock :
    forall tm, tm ∈ timers w -> is_unlock tm -> scrollTimeout w <> Some (timer_id tm);
  sched_scrollTimeout :
    forall k, scrollTimeout w = Some k -> (k < next_timer_id w)%nat;
  sched_wheel_due :
    forall tm, tm ∈ timers w -> is_wheel tm -> timer_due tm <= now w + scrollThrottle;
  sched_unlock_due :
    forall tm, tm ∈ timers w -> is_unlock tm ->
               timer_due tm <= now w + transitionDuration
}.


(** The view follows the navigation: before the first accepted call the
    view is the one [init] left; afterwards it is the view of the current
    slide, which is the target of the last accepted call. *)
Definition view_ok (d : Document) (w : World) : Prop :=
  (transitions (log w) = [] /\ page_view w = page_view (after_init d))
  \/ (last (transitions (log w)) = Some (currentSlide (state w))
      /\ 1 <= currentSlide (state w) <= Z.of_nat (length (slides d))
      /\ page_view w = view_at d (currentSlide (state w))).


(** The indicators after the two class updates of [goToSlide], before
    [updateAriaAttributes]. *)
Definition indicators_moved (n : Z) (l : list IndicatorEl) : list IndicatorEl :=
  let cleared := map (ind_set_active false) l in
  match list_find (is_indicator n) cleared with
  | Some (i, _) => alter (ind_set_active true) i cleared
  | None => cleared
  end.

(** By the time [t] every pending timer has run, and so has the release
    that a pending wheel callback may schedule. *)
Record drains (t : Z) (w : World) : Prop := {
  drains_now : now w <= t;
  drains_unlock :
    forall tm, tm ∈ timers w -> is_unlock tm -> timer_due tm <= t;
  drains_wheel :
    forall tm, tm ∈ timers w -> is_wheel tm ->
               Z.max (now w) (timer_due tm) + transitionDuration <= t
}.


(** * Verification *)

(** ** The guard of [goToSlide] *)

Lemma isValidSlideNumber_spec (n : Z) (s : State) :
  isValidSlideNumber n s = true <-> 1 <= n <= totalSlides s.
Proof. unfold isValidSlideNumber. rewrite andb_true_iff, !Z.leb_le. tauto. Qed.

Lemma isValidSlideNumber_false (n : Z) (s : State) :
  isValidSlideNumber n s = false <-> n < 1 \/ totalSlides s < n.
Proof.
  unfold isValidSlideNumber. rewrite andb_false_iff, !Z.leb_gt. tauto.
Qed.

Lemma goToSlide_guard_true (n : Z) (w : World) :
  isAnimating (state w) || negb (isValidSlideNumber n (state w)) = true ->
  goToSlide n w = Returned tt w.
Proof. intros H. unfold goToSlide. now rewrite H. Qed.

Lemma goToSlide_locked (n : Z) (w : World) :
  isAnimating (state w) = true -> goToSlide n w = Returned tt w.
Proof. intros H. apply goToSlide_guard_true. now rewrite H. Qed.

Lemma goToSlide_out_of_range (n : Z) (w : World) :
  n < 1 \/ totalSlides (state w) < n -> goToSlide n w = Returned tt w.
Proof.
  intros H. apply goToSlide_guard_true. apply orb_true_iff. right.
  apply negb_true_iff. now apply isValidSlideNumber_false.
Qed.

(** C2. When the lock is held, or the target is outside [1, totalSlides],
    [goToSlide] returns normally and leaves the whole world as it was: the
    state, the document, the pending timers and the log of side effects. No
    exception is raised. The first alternative does not look at the target,
    so a call made while a transition is running is dropped whatever its
    target is. *)
Theorem goToSlide_ignored (n : Z) (w : World)
  (H : isAnimating (state w) = true \/ n < 1 \/ totalSlides (state w) < n) :
  goToSlide n w = Returned tt w.
Proof.
  destruct H as [H | H].
  - now apply goToSlide_locked.
  - now apply goToSlide_out_of_range.
Qed.

Lemma goToSlide_ignored_witness :
  (isAnimating (state (world_of (goToSlide 2 (sample_world Desktop)))) = true
   \/ 4 < 1
   \/ totalSlides (state (world_of (goToSlide 2 (sample_world Desktop)))) < 4)
  /\ goToSlide 4 (world_of (goToSlide 2 (sample_world Desktop)))
     = Returned tt (world_of (goToSlide 2 (sample_world Desktop))).
Proof.
  split.
  - left. vm_compute. reflexivity.
  - apply (goToSlide_ignored 4 (world_of (goToSlide 2 (sample_world Desktop)))).
    left. vm_compute. reflexivity.
Defined.

(** ** The wrappers *)

Lemma goToPreviousSlide_eq (w : World) :
  goToPreviousSlide w = goToSlide (currentSlide (state w) - 1) w.
Proof.
  unfold goToPreviousSlide.
  destruct (Z.ltb_spec 1 (currentSlide (state w))) as [Hlt | Hge]; [reflexivity |].
  symmetry. apply goToSlide_out_of_range. left. lia.
Qed.

Lemma goToNextSlide_eq (w : World) :
  goToNextSlide w = goToSlide (currentSlide (state w) + 1) w.
Proof.
  unfold goToNextSlide.
  destruct (Z.ltb_spec (currentSlide (state w)) (totalSlides (state w)))
    as [Hlt | Hge]; [reflexivity |].
  symmetry. apply goToSlide_out_of_range. right. lia.
Qed.

(** C4. [goToPreviousSlide] and [goToNextSlide] are [goToSlide] at the
    neighbouring index, in every world; on the first slide the former, and on
    the last slide the latter, returns with the world unchanged. *)
Theorem prev_next_are_goToSlide (w : World) :
  goToPreviousSlide w = goToSlide (currentSlide (state w) - 1) w
  /\ goToNextSlide w = goToSlide (currentSlide (state w) + 1) w
  /\ (currentSlide (state w) = 1 -> goToPreviousSlide w = Returned tt w)
  /\ (currentSlide (state w) = totalSlides (state w) ->
      goToNextSlide w = Returned tt w).
Proof.
  split; [apply goToPreviousSlide_eq |]. split; [apply goToNextSlide_eq |].
  unfold goToPreviousSlide, goToNextSlide. split.
  - intros ->. reflexivity.
  - intros ->. now rewrite Z.ltb_irrefl.
Qed.

Lemma prev_next_are_goToSlide_witness :
  goToPreviousSlide (sample_world Desktop) = Returned tt (sample_world Desktop)
  /\ currentSlide (state (world_of (goToNextSlide (sample_world Desktop)))) = 2.
Proof.
  split.
  - apply (prev_next_are_goToSlide (sample_world Desktop)). reflexivity.
  - destruct (prev_next_are_goToSlide (sample_world Desktop)) as (_ & -> & _).
    vm_compute. reflexivity.
Defined.

(** ** Accepted calls *)

Lemma list_find_clear_slides (n : Z) (l : list SlideEl) :
  list_find (is_slide n) (map (slide_set_active false) l)
  = prod_map id (slide_set_active false) <$> list_find (is_slide n) l.
Proof.
  induction l as [| s l IH]; [reflexivity |].
  cbn [map list_find].
  destruct (decide (is_slide n s)) as [Hs | Hs];
    destruct (decide (is_slide n (slide_set_active false s))) as [Hs' | Hs'];
    try reflexivity; try (exfalso; now auto).
  rewrite IH. destruct (list_find _ l) as [[i x] |]; reflexivity.
Qed.

Lemma list_find_clear_indicators (n : Z) (l : list IndicatorEl) :
  list_find (is_indicator n) (map (ind_set_active false) l)
  = prod_map id (ind_set_active false) <$> list_find (is_indicator n) l.
Proof.
  induction l as [| s l IH]; [reflexivity |].
  cbn [map list_find].
  destruct (decide (is_indicator n s)) as [Hs | Hs];
    destruct (decide (is_indicator n (ind_set_active false s))) as [Hs' | Hs'];
    try reflexivity; try (exfalso; now auto).
  rewrite IH. destruct (list_find _ l) as [[i x] |]; reflexivity.
Qed.

(** Toggling the class of one slide does not change which slide a
    [data-slide] selector finds, nor its identifier. *)
Lemma list_find_alter_slides (n : Z) (b : bool) (k : nat) (l : list SlideEl) :
  prod_map id slide_id <$> list_find (is_slide n) (alter (slide_set_active b) k l)
  = prod_map id slide_id <$> list_find (is_slide n) l.
Proof.
  revert k. induction l as [| s l IH]; intros k; [reflexivity |].
  destruct k as [| k]; cbn [alter list_alter list_find].
  - destruct (decide (is_slide n s)) as [Hs | Hs];
      destruct (decide (is_slide n (slide_set_active b s))) as [Hs' | Hs'];
      try reflexivity; exfalso; now auto.
  - destruct (decide (is_slide n s)); [reflexivity |].
    specialize (IH k). fold (alter (slide_set_active b) k l).
    destruct (list_find _ l) as [[i x] |], (list_find _ (alter _ k l)) as [[i' x'] |];
      cbn in *; congruence.
Qed.

Lemma url_for_slides_after (n : Z) (l : list SlideEl) :
  url_for n (slides_after n l) = url_for n l.
Proof.
  unfold url_for, slides_after.
  pose proof (list_find_clear_slides n l) as Hc.
  assert (Hid : forall l', prod_map id slide_id <$> list_find (is_slide n) l'
                           = prod_map id slide_id <$> list_find (is_slide n) l ->
                match list_find (is_slide n) l' with
                | Some (_, el) =>
                    match slide_id el with
                    | Some id => if truthy_attr (Some id) then Some ("#" +:+ id) else None
                    | None => None
                    end
                | None => None
                end
                = match list_find (is_slide n) l with
                  | Some (_, el) =>
                      match slide_id el with
                      | Some id => if truthy_attr (Some id) then Some ("#" +:+ id) else None
                      | None => None
                      end
                  | None => None
                  end).
  { intros l' H. destruct (list_find _ l') as [[i x] |], (list_find _ l) as [[j y] |];
      cbn in H; try congruence. injection H as _ ->. reflexivity. }
  apply Hid.
  assert (Hclr : prod_map id slide_id <$> list_find (is_slide n) (map (slide_set_active false) l)
                 = prod_map id slide_id <$> list_find (is_slide n) l).
  { rewrite Hc. destruct (list_find _ l) as [[j y] |]; reflexivity. }
  destruct (list_find (is_slide n) (map (slide_set_active false) l)) as [[i x] |] eqn:E.
  - rewrite list_find_alter_slides, E. exact Hclr.
  - rewrite E. exact Hclr.
Qed.

Lemma updateURL_url_for (n : Z) (w : World) :
  updateURL n w
  = match url_for n (slides (doc w)) with
    | Some url => pushState url w
    | None => Returned tt w
    end.
Proof.
  unfold updateURL, url_for, querySlide.
  destruct (list_find (is_slide n) (slides (doc w))) as [[i el] |]; [| reflexivity].
  destruct (slide_id el) as [id |]; [| reflexivity].
  destruct (truthy_attr (Some id)); reflexivity.
Qed.

(** Unfold the field updates down to record constructors. *)
Ltac unfold_updates :=
  unfold emit, with_state, with_doc, with_now, with_timers, with_next_timer_id,
    with_scrollTimeout, with_touch, st_set_currentSlide, st_set_isAnimating,
    st_set_totalSlides, st_set_slideIdMap, doc_set_slides, doc_set_indicators,
    doc_set_prevBtn, doc_set_nextBtn, doc_push_url, doc_set_hash,
    btn_set_disabled, btn_set_aria_disabled, button_for, unlock_timer in *;
  cbn [state doc now timers next_timer_id scrollTimeout touch log
       currentSlide isAnimating totalSlides slideIdMap
       slides indicators prevBtn nextBtn sliderContainer innerWidth
       location_hash history disabled aria_disabled] in *.

(** Run the monadic primitives and the field updates on a world given by its
    fields, leaving the list and number operations folded. *)
Ltac run_world :=
  lazy beta iota zeta delta
    [bind ret mutate set_isAnimating removeActiveSlides removeActiveIndicators
     addActiveSlide addActiveIndicator set_currentSlide updateNavigationButtons
     updateAriaAttributes setTimeout clearTimeout pushState set_disabled
     set_aria_disabled
     querySlide queryIndicator
     emit with_state with_doc with_now with_timers with_next_timer_id
     with_scrollTimeout with_touch with_log
     st_set_currentSlide st_set_isAnimating st_set_totalSlides st_set_slideIdMap
     doc_set_slides doc_set_indicators doc_set_prevBtn doc_set_nextBtn
     doc_push_url doc_set_hash btn_set_disabled btn_set_aria_disabled
     button_for unlock_timer
     state doc now timers next_timer_id scrollTimeout touch log
     currentSlide isAnimating totalSlides slideIdMap
     slides indicators prevBtn nextBtn sliderContainer innerWidth
     location_hash history disabled aria_disabled
     default from_option id fst snd].

(** The three lookups of an accepted call, on the lists as the call finds
    them. *)
Lemma accepted_lookups (n : Z) (sl : list SlideEl) (ind : list IndicatorEl) :
  exists os oi,
    list_find (is_slide n) sl = os
    /\ list_find (is_indicator n) ind = oi
    /\ list_find (is_slide n) (map (slide_set_active false) sl)
       = prod_map id (slide_set_active false) <$> os
    /\ list_find (is_indicator n) (map (ind_set_active false) ind)
       = prod_map id (ind_set_active false) <$> oi
    /\ url_for n (match os with
                  | Some (i, _) =>
                      alter (slide_set_active true) i (map (slide_set_active false) sl)
                  | None => map (slide_set_active false) sl
                  end) = url_for n sl.
Proof.
  exists (list_find (is_slide n) sl), (list_find (is_indicator n) ind).
  split; [reflexivity |]. split; [reflexivity |].
  split; [apply list_find_clear_slides |].
  split; [apply list_find_clear_indicators |].
  pose proof (url_for_slides_after n sl) as H. unfold slides_after in H.
  rewrite list_find_clear_slides in H.
  destruct (list_find (is_slide n) sl) as [[i x] |]; exact H.
Qed.

Lemma goToSlide_accepted (n : Z) (w : World) (p q : ButtonEl) :
  isAnimating (state w) = false ->
  1 <= n <= totalSlides (state w) ->
  prevBtn (doc w) = Some p ->
  nextBtn (doc w) = Some q ->
  goToSlide n w = Returned tt (after_goToSlide n w).
Proof.
  intros Hanim Hn Hp Hq.
  unfold goToSlide. rewrite Hanim, (proj2 (isValidSlideNumber_spec n (state w)) Hn).
  cbn [orb negb].
  destruct (accepted_lookups n (slides (doc w)) (indicators (doc w)))
    as (os & oi & Hos & Hoi & Hcs & Hci & Hurl).
  unfold after_goToSlide, goToSlide_effects, slides_after, indicators_after.
  rewrite Hcs, Hci, Hos, Hoi.
  destruct w as [st d t tm nid sc tv lg]. destruct d as [sl ind pb nb cont iw lh hist].
  destruct st as [cur anim tot idmap].
  cbn [state doc slides indicators prevBtn nextBtn location_hash history
       now timers next_timer_id log totalSlides isAnimating] in *.
  subst pb nb. clear Hos Hoi.
  run_world. rewrite Hcs.
  destruct os as [[i x] |]; cbn [fmap option_fmap option_map prod_map id];
    run_world; rewrite Hci;
    destruct oi as [[j y] |]; cbn [fmap option_fmap option_map prod_map id];
    run_world; rewrite updateURL_url_for; run_world; rewrite Hurl;
    destruct (url_for n sl) as [url |]; run_world;
    rewrite <- ?app_assoc; reflexivity.
Qed.

(** ** Every listener moves the page through [goToSlide] only *)

Lemma earliest_In (l : list Timer) (tm : Timer) :
  earliest l = Some tm -> tm ∈ l.
Proof.
  revert tm. induction l as [| x l IH]; intros tm; cbn [earliest]; [discriminate |].
  destruct (earliest l) as [t' |].
  - destruct (timer_due t' <? timer_due x); intros [= <-].
    + right. now apply IH.
    + left.
  - intros [= <-]. left.
Qed.

Lemma next_due_In (t : Z) (l : list Timer) (tm : Timer) :
  next_due t l = Some tm -> tm ∈ l /\ timer_due tm <= t.
Proof.
  unfold next_due. destruct (earliest l) as [x |] eqn:E; [| discriminate].
  destruct (Z.leb_spec (timer_due x) t); [| discriminate].
  intros [= <-]. split; [now apply earliest_In | assumption].
Qed.

Lemma unlock_timers_filter (P : Timer -> Prop) `{!forall x, Decision (P x)}
    (l : list Timer) :
  sublist (filter is_unlock (filter P l)) (filter is_unlock l).
Proof.
  induction l as [| x l IH]; [constructor |].
  rewrite (filter_cons is_unlock x l), (filter_cons P x l).
  destruct (decide (P x)) as [HP | HP], (decide (is_unlock x)) as [Hu | Hu].
  - rewrite filter_cons, decide_True by exact Hu. now constructor.
  - rewrite filter_cons, decide_False by exact Hu. exact IH.
  - now constructor.
  - exact IH.
Qed.

Lemma unlock_timers_snoc_wheel (l : list Timer) (id : nat) (due deltaY : Z) :
  filter is_unlock
    (l ++ [{| timer_id := id; timer_due := due; timer_cb := CbWheel deltaY |}])
  = filter is_unlock l.
Proof.
  rewrite filter_app. cbn. rewrite decide_False by (unfold is_unlock; cbn; discriminate).
  apply app_nil_r.
Qed.

Lemma page_steps_refl (w : World) : page_steps w w.
Proof. apply rtc_refl. Qed.

Lemma page_steps_quiet (w w' : World) :
  page_view w' = page_view w ->
  isAnimating (state w') = isAnimating (state w) ->
  sublist (unlock_timers w') (unlock_timers w) ->
  (timers_fresh w -> timers_fresh w') ->
  page_steps w w'.
Proof. intros H1 H2 H3 H4. apply rtc_once. now apply step_quiet. Qed.

Lemma fresh_list_filter (P : Timer -> Prop) `{!forall x, Decision (P x)}
    (next : nat) (l : list Timer) :
  fresh_list next l -> fresh_list next (filter P l).
Proof.
  intros [Hnd Hlt]. split.
  - induction l as [| x l IH]; [constructor |].
    cbn in Hnd. apply NoDup_cons in Hnd as [Hx Hnd].
    apply Forall_cons in Hlt as [_ Hlt].
    rewrite filter_cons. destruct (decide (P x)); [| now apply IH].
    cbn. apply NoDup_cons. split; [| now apply IH].
    intros Hin. apply Hx. apply list_elem_of_fmap in Hin as (y & -> & Hy).
    apply list_elem_of_filter in Hy as [_ Hy]. now apply list_elem_of_fmap_2.
  - apply Forall_forall. intros x Hx. apply list_elem_of_filter in Hx as [_ Hx].
    revert x Hx. now apply Forall_forall.
Qed.

Lemma fresh_list_snoc (next : nat) (l : list Timer) (due : Z) (cb : Callback) :
  fresh_list next l ->
  fresh_list (S next)
    (l ++ [{| timer_id := next; timer_due := due; timer_cb := cb |}]).
Proof.
  intros [Hnd Hlt]. split.
  - rewrite fmap_app. apply NoDup_app. split; [exact Hnd |]. split.
    + intros x Hx Hin. cbn in Hin. apply list_elem_of_singleton in Hin. subst x.
      apply list_elem_of_fmap in Hx as (y & Hy & Hin).
      rewrite Forall_forall in Hlt. specialize (Hlt y Hin). lia.
    + cbn. apply NoDup_singleton.
  - apply Forall_app. split.
    + eapply Forall_impl; [exact Hlt |]. cbn. intros; lia.
    + apply Forall_singleton. cbn. lia.
Qed.

Lemma page_steps_goToSlide (n : Z) (w : World) :
  page_steps w (world_of (goToSlide n w)).
Proof. apply rtc_once. apply step_goToSlide. Qed.

Lemma page_steps_trans (w1 w2 w3 : World) :
  page_steps w1 w2 -> page_steps w2 w3 -> page_steps w1 w3.
Proof. intros H1 H2. etrans; eassumption. Qed.

(** Closes the side conditions of a quiet step whose world is given by
    field updates. *)
Ltac quiet :=
  apply page_steps_quiet;
  [reflexivity | reflexivity | try reflexivity | try exact (fun H => H)].

Lemma page_steps_goToPreviousSlide (w : World) :
  page_steps w (world_of (goToPreviousSlide w)).
Proof. rewrite goToPreviousSlide_eq. apply page_steps_goToSlide. Qed.

Lemma page_steps_goToNextSlide (w : World) :
  page_steps w (world_of (goToNextSlide w)).
Proof. rewrite goToNextSlide_eq. apply page_steps_goToSlide. Qed.

Lemma page_steps_goToSlideById (id : string) (w : World) :
  page_steps w (world_of (goToSlideById id w)).
Proof.
  unfold goToSlideById. destruct (slideIdMap (state w) !! id) as [n |].
  - destruct (truthy_number n); [apply page_steps_goToSlide | apply page_steps_refl].
  - apply page_steps_refl.
Qed.

Lemma page_steps_indicatorClick (k : nat) (w : World) :
  page_steps w (world_of (indicatorClick k w)).
Proof.
  unfold indicatorClick. destruct (indicators (doc w) !! k) as [el |].
  - destruct (parseInt10 (ind_data el)); [apply page_steps_goToSlide | apply page_steps_refl].
  - apply page_steps_refl.
Qed.

Lemma page_steps_keydownListener (key : string) (w : World) :
  page_steps w (world_of (keydownListener key w)).
Proof.
  unfold keydownListener.
  destruct (_ || _)%bool; [apply page_steps_goToPreviousSlide |].
  destruct (_ || _)%bool; [apply page_steps_goToNextSlide | apply page_steps_refl].
Qed.

Lemma page_steps_handleInitialHash (w : World) :
  page_steps w (world_of (handleInitialHash w)).
Proof.
  unfold handleInitialHash.
  destruct (_ && _)%bool; [apply page_steps_goToSlideById | apply page_steps_refl].
Qed.

Lemma page_steps_fire (tm : Timer) (w : World) :
  tm ∈ timers w -> page_steps w (fire tm w).
Proof.
  intros Hin. destruct (timer_cb tm) as [| deltaY] eqn:Hcb.
  - apply rtc_once. now apply step_release.
  - unfold fire. rewrite Hcb. cbn [run_callback].
    eapply page_steps_trans;
      [| destruct (0 <? deltaY);
         [apply page_steps_goToNextSlide | apply page_steps_goToPreviousSlide]].
    apply page_steps_quiet; [reflexivity | reflexivity | |].
    + apply unlock_timers_filter.
    + apply fresh_list_filter.
Qed.

Lemma page_steps_run_timers (fuel : nat) (t : Z) (w : World) :
  page_steps w (run_timers fuel t w).
Proof.
  revert w. induction fuel as [| fuel IH]; intros w; cbn [run_timers].
  - apply page_steps_refl.
  - destruct (next_due t (timers w)) as [tm |] eqn:Hdue; [| apply page_steps_refl].
    eapply page_steps_trans; [| apply IH].
    apply page_steps_fire. now apply next_due_In in Hdue.
Qed.

Lemma page_steps_advance_to (t : Z) (w : World) :
  page_steps w (advance_to t w).
Proof.
  unfold advance_to. eapply page_steps_trans; [apply page_steps_run_timers |].
  quiet.
Qed.

Lemma page_steps_arm_wheel (deltaY : Z) (w : World) :
  page_steps w
    (world_of ((clearTimeout (scrollTimeout w) ;;
                id <- setTimeout (CbWheel deltaY) scrollThrottle ;
                mutate (with_scrollTimeout (Some id))) w)).
Proof.
  apply page_steps_quiet; [reflexivity | reflexivity | |].
  - unfold unlock_timers. cbn. rewrite unlock_timers_snoc_wheel.
    apply unlock_timers_filter.
  - intros Hfresh. apply fresh_list_snoc. now apply fresh_list_filter.
Qed.

Lemma page_steps_wheel_desktop (deltaY : Z) (w : World) :
  page_steps w (world_of (Script.wheelListener deltaY w)).
Proof.
  unfold Script.wheelListener.
  destruct (innerWidth (doc w) <=? 768); [apply page_steps_refl |].
  match goal with |- context [if ?c then _ else _] => destruct c end;
    [apply page_steps_refl |].
  apply page_steps_arm_wheel.
Qed.

Lemma page_steps_wheel_basic (deltaY : Z) (w : World) :
  page_steps w (world_of (Index.wheelListener deltaY w)).
Proof. apply page_steps_arm_wheel. Qed.

Lemma page_steps_swipe_desktop (a b c d : Z) (w : World) :
  page_steps w (world_of (Script.handleSwipe a b c d w)).
Proof.
  unfold Script.handleSwipe. cbn zeta.
  destruct (_ && _)%bool; [| apply page_steps_refl].
  destruct (0 <? _);
    [apply page_steps_goToNextSlide | apply page_steps_goToPreviousSlide].
Qed.

Lemma page_steps_swipe_basic (a b : Z) (w : World) :
  page_steps w (world_of (Index.handleSwipe a b w)).
Proof.
  unfold Index.handleSwipe. cbn zeta.
  destruct (swipeThreshold <? _); [| apply page_steps_refl].
  destruct (0 <? _);
    [apply page_steps_goToNextSlide | apply page_steps_goToPreviousSlide].
Qed.

Lemma slide_id_alter_scroll (top : Z) (k : nat) (l : list SlideEl) :
  slide_id <$> alter (slide_scroll top) k l = slide_id <$> l
  /\ slide_data <$> alter (slide_scroll top) k l = slide_data <$> l
  /\ slide_active <$> alter (slide_scroll top) k l = slide_active <$> l.
Proof.
  repeat split; apply list_eq; intros i; rewrite !list_lookup_fmap;
    (destruct (decide (i = k)) as [-> |];
     [rewrite list_lookup_alter_eq; destruct (l !! k); reflexivity
     | now rewrite list_lookup_alter_ne]).
Qed.

Lemma page_steps_handle (v : Variant) (i : Input) (w : World) :
  page_steps w (world_of (handle v i w)).
Proof.
  destruct i; cbn [handle].
  - apply page_steps_refl.
  - apply page_steps_goToPreviousSlide.
  - apply page_steps_goToNextSlide.
  - destruct v; [apply page_steps_goToNextSlide | apply page_steps_refl].
  - apply page_steps_indicatorClick.
  - apply page_steps_keydownListener.
  - destruct v; [apply page_steps_wheel_desktop | apply page_steps_wheel_basic].
  - destruct v.
    + unfold Script.touchstartListener.
      destruct (_ || _)%bool; [apply page_steps_refl |]. quiet.
    + quiet.
  - destruct v; [| apply page_steps_refl].
    unfold Script.touchmoveListener.
    destruct (negb _); [| apply page_steps_refl]. quiet.
  - destruct v.
    + unfold Script.touchendListener.
      destruct (negb _); [apply page_steps_refl |].
      unfold bind, mutate.
      eapply page_steps_trans; [| apply page_steps_swipe_desktop]. quiet.
    + unfold Index.touchendListener, bind, mutate.
      eapply page_steps_trans; [| apply page_steps_swipe_basic]. quiet.
  - unfold bind, mutate.
    eapply page_steps_trans; [| apply page_steps_handleInitialHash]. quiet.
  - apply page_steps_handleInitialHash.
  - apply page_steps_goToSlide.
  - apply page_steps_goToSlideById.
  - quiet.
  - apply page_steps_quiet; [| reflexivity | reflexivity | exact (fun H => H)].
    unfold mutate, page_view. cbn.
    destruct (slide_id_alter_scroll top slide (slides (doc w))) as (-> & -> & ->).
    reflexivity.
Qed.

Lemma page_steps_step (v : Variant) (w : World) (ti : Z * Input) :
  page_steps w (step v w ti).
Proof.
  unfold step. eapply page_steps_trans;
    [apply page_steps_advance_to | apply page_steps_handle].
Qed.

(** An invariant of the page view that [goToSlide] keeps holds along every
    run. *)
Lemma page_steps_invariant (Q : PageView -> Prop) :
  (forall n w, Q (page_view w) -> Q (page_view (world_of (goToSlide n w)))) ->
  forall w w', page_steps w w' -> Q (page_view w) -> Q (page_view w').
Proof.
  intros Hgo w w' Hsteps.
  induction Hsteps as [| w1 w2 w3 Hstep _ IH]; [auto |].
  intros HQ. apply IH. destruct Hstep as [n w1 | w1 w2 Hframe _ _ _ | tm w1 _ Hcb].
  - now apply Hgo.
  - now rewrite Hframe.
  - unfold fire. rewrite Hcb. exact HQ.
Qed.

Lemma reachable_invariant (v : Variant) (d : Document) (Q : PageView -> Prop) :
  (forall w, init v (initial_world d) = Returned tt w -> Q (page_view w)) ->
  (forall n w, Q (page_view w) -> Q (page_view (world_of (goToSlide n w)))) ->
  forall w, reachable v d w -> Q (page_view w).
Proof.
  intros Hinit Hgo w Hreach. induction Hreach as [w Hw | w ti _ IH].
  - now apply Hinit.
  - eapply page_steps_invariant; [exact Hgo | apply page_steps_step | exact IH].
Qed.

(** ** Initialisation *)

Lemma init_returned (v : Variant) (d : Document) (w : World) :
  init v (initial_world d) = Returned tt w ->
  is_Some (prevBtn d) /\ is_Some (nextBtn d) /\ w = after_init d.
Proof.
  destruct d as [sl ind pb nb cont iw lh hist].
  unfold init, Script.init, Index.init, Script.setupEventListeners,
    Index.setupEventListeners, cacheElements, createSlideIdMap,
    updateNavigationButtons, initial_world, after_init.
  destruct v, pb as [p |], nb as [q |]; try destruct cont; run_world;
    try discriminate;
    intros [= <-]; (split; [eauto | split; [eauto | reflexivity]]).
Qed.

Lemma init_returns (v : Variant) (d : Document) :
  is_Some (prevBtn d) -> is_Some (nextBtn d) -> sliderContainer d = true ->
  init v (initial_world d) = Returned tt (after_init d).
Proof.
  destruct d as [sl ind pb nb cont iw lh hist].
  cbn [prevBtn nextBtn sliderContainer].
  intros [p ->] [q ->] ->.
  unfold init, Script.init, Index.init, Script.setupEventListeners,
    Index.setupEventListeners, cacheElements, createSlideIdMap,
    updateNavigationButtons, initial_world, after_init.
  destruct v; run_world; reflexivity.
Qed.

(** ** Selecting an element by its position attribute *)

Lemma lookup_position_attrs (len i : nat) :
  (i < len)%nat ->
  position_attrs len !! i = Some (Some (number_toString (Z.of_nat i + 1))).
Proof.
  intros Hi. unfold position_attrs. rewrite list_lookup_fmap, lookup_seq_lt by exact Hi.
  reflexivity.
Qed.

Section Select.
Context {A : Type} (data : A -> option string).

Let selected (n : Z) (x : A) : Prop := data x = Some (number_toString n).

Lemma data_at_position (l : list A) (i : nat) (x : A) :
  data <$> l = position_attrs (length l) ->
  l !! i = Some x ->
  data x = Some (number_toString (Z.of_nat i + 1)).
Proof.
  intros Hl Hx.
  assert (Hi : (i < length l)%nat) by (eapply lookup_lt_Some; exact Hx).
  assert (H : (data <$> l) !! i = Some (data x))
    by (rewrite list_lookup_fmap, Hx; reflexivity).
  rewrite Hl, lookup_position_attrs in H by exact Hi. congruence.
Qed.

(** On a list numbered by position, the selector for [n] finds the element
    at position [n], and no other. *)
Lemma list_find_position `{!forall n x, Decision (selected n x)}
    (n : Z) (l : list A) :
  data <$> l = position_attrs (length l) ->
  1 <= n <= Z.of_nat (length l) ->
  exists x, l !! Z.to_nat (n - 1) = Some x /\
            list_find (selected n) l = Some (Z.to_nat (n - 1), x).
Proof.
  intros Hl Hn.
  destruct (lookup_lt_is_Some_2 l (Z.to_nat (n - 1))) as [x Hx]; [lia |].
  exists x. split; [exact Hx |].
  apply list_find_Some. split; [exact Hx |]. split.
  - unfold selected. rewrite (data_at_position l _ x Hl Hx). do 2 f_equal. lia.
  - intros j y Hy Hj Hsel. unfold selected in Hsel.
    rewrite (data_at_position l _ y Hl Hy) in Hsel.
    injection Hsel as Hsel. apply (inj pretty) in Hsel. lia.
Qed.
End Select.

Lemma only_active_flags_at (n : Z) (len : nat) :
  1 <= n <= Z.of_nat len -> only_active n (flags_at n len).
Proof.
  intros Hn. unfold only_active, flags_at. rewrite length_fmap, length_seq.
  split; [exact Hn |]. intros i b Hi.
  rewrite list_lookup_fmap in Hi.
  destruct (seq 0 len !! i) as [j |] eqn:Hj; [| discriminate].
  apply lookup_seq in Hj as [-> _]. cbn in Hi. injection Hi as <-.
  rewrite Z.eqb_eq. lia.
Qed.

(** Clearing a class everywhere and setting it at position [k] leaves exactly
    the flag of [k]. *)
Lemma flags_after_toggle {A : Type} (act : A -> bool) (clear set : A -> A)
    (n : Z) (l : list A) :
  (forall x, act (clear x) = false) ->
  (forall x, act (set x) = true) ->
  1 <= n <= Z.of_nat (length l) ->
  act <$> alter set (Z.to_nat (n - 1)) (map clear l) = flags_at n (length l).
Proof.
  intros Hclear Hset Hn. apply list_eq. intros i.
  unfold flags_at. rewrite !list_lookup_fmap.
  destruct (decide (i < length l)%nat) as [Hi | Hi].
  - rewrite lookup_seq_lt by exact Hi. cbn.
    destruct (lookup_lt_is_Some_2 l i Hi) as [x Hx].
    destruct (decide (i = Z.to_nat (n - 1))) as [-> | Hne].
    + rewrite list_lookup_alter_eq. change (map clear l) with (clear <$> l).
      rewrite list_lookup_fmap, Hx. cbn. rewrite Hset.
      f_equal. symmetry. apply Z.eqb_eq. lia.
    + rewrite list_lookup_alter_ne by auto. change (map clear l) with (clear <$> l).
      rewrite list_lookup_fmap, Hx. cbn. rewrite Hclear.
      f_equal. symmetry. apply Z.eqb_neq. lia.
  - rewrite lookup_seq_ge by lia.
    rewrite (lookup_ge_None_2 (alter _ _ _)); [reflexivity |].
    rewrite length_alter, length_map. lia.
Qed.

Lemma fmap_alter_same {A B : Type} (f : A -> B) (g : A -> A) (k : nat) (l : list A) :
  (forall x, f (g x) = f x) -> f <$> alter g k l = f <$> l.
Proof.
  intros H. apply list_eq. intros i. rewrite !list_lookup_fmap.
  destruct (decide (i = k)) as [-> | Hne].
  - rewrite list_lookup_alter_eq. destruct (l !! k); cbn; [now rewrite H | reflexivity].
  - now rewrite list_lookup_alter_ne.
Qed.

Lemma fmap_map_same {A B : Type} (f : A -> B) (g : A -> A) (l : list A) :
  (forall x, f (g x) = f x) -> f <$> map g l = f <$> l.
Proof.
  intros H. induction l as [| x l IH]; [reflexivity |].
  cbn. rewrite H. f_equal. exact IH.
Qed.

Lemma fmap_imap_same {A B : Type} (f : A -> B) (g : nat -> A -> A) (l : list A) :
  (forall i x, f (g i x) = f x) -> f <$> imap g l = f <$> l.
Proof.
  intros H. apply list_eq. intros i.
  rewrite !list_lookup_fmap, list_lookup_imap.
  destruct (l !! i); cbn; [now rewrite H | reflexivity].
Qed.

Lemma slides_after_attrs (n : Z) (l : list SlideEl) :
  slide_id <$> slides_after n l = slide_id <$> l
  /\ slide_data <$> slides_after n l = slide_data <$> l.
Proof.
  unfold slides_after. cbn zeta.
  destruct (list_find _ _) as [[i x] |];
    rewrite ?fmap_alter_same by reflexivity;
    rewrite !fmap_map_same by reflexivity; auto.
Qed.

Lemma slides_after_length (n : Z) (l : list SlideEl) :
  length (slides_after n l) = length l.
Proof.
  unfold slides_after. cbn zeta.
  destruct (list_find _ _) as [[i x] |]; rewrite ?length_alter, length_map; reflexivity.
Qed.

Lemma indicators_after_data (n : Z) (l : list IndicatorEl) :
  ind_data <$> indicators_after n l = ind_data <$> l.
Proof.
  unfold indicators_after. cbn zeta. rewrite fmap_imap_same by reflexivity.
  destruct (list_find _ _) as [[i x] |];
    rewrite ?fmap_alter_same by reflexivity;
    rewrite !fmap_map_same by reflexivity; auto.
Qed.

Lemma indicators_after_length (n : Z) (l : list IndicatorEl) :
  length (indicators_after n l) = length l.
Proof.
  unfold indicators_after. cbn zeta. rewrite length_imap.
  destruct (list_find _ _) as [[i x] |]; rewrite ?length_alter, length_map; reflexivity.
Qed.

(** On a page that keeps the contract, the class updates of [goToSlide]
    leave the class on the slide at position [n] and nowhere else. *)
Lemma slides_after_active (n : Z) (l : list SlideEl) :
  slide_data <$> l = position_attrs (length l) ->
  1 <= n <= Z.of_nat (length l) ->
  slide_active <$> slides_after n l = flags_at n (length l).
Proof.
  intros Hl Hn. unfold slides_after. cbn zeta.
  destruct (list_find_position slide_data n (map (slide_set_active false) l))
    as (x & _ & Hfind).
  - rewrite fmap_map_same, length_map by reflexivity. exact Hl.
  - rewrite length_map. exact Hn.
  - unfold is_slide. rewrite Hfind.
    apply flags_after_toggle; auto.
Qed.

Lemma indicators_after_active (n : Z) (l : list IndicatorEl) :
  ind_data <$> l = position_attrs (length l) ->
  1 <= n <= Z.of_nat (length l) ->
  ind_active <$> indicators_after n l = flags_at n (length l).
Proof.
  intros Hl Hn. unfold indicators_after. cbn zeta.
  rewrite fmap_imap_same by reflexivity.
  destruct (list_find_position ind_data n (map (ind_set_active false) l))
    as (x & _ & Hfind).
  - rewrite fmap_map_same, length_map by reflexivity. exact Hl.
  - rewrite length_map. exact Hn.
  - unfold is_indicator. rewrite Hfind.
    apply flags_after_toggle; auto.
Qed.

Lemma url_for_position (n : Z) (l : list SlideEl) (s : SlideEl) :
  slide_data <$> l = position_attrs (length l) ->
  1 <= n <= Z.of_nat (length l) ->
  l !! Z.to_nat (n - 1) = Some s ->
  url_for n l = match slide_id s with
                | Some id => if truthy_attr (Some id) then Some ("#" +:+ id) else None
                | None => None
                end.
Proof.
  intros Hl Hn Hs. unfold url_for.
  destruct (list_find_position slide_data n l Hl Hn) as (x & Hx & Hfind).
  unfold is_slide. rewrite Hfind.
  assert (x = s) as -> by congruence. reflexivity.
Qed.

(** ** The page invariant *)

Lemma fmap_length_eq {A B C : Type} (f : A -> C) (g : B -> C) (l : list A) (l' : list B) :
  f <$> l = g <$> l' -> length l = length l'.
Proof. intros H. apply (f_equal length) in H. now rewrite !length_fmap in H. Qed.

Lemma page_ok_init (v : Variant) (d : Document) (w : World) :
  init v (initial_world d) = Returned tt w -> page_ok d (page_view w).
Proof.
  intros H. apply init_returned in H as (_ & _ & ->).
  split; cbn; try reflexivity.
  - now left.
  - intros _ [Hs Hi]. split; assumption.
Qed.

Lemma page_ok_goToSlide (d : Document) (n : Z) (w : World) :
  page_ok d (page_view w) -> page_ok d (page_view (world_of (goToSlide n w))).
Proof.
  intros Hok.
  destruct (isAnimating (state w) || negb (isValidSlideNumber n (state w))) eqn:Hguard.
  { rewrite goToSlide_guard_true by exact Hguard. exact Hok. }
  apply orb_false_iff in Hguard as [Hanim Hvalid].
  apply negb_false_iff, isValidSlideNumber_spec in Hvalid.
  destruct Hok as [Htot Hmap Hid Hdata Hind Hprev Hnext Hcur Hact]. cbn in *.
  rewrite (goToSlide_accepted n w _ _ Hanim Hvalid Hprev Hnext).
  destruct (slides_after_attrs n (slides (doc w))) as [Hid' Hdata'].
  assert (Hlen : length (slides (doc w)) = length (slides d))
    by (eapply fmap_length_eq; exact Hid).
  split; cbn; try assumption; try reflexivity.
  - now rewrite Hid'.
  - now rewrite Hdata'.
  - now rewrite indicators_after_data.
  - now right.
  - intros Hc H1. destruct Hc as [Hcs Hci _ _].
    assert (Hleni : length (indicators (doc w)) = length (slides d)).
    { apply fmap_length_eq in Hind. rewrite Hind.
      apply (f_equal length) in Hci. unfold position_attrs in Hci.
      now rewrite !length_fmap, length_seq in Hci. }
    split.
    + rewrite slides_after_active; [| rewrite Hdata, Hlen; exact Hcs | lia].
      apply only_active_flags_at. lia.
    + rewrite indicators_after_active; [| rewrite Hind, Hleni; exact Hci | lia].
      apply only_active_flags_at. lia.
Qed.

Lemma reachable_page_ok (v : Variant) (d : Document) (w : World) :
  reachable v d w -> page_ok d (page_view w).
Proof.
  apply (reachable_invariant v d (page_ok d)).
  - apply page_ok_init.
  - apply page_ok_goToSlide.
Qed.

(** ** The navigation buttons *)

(** C9. In every world reachable after [init] has returned, in both
    variants, the two buttons exist, the previous button is disabled and has
    [aria-disabled] equal to ["true"] exactly when [currentSlide] is 1, and
    the next button exactly when [currentSlide] is [totalSlides]; otherwise
    [aria-disabled] is ["false"]. *)
Theorem nav_buttons_mirror_currentSlide (v : Variant) (d : Document) (w : World)
  (Hreach : reachable v d w) :
  exists p q,
    prevBtn (doc w) = Some p /\ nextBtn (doc w) = Some q /\
    (disabled p = true <-> currentSlide (state w) = 1) /\
    (aria_disabled p = Some "true" <-> currentSlide (state w) = 1) /\
    (disabled q = true <-> currentSlide (state w) = totalSlides (state w)) /\
    (aria_disabled q = Some "true" <-> currentSlide (state w) = totalSlides (state w)) /\
    aria_disabled p = Some (bool_toString (disabled p)) /\
    aria_disabled q = Some (bool_toString (disabled q)).
Proof.
  destruct (reachable_page_ok v d w Hreach) as [_ _ _ _ _ Hprev Hnext _ _].
  cbn in Hprev, Hnext.
  exists (button_for (currentSlide (state w) =? 1)),
         (button_for (currentSlide (state w) =? totalSlides (state w))).
  split; [exact Hprev |]. split; [exact Hnext |].
  unfold button_for; cbn.
  rewrite <- !Z.eqb_eq.
  destruct (currentSlide (state w) =? 1),
           (currentSlide (state w) =? totalSlides (state w));
    cbn; intuition congruence.
Qed.

Lemma nav_buttons_mirror_currentSlide_witness :
  reachable Desktop sample_doc (step Desktop (after_init sample_doc) (0, CallGoToSlide 5))
  /\ nextBtn (doc (step Desktop (after_init sample_doc) (0, CallGoToSlide 5)))
     = Some {| disabled := true; aria_disabled := Some "true" |}.
Proof.
  assert (Hreach : reachable Desktop sample_doc
                     (step Desktop (after_init sample_doc) (0, CallGoToSlide 5))).
  { apply reach_step, reach_init. vm_compute. reflexivity. }
  split; [exact Hreach |].
  destruct (nav_buttons_mirror_currentSlide Desktop sample_doc _ Hreach)
    as (p & q & _ & Hq & _ & _ & Hdis & Haria & _).
  rewrite Hq. destruct q as [qd qa]. cbn in Hdis, Haria.
  rewrite (proj2 Hdis), (proj2 Haria); [reflexivity | vm_compute; reflexivity ..].
Defined.

(** ** The sample page keeps the contract *)

Lemma sample_contract : dom_contract sample_doc.
Proof. split; [reflexivity | reflexivity | cbn; eauto | cbn; eauto]. Qed.

Lemma sample_first_active : one_active_at 1 sample_doc.
Proof.
  split.
  - change (slide_active <$> slides sample_doc) with (flags_at 1 5).
    apply only_active_flags_at. lia.
  - change (ind_active <$> indicators sample_doc) with (flags_at 1 5).
    apply only_active_flags_at. lia.
Qed.

(** ** Deep links *)

Lemma truthy_attr_Some (id : string) : truthy_attr (Some id) = true <-> id <> "".
Proof. cbn. rewrite negb_true_iff. apply String.eqb_neq. Qed.

Lemma slideIdMap_from_absent (l : list SlideEl) (index : Z) (m : gmap string Z)
    (id : string) :
  (forall j s, l !! j = Some s -> slide_id s <> Some id) ->
  slideIdMap_from index l m !! id = m !! id.
Proof.
  revert index m. induction l as [| s l IH]; intros index m Habs; [reflexivity |].
  cbn [slideIdMap_from]. rewrite IH by (intros j s'; apply (Habs (S j))).
  pose proof (Habs 0%nat s eq_refl) as Hs.
  destruct (slide_id s) as [id' |]; [| reflexivity].
  destruct (truthy_attr (Some id')); [| reflexivity].
  unfold object_set. destruct (String.eqb id' "__proto__"); [reflexivity |].
  apply lookup_insert_ne. congruence.
Qed.

(** The map sends an identifier to the last slide that carries it. *)
Lemma slideIdMap_from_last (l : list SlideEl) (index : Z) (m : gmap string Z)
    (id : string) (j : nat) (s : SlideEl) :
  l !! j = Some s -> slide_id s = Some id -> id <> "" -> id <> "__proto__" ->
  (forall j' s', (j < j')%nat -> l !! j' = Some s' -> slide_id s' <> Some id) ->
  slideIdMap_from index l m !! id = Some (index + Z.of_nat j + 1).
Proof.
  revert index m j.
  induction l as [| x l IH]; intros index m j Hj Hid Hne Hproto Hlast;
    [discriminate |].
  cbn [slideIdMap_from]. destruct j as [| j].
  - injection Hj as ->. rewrite Hid.
    rewrite (proj2 (truthy_attr_Some id) Hne).
    unfold object_set. rewrite (proj2 (String.eqb_neq id "__proto__") Hproto).
    rewrite slideIdMap_from_absent.
    + rewrite lookup_insert_eq. f_equal. lia.
    + intros j' s' Hs'. apply (Hlast (S j') s'); [lia | exact Hs'].
  - cbn in Hj. rewrite (IH (index + 1) _ j Hj Hid Hne Hproto).
    + f_equal. lia.
    + intros j' s' Hlt Hs'. apply (Hlast (S j') s'); [lia | exact Hs'].
Qed.

(** Every entry of the map is the position of a slide with that identifier. *)
Lemma slideIdMap_from_Some (l : list SlideEl) (index : Z) (m : gmap string Z)
    (id : string) (n : Z) :
  slideIdMap_from index l m !! id = Some n ->
  m !! id = Some n \/
  exists j s, l !! j = Some s /\ slide_id s = Some id /\ id <> ""
              /\ n = index + Z.of_nat j + 1.
Proof.
  revert index m. induction l as [| x l IH]; intros index m H; [now left |].
  cbn [slideIdMap_from] in H. apply IH in H as [H | (j & s & Hj & Hid & Hne & ->)].
  - destruct (slide_id x) as [id' |] eqn:Hx; [| now left].
    destruct (truthy_attr (Some id')) eqn:Ht; [| now left].
    unfold object_set in H. destruct (String.eqb id' "__proto__"); [now left |].
    destruct (decide (id' = id)) as [-> | Hneq].
    + rewrite lookup_insert_eq in H. injection H as <-.
      right. exists 0%nat, x. repeat split; auto.
      * now apply truthy_attr_Some.
      * lia.
    + rewrite lookup_insert_ne in H by exact Hneq. now left.
  - right. exists (S j), s. repeat split; auto. lia.
Qed.

(** The key [__proto__] is never an own property of the map. *)
Lemma slideIdMap_from_proto (l : list SlideEl) (index : Z) (m : gmap string Z) :
  m !! "__proto__" = None -> slideIdMap_from index l m !! "__proto__" = None.
Proof.
  revert index m. induction l as [| x l IH]; intros index m H; [exact H |].
  cbn [slideIdMap_from]. apply IH.
  destruct (slide_id x) as [id' |]; [| exact H].
  destruct (truthy_attr (Some id')); [| exact H].
  unfold object_set. destruct (String.eqb id' "__proto__") eqn:E; [exact H |].
  rewrite lookup_insert_ne; [exact H |]. intros ->. now rewrite String.eqb_refl in E.
Qed.





(** ** The order of the side effects *)

Lemma goToSlide_spec_order_accepted (n : Z) (w : World) (p q : ButtonEl) :
  isAnimating (state w) = false ->
  1 <= n <= totalSlides (state w) ->
  prevBtn (doc w) = Some p ->
  nextBtn (doc w) = Some q ->
  goToSlide_spec_order n w
  = Returned tt (with_log (log w ++ spec_order_effects n w) (after_goToSlide n w)).
Proof.
  intros Hanim Hn Hp Hq.
  unfold goToSlide_spec_order.
  rewrite Hanim, (proj2 (isValidSlideNumber_spec n (state w)) Hn).
  cbn [orb negb].
  destruct (accepted_lookups n (slides (doc w)) (indicators (doc w)))
    as (os & oi & Hos & Hoi & Hcs & Hci & Hurl).
  unfold after_goToSlide, spec_order_effects, slides_after, indicators_after.
  rewrite Hcs, Hci, Hos, Hoi.
  destruct w as [st d t tm nid sc tv lg]. destruct d as [sl ind pb nb cont iw lh hist].
  destruct st as [cur anim tot idmap].
  cbn [state doc slides indicators prevBtn nextBtn location_hash history
       now timers next_timer_id log totalSlides isAnimating] in *.
  subst pb nb. clear Hos Hoi.
  run_world. rewrite Hcs.
  destruct os as [[i x] |]; cbn [fmap option_fmap option_map prod_map id];
    run_world; rewrite Hci;
    destruct oi as [[j y] |]; cbn [fmap option_fmap option_map prod_map id];
    run_world; rewrite updateURL_url_for; run_world; rewrite Hurl;
    destruct (url_for n sl) as [url |]; run_world;
    rewrite <- ?app_assoc; reflexivity.
Qed.

(** What a reachable world of a page that keeps the contract looks like. *)
Lemma reachable_contract (v : Variant) (d : Document) (w : World) :
  dom_contract d -> reachable v d w ->
  slide_data <$> slides (doc w) = position_attrs (length (slides (doc w)))
  /\ ind_data <$> indicators (doc w) = position_attrs (length (indicators (doc w)))
  /\ length (indicators (doc w)) = length (slides (doc w))
  /\ totalSlides (state w) = Z.of_nat (length (slides (doc w)))
  /\ prevBtn (doc w) = Some (button_for (currentSlide (state w) =? 1))
  /\ nextBtn (doc w)
     = Some (button_for (currentSlide (state w) =? totalSlides (state w))).
Proof.
  intros [Hcs Hci _ _] Hreach.
  destruct (reachable_page_ok v d w Hreach)
    as [Htot _ Hids Hdata Hind Hprev Hnext _ _]. cbn in *.
  assert (Hlen : length (slides (doc w)) = length (slides d))
    by (eapply fmap_length_eq; exact Hids).
  assert (Hleni : length (indicators (doc w)) = length (slides d)).
  { apply fmap_length_eq in Hind. rewrite Hind.
    apply (f_equal length) in Hci. unfold position_attrs in Hci.
    now rewrite !length_fmap, length_seq in Hci. }
  repeat split; try assumption.
  - rewrite Hdata, Hlen. exact Hcs.
  - rewrite Hind, Hleni. exact Hci.
  - congruence.
  - congruence.
Qed.

Lemma indicators_after_aria (n : Z) (l : list IndicatorEl) (i : nat) (x : IndicatorEl) :
  indicators_after n l !! i = Some x ->
  ind_aria_selected x = Some (bool_toString (Z.of_nat i + 1 =? n)).
Proof.
  unfold indicators_after. cbn zeta. rewrite list_lookup_imap.
  destruct (_ !! i) as [y |]; [| discriminate].
  cbn. intros [= <-]. reflexivity.
Qed.

(** The claim of C3 fails as it is worded: on the sample page the log of
    [goToSlide 2] starts with the lock, while the order of the specification
    starts with the two class removals and takes the lock in sixth place. *)
Lemma goToSlide_order_counterexample :
  isAnimating (state (after_init sample_doc)) = false
  /\ 1 <= 2 <= totalSlides (state (after_init sample_doc))
  /\ skipn 4 (log (world_of (goToSlide 2 (after_init sample_doc))))
     = [SetIsAnimating true; RemoveActiveSlides; RemoveActiveIndicators;
        AddActiveSlide 2; AddActiveIndicator 2; SetCurrentSlide 2;
        SetDisabled Prev false; SetDisabled Next false;
        SetAriaDisabled Prev "false"; SetAriaDisabled Next "false";
        SetAriaSelected 2; PushState "#s2"; SetTimeout 1 CbUnlock 600]
  /\ skipn 4 (log (world_of (goToSlide_spec_order 2 (after_init sample_doc))))
     = [RemoveActiveSlides; RemoveActiveIndicators;
        AddActiveSlide 2; AddActiveIndicator 2; SetCurrentSlide 2;
        SetIsAnimating true;
        SetDisabled Prev false; SetDisabled Next false;
        SetAriaDisabled Prev "false"; SetAriaDisabled Next "false";
        SetAriaSelected 2; PushState "#s2"; SetTimeout 1 CbUnlock 600]
  /\ goToSlide 2 (after_init sample_doc)
     <> goToSlide_spec_order 2 (after_init sample_doc).
Proof.
  split; [reflexivity |]. split; [vm_compute; split; discriminate |].
  split; [vm_compute; reflexivity |]. split; [vm_compute; reflexivity |].
  intros H. apply (f_equal (fun o => nth_error (log (world_of o)) 4)) in H.
  vm_compute in H. discriminate.
Qed.

(** An accepted call on a page that keeps the contract: the world it
    returns, the slide it targets, its side effects and the URL it pushes. *)
Lemma accepted_on_contract (v : Variant) (d : Document) (w : World) (n : Z) :
  dom_contract d -> reachable v d w ->
  isAnimating (state w) = false ->
  1 <= n <= totalSlides (state w) ->
  exists target,
    goToSlide n w = Returned tt (after_goToSlide n w)
    /\ slides (doc w) !! Z.to_nat (n - 1) = Some target
    /\ url_for n (slides (doc w))
       = match slide_id target with
         | Some id => if truthy_attr (Some id) then Some ("#" +:+ id) else None
         | None => None
         end
    /\ goToSlide_effects n w
       = [SetIsAnimating true; RemoveActiveSlides; RemoveActiveIndicators;
          AddActiveSlide n; AddActiveIndicator n; SetCurrentSlide n;
          SetDisabled Prev (n =? 1);
          SetDisabled Next (n =? totalSlides (state w));
          SetAriaDisabled Prev (bool_toString (n =? 1));
          SetAriaDisabled Next (bool_toString (n =? totalSlides (state w)));
          SetAriaSelected n]
         ++ match url_for n (slides (doc w)) with
            | Some url => [PushState url]
            | None => []
            end
         ++ [SetTimeout (next_timer_id w) CbUnlock 600]
    /\ one_active_at n (doc (after_goToSlide n w))
    /\ goToSlide_spec_order n w
       = Returned tt (with_log (log w ++ spec_order_effects n w) (after_goToSlide n w)).
Proof.
  intros Hcontract Hreach Hanim Hn.
  destruct (reachable_contract v d w Hcontract Hreach)
    as (Hdata & Hind & Hleni & Htot & Hprev & Hnext).
  destruct (list_find_position slide_data n (slides (doc w)) Hdata ltac:(lia))
    as (target & Htarget & Hfind).
  destruct (list_find_position ind_data n (indicators (doc w)) Hind ltac:(lia))
    as (ti & _ & Hfindi).
  exists target.
  split; [exact (goToSlide_accepted n w _ _ Hanim Hn Hprev Hnext) |].
  split; [exact Htarget |].
  split; [apply url_for_position; [exact Hdata | lia | exact Htarget] |].
  split.
  { unfold goToSlide_effects, is_slide, is_indicator.
    rewrite Hfind, Hfindi. reflexivity. }
  split.
  { split; cbn [after_goToSlide doc slides indicators].
    - rewrite slides_after_active by (auto; lia). apply only_active_flags_at. lia.
    - rewrite indicators_after_active by (auto; lia). apply only_active_flags_at. lia. }
  exact (goToSlide_spec_order_accepted n w _ _ Hanim Hn Hprev Hnext).
Qed.

(** C3, amended. On a page that keeps the contract, an accepted
    [goToSlide n] performs, in this order: it takes the lock, clears the
    active class from all slides and all indicators, sets it on the slide and
    on the indicator at position [n], sets [currentSlide], updates the
    disabled state of the two buttons, updates [aria-selected] on the
    indicators, pushes the fragment of the target slide's identifier when it
    has a non-empty one, and schedules the release of the lock 600 ms later.
    Apart from the place of the lock in the log, the resulting world is the
    one the order of the specification yields. *)
Theorem goToSlide_steps (v : Variant) (d : Document) (w : World) (n : Z)
  (Hcontract : dom_contract d)
  (Hreach : reachable v d w)
  (Hanim : isAnimating (state w) = false)
  (Hn : 1 <= n <= totalSlides (state w)) :
  exists w' target,
    goToSlide n w = Returned tt w'
    /\ slides (doc w) !! Z.to_nat (n - 1) = Some target
    /\ log w' =
       log w
       ++ [SetIsAnimating true; RemoveActiveSlides; RemoveActiveIndicators;
           AddActiveSlide n; AddActiveIndicator n; SetCurrentSlide n;
           SetDisabled Prev (n =? 1);
           SetDisabled Next (n =? totalSlides (state w));
           SetAriaDisabled Prev (bool_toString (n =? 1));
           SetAriaDisabled Next (bool_toString (n =? totalSlides (state w)));
           SetAriaSelected n]
       ++ match slide_id target with
          | Some id => if truthy_attr (Some id) then [PushState ("#" +:+ id)] else []
          | None => []
          end
       ++ [SetTimeout (next_timer_id w) CbUnlock 600]
    /\ one_active_at n (doc w')
    /\ currentSlide (state w') = n
    /\ isAnimating (state w') = true
    /\ prevBtn (doc w') = Some (button_for (n =? 1))
    /\ nextBtn (doc w') = Some (button_for (n =? totalSlides (state w)))
    /\ (forall i x, indicators (doc w') !! i = Some x ->
                    ind_aria_selected x = Some (bool_toString (Z.of_nat i + 1 =? n)))
    /\ location_hash (doc w')
       = match slide_id target with
         | Some id => if truthy_attr (Some id) then "#" +:+ id else location_hash (doc w)
         | None => location_hash (doc w)
         end
    /\ timers w'
       = timers w ++ [{| timer_id := next_timer_id w; timer_due := now w + 600;
                         timer_cb := CbUnlock |}]
    /\ goToSlide_spec_order n w
       = Returned tt (with_log (log w ++ spec_order_effects n w) w').
Proof.
  destruct (accepted_on_contract v d w n Hcontract Hreach Hanim Hn)
    as (target & Heq & Htarget & Hurl & Heffects & Hone & Hspec).
  exists (after_goToSlide n w), target.
  split; [exact Heq |]. split; [exact Htarget |].
  split.
  { cbn [after_goToSlide log]. rewrite Heffects, Hurl.
    destruct (slide_id target) as [id |]; [destruct (truthy_attr (Some id)) |];
      reflexivity. }
  split; [exact Hone |].
  split; [reflexivity |]. split; [reflexivity |].
  split; [reflexivity |]. split; [reflexivity |].
  split; [intros i x; apply indicators_after_aria |].
  split.
  { cbn [after_goToSlide doc location_hash]. rewrite Hurl.
    destruct (slide_id target) as [id |]; [destruct (truthy_attr (Some id)) |];
      reflexivity. }
  split; [reflexivity | exact Hspec].
Qed.

Lemma goToSlide_steps_witness :
  dom_contract sample_doc
  /\ reachable Desktop sample_doc (after_init sample_doc)
  /\ isAnimating (state (after_init sample_doc)) = false
  /\ 1 <= 2 <= totalSlides (state (after_init sample_doc))
  /\ exists w', goToSlide 2 (after_init sample_doc) = Returned tt w'
                /\ currentSlide (state w') = 2.
Proof.
  assert (Hreach : reachable Desktop sample_doc (after_init sample_doc)).
  { apply reach_init. vm_compute. reflexivity. }
  assert (Hn : 1 <= 2 <= totalSlides (state (after_init sample_doc)))
    by (vm_compute; split; discriminate).
  split; [exact sample_contract |]. split; [exact Hreach |].
  split; [reflexivity |]. split; [exact Hn |].
  destruct (goToSlide_steps Desktop sample_doc (after_init sample_doc) 2
              sample_contract Hreach eq_refl Hn)
    as (w' & target & Heq & _ & _ & _ & Hcur & _).
  exists w'. split; [exact Heq | exact Hcur].
Defined.

(** ** Exactly one active slide *)

(** ** The lock and its timer *)

Lemma unlock_timers_after_goToSlide (n : Z) (w : World) :
  unlock_timers (after_goToSlide n w) = unlock_timers w ++ [unlock_timer w].
Proof.
  unfold unlock_timers. cbn [after_goToSlide timers]. rewrite filter_app. cbn.
  rewrite decide_True by reflexivity. reflexivity.
Qed.

Lemma unlock_timers_after_release (tm : Timer) (l : list Timer) :
  tm ∈ l -> is_unlock tm -> (length (filter is_unlock l) <= 1)%nat ->
  filter is_unlock (filter (fun x => timer_id x <> timer_id tm) l) = [].
Proof.
  intros Hin Hun Hlen.
  assert (Hone : filter is_unlock l = [tm]).
  { assert (Htm : tm ∈ filter is_unlock l) by (apply list_elem_of_filter; auto).
    destruct (filter is_unlock l) as [| x [| y rest]]; cbn in Hlen; try lia.
    - inversion Htm.
    - apply list_elem_of_singleton in Htm. now subst. }
  rewrite list_filter_filter.
  rewrite (list_filter_iff _ (fun x => (timer_id x <> timer_id tm) /\ is_unlock x))
    by (intros; tauto).
  rewrite <- list_filter_filter, Hone. cbn.
  rewrite decide_False by (intros H; now apply H). reflexivity.
Qed.

Lemma page_step_lock_ok (d : Document) (w w' : World) :
  page_step w w' -> page_ok d (page_view w) -> lock_ok w -> lock_ok w'.
Proof.
  intros Hstep Hok [Hlen Hfree].
  destruct Hstep as [n w | w w' _ Hanim Hsub _ | tm w Hin Hcb].
  - destruct (isAnimating (state w) || negb (isValidSlideNumber n (state w)))
      eqn:Hguard.
    { rewrite goToSlide_guard_true by exact Hguard. now split. }
    apply orb_false_iff in Hguard as [Hanim Hvalid].
    apply negb_false_iff, isValidSlideNumber_spec in Hvalid.
    destruct Hok as [_ _ _ _ _ Hprev Hnext _ _]. cbn in Hprev, Hnext.
    rewrite (goToSlide_accepted n w _ _ Hanim Hvalid Hprev Hnext). cbn [world_of].
    unfold lock_ok.
    rewrite unlock_timers_after_goToSlide, (Hfree Hanim). split.
    + cbn. lia.
    + cbn. discriminate.
  - split.
    + apply sublist_length in Hsub. lia.
    + rewrite Hanim. intros H. rewrite (Hfree H) in Hsub.
      now apply sublist_nil_r in Hsub.
  - assert (Hnil : unlock_timers (fire tm w) = []).
    { unfold fire. rewrite Hcb. unfold unlock_timers. cbn.
      apply unlock_timers_after_release; assumption. }
    unfold lock_ok. rewrite Hnil. split; [cbn; lia | reflexivity].
Qed.

Lemma page_steps_lock_ok (d : Document) (w w' : World) :
  page_steps w w' -> page_ok d (page_view w) -> lock_ok w ->
  page_ok d (page_view w') /\ lock_ok w'.
Proof.
  intros Hsteps. induction Hsteps as [| w1 w2 w3 Hstep _ IH]; [auto |].
  intros Hok Hlock. apply IH.
  - apply (page_steps_invariant (page_ok d) (page_ok_goToSlide d) w1 w2);
      [now apply rtc_once | exact Hok].
  - eapply page_step_lock_ok; eassumption.
Qed.

Lemma reachable_lock_ok (v : Variant) (d : Document) (w : World) :
  reachable v d w -> lock_ok w.
Proof.
  intros Hreach.
  enough (page_ok d (page_view w) /\ lock_ok w) by tauto.
  induction Hreach as [w Hw | w ti _ [IHok IHlock]].
  - split; [eapply page_ok_init; exact Hw |].
    apply init_returned in Hw as (_ & _ & ->).
    split; [cbn; lia | reflexivity].
  - eapply page_steps_lock_ok; [apply page_steps_step | exact IHok | exact IHlock].
Qed.

(** While the lock is held and no release is due by [t], the timers that run
    until [t] are wheel callbacks, which [goToSlide] drops. *)
Lemma locked_run_timers (fuel : nat) (t : Z) (w : World) :
  isAnimating (state w) = true ->
  (forall tm, tm ∈ timers w -> is_unlock tm -> t < timer_due tm) ->
  isAnimating (state (run_timers fuel t w)) = true
  /\ page_view (run_timers fuel t w) = page_view w
  /\ (forall tm, tm ∈ timers (run_timers fuel t w) -> tm ∈ timers w).
Proof.
  revert w. induction fuel as [| fuel IH]; intros w Hanim Hlate; cbn [run_timers];
    [auto |].
  destruct (next_due t (timers w)) as [tm |] eqn:Hdue; [| auto].
  apply next_due_In in Hdue as [Hin Hle].
  destruct (timer_cb tm) as [| deltaY] eqn:Hcb.
  { specialize (Hlate tm Hin Hcb). lia. }
  set (w1 := emit (TimerFired (timer_id tm) (CbWheel deltaY))
               (with_timers (filter (fun x => timer_id x <> timer_id tm))
                  (with_now (Z.max (now w) (timer_due tm)) w))).
  assert (Hfire : fire tm w = w1).
  { unfold fire. rewrite Hcb. cbn [run_callback]. fold w1.
    destruct (0 <? deltaY).
    - rewrite goToNextSlide_eq, goToSlide_locked by exact Hanim. reflexivity.
    - rewrite goToPreviousSlide_eq, goToSlide_locked by exact Hanim. reflexivity. }
  rewrite Hfire.
  assert (Hsub : forall x, x ∈ timers w1 -> x ∈ timers w).
  { intros x Hx. cbn in Hx. now apply list_elem_of_filter in Hx. }
  destruct (IH w1) as (H1 & H2 & H3); [exact Hanim | auto |].
  split; [exact H1 |]. split; [rewrite H2; reflexivity | auto].
Qed.

Lemma only_active_unique (n : Z) (flags : list bool) :
  only_active n flags -> flags = flags_at n (length flags).
Proof.
  intros [_ H]. apply list_eq. intros i. unfold flags_at.
  rewrite list_lookup_fmap.
  destruct (flags !! i) as [b |] eqn:Hb.
  - rewrite lookup_seq_lt by (eapply lookup_lt_Some; exact Hb). cbn. f_equal.
    specialize (H i b Hb). destruct b, (Z.eqb_spec (Z.of_nat i + 1) n); intuition.
  - rewrite lookup_seq_ge by (now apply lookup_ge_None). reflexivity.
Qed.

(** ** The wheel listener of the desktop variant *)

Lemma arm_wheel_eq (deltaY : Z) (w : World) :
  (clearTimeout (scrollTimeout w) ;;
   id <- setTimeout (CbWheel deltaY) scrollThrottle ;
   mutate (with_scrollTimeout (Some id))) w
  = Returned tt (after_wheel deltaY w).
Proof.
  unfold after_wheel. destruct w as [st d t tm nid sc tv lg]. run_world.
  rewrite <- app_assoc. reflexivity.
Qed.

Lemma wheel_basic_eq (deltaY : Z) (w : World) :
  Index.wheelListener deltaY w = Returned tt (after_wheel deltaY w).
Proof. apply arm_wheel_eq. Qed.

(** The desktop listener, by cases on its three guards. *)
Lemma wheel_desktop_eq (deltaY : Z) (w : World) :
  Script.wheelListener deltaY w
  = if innerWidth (doc w) <=? 768 then Returned tt w
    else match active_content (doc w) with
         | Some c =>
             if ((0 <? deltaY)
                 && negb (scrollHeight c - 800 <=? scrollTop c + clientHeight c))
                || ((deltaY <? 0) && negb (scrollTop c <=? 800))
             then Returned tt w
             else Returned tt (after_wheel deltaY w)
         | None => Returned tt (after_wheel deltaY w)
         end.
Proof.
  unfold Script.wheelListener, active_content, Script.SCROLL_SAFEZONE.
  destruct (innerWidth (doc w) <=? 768); [reflexivity |].
  destruct (list_find _ (slides (doc w))) as [[i s] |]; cbn zeta.
  - destruct (slide_content s) as [c |]; [| apply arm_wheel_eq].
    destruct (_ || _)%bool; [reflexivity | apply arm_wheel_eq].
  - apply arm_wheel_eq.
Qed.




(** ** Touches on the controls *)

(** What the guard of the [touchstart] listener does achieve: on the
    navigation controls or the indicators the listener returns with the
    world, and so the start coordinates and [isSwiping], as they were. *)
Lemma touchstart_on_controls_ignored (e : TouchEvent) (w : World) :
  target_in_navigation e = true \/ target_in_indicators e = true ->
  Script.touchstartListener e w = Returned tt w.
Proof.
  intros H. unfold Script.touchstartListener.
  destruct H as [-> | ->]; [reflexivity | now rewrite orb_true_r].
Qed.

(** C8, the code at the failing input. The sample page shows its second slide
    with the lock free and the touch variables as [init] left them. A touch
    starts on the navigation controls at (500, 30): the listener records
    nothing. The finger moves, which sets [isSwiping], and lifts at the same
    place: [touchend] calls [handleSwipe] with the stale start (0, 0), a
    horizontal displacement of 500 px, and the page goes to the previous
    slide. *)
Theorem touch_on_navigation_swipes :
  currentSlide (state on_second_slide) = 2
  /\ isAnimating (state on_second_slide) = false
  /\ touch on_second_slide
     = {| touchStartX := 0; touchStartY := 0; touchEndX := 0; touchEndY := 0;
          isSwiping := false |}
  /\ Script.touchstartListener nav_touch on_second_slide = Returned tt on_second_slide
  /\ currentSlide
       (state (run Desktop [(710, TouchStart nav_touch); (720, TouchMove);
                            (730, TouchEnd nav_touch)] on_second_slide)) = 1
  /\ last (log (run Desktop [(710, TouchStart nav_touch); (720, TouchMove)]
                  on_second_slide))
     = Some (SetIsAnimating false)
  /\ In (SetCurrentSlide 1)
        (log (run Desktop [(710, TouchStart nav_touch); (720, TouchMove);
                           (730, TouchEnd nav_touch)] on_second_slide)).
Proof.
  split; [vm_compute; reflexivity |]. split; [vm_compute; reflexivity |].
  split; [vm_compute; reflexivity |].
  split; [apply touchstart_on_controls_ignored; now left |].
  split; [vm_compute; reflexivity |]. split; [vm_compute; reflexivity |].
  vm_compute. tauto.
Qed.

(** ** The debounce of the wheel *)

Lemma handle_wheel_eq (v : Variant) (deltaY : Z) (w : World) :
  handle v (Wheel deltaY) w
  = Returned tt (if wheel_accepts v deltaY (doc w) then after_wheel deltaY w else w).
Proof.
  destruct v; cbn [handle wheel_accepts]; [| apply wheel_basic_eq].
  rewrite wheel_desktop_eq.
  destruct (innerWidth (doc w) <=? 768); [reflexivity |]. cbn [negb andb].
  destruct (active_content (doc w)) as [c |]; [| reflexivity].
  destruct (_ || _)%bool; reflexivity.
Qed.

Lemma timer_id_inj (l : list Timer) (x y : Timer) :
  NoDup (timer_id <$> l) -> x ∈ l -> y ∈ l -> timer_id x = timer_id y -> x = y.
Proof.
  induction l as [| z l IH]; intros Hnd Hx Hy Heq; [inversion Hx |].
  cbn in Hnd. apply NoDup_cons in Hnd as [Hz Hnd].
  apply elem_of_cons in Hx as [-> | Hx], Hy as [-> | Hy]; auto.
  - exfalso. apply Hz. rewrite Heq. now apply list_elem_of_fmap_2.
  - exfalso. apply Hz. rewrite <- Heq. now apply list_elem_of_fmap_2.
Qed.

(** Removing a timer that is not a wheel callback, by its identifier, keeps
    the wheel callbacks. *)
Lemma wheel_timers_remove_other (l : list Timer) (tm : Timer) :
  NoDup (timer_id <$> l) -> tm ∈ l -> ~ is_wheel tm ->
  filter is_wheel (filter (fun x => timer_id x <> timer_id tm) l) = filter is_wheel l.
Proof.
  intros Hnd Hin Hnw.
  assert (Hkeep : forall x, x ∈ l -> is_wheel x -> timer_id x <> timer_id tm).
  { intros x Hx Hw Heq.
    assert (x = tm) by (eapply timer_id_inj; eassumption). now subst. }
  clear Hnd Hin Hnw. induction l as [| x l IH]; [reflexivity |].
  rewrite (filter_cons is_wheel x l), (filter_cons _ x l).
  assert (IH' : filter is_wheel (filter (fun x => timer_id x <> timer_id tm) l)
                = filter is_wheel l)
    by (apply IH; intros y Hy; apply Hkeep; now right).
  destruct (decide (is_wheel x)) as [Hw | Hw].
  - rewrite decide_True by (apply Hkeep; [left | exact Hw]).
    rewrite filter_cons, decide_True by exact Hw. now f_equal.
  - destruct (decide (timer_id x <> timer_id tm)); [| exact IH'].
    rewrite filter_cons, decide_False by exact Hw. exact IH'.
Qed.

(** Removing the one pending wheel callback leaves none. *)
Lemma wheel_timers_remove_self (l : list Timer) (tm : Timer) :
  filter is_wheel l = [tm] ->
  filter is_wheel (filter (fun x => timer_id x <> timer_id tm) l) = [].
Proof.
  intros Hone. rewrite list_filter_filter.
  rewrite (list_filter_iff _ (fun x => (timer_id x <> timer_id tm) /\ is_wheel x))
    by (intros; tauto).
  rewrite <- list_filter_filter, Hone. cbn.
  rewrite decide_False by (intros H; now apply H). reflexivity.
Qed.

Lemma timer_budget_remove (l : list Timer) (tm : Timer) :
  tm ∈ l ->
  (timer_budget (filter (fun x => timer_id x <> timer_id tm) l) + timer_weight tm
   <= timer_budget l)%nat.
Proof.
  induction l as [| x l IH]; intros Hin; [inversion Hin |].
  rewrite filter_cons. cbn [timer_budget fold_right]. fold (timer_budget l).
  destruct (decide (timer_id x <> timer_id tm)) as [Hne | Heq].
  - cbn [timer_budget fold_right].
    fold (timer_budget (filter (fun x => timer_id x <> timer_id tm) l)).
    apply elem_of_cons in Hin as [-> | Hin]; [now contradiction Hne |].
    specialize (IH Hin). lia.
  - apply elem_of_cons in Hin as [-> | Hin]; [| specialize (IH Hin); lia].
    assert (timer_budget (filter (fun x0 => timer_id x0 <> timer_id x) l)
            <= timer_budget l)%nat; [| lia].
    clear. induction l as [| y l IH]; [cbn; lia |].
    rewrite filter_cons. destruct (decide _); cbn [timer_budget fold_right];
      fold (timer_budget l);
      fold (timer_budget (filter (fun x0 => timer_id x0 <> timer_id x) l)); lia.
Qed.

Lemma timer_budget_snoc (l : list Timer) (tm : Timer) :
  timer_budget (l ++ [tm]) = (timer_budget l + timer_weight tm)%nat.
Proof.
  induction l as [| x l IH]; cbn [timer_budget fold_right app]; [lia |].
  fold (timer_budget (l ++ [tm])). fold (timer_budget l). lia.
Qed.

Lemma earliest_min (l : list Timer) (e : Timer) :
  earliest l = Some e -> forall x, x ∈ l -> timer_due e <= timer_due x.
Proof.
  revert e. induction l as [| y l IH]; intros e He x Hx; [inversion Hx |].
  cbn [earliest] in He. destruct (earliest l) as [e' |] eqn:E.
  - specialize (IH e' eq_refl).
    destruct (Z.ltb_spec (timer_due e') (timer_due y)); injection He as <-;
      apply elem_of_cons in Hx as [-> | Hx]; try lia.
    + now apply IH.
    + specialize (IH x Hx). lia.
  - injection He as <-. destruct l as [| z l]; [| cbn in E; destruct (earliest l);
      [destruct (_ <? _) |]; discriminate].
    apply elem_of_cons in Hx as [-> | Hx]; [lia | inversion Hx].
Qed.

Lemma next_due_exists (t : Z) (l : list Timer) (tm : Timer) :
  tm ∈ l -> timer_due tm <= t -> exists tm', next_due t l = Some tm'.
Proof.
  intros Hin Hdue. unfold next_due.
  destruct (earliest l) as [e |] eqn:E.
  - pose proof (earliest_min l e E tm Hin).
    exists e. now rewrite (proj2 (Z.leb_le _ _)) by lia.
  - destruct l as [| x l]; [inversion Hin |].
    cbn in E. destruct (earliest l); [destruct (_ <? _) |]; discriminate.
Qed.

Lemma page_step_fresh (d : Document) (w w' : World) :
  page_step w w' -> page_ok d (page_view w) -> timers_fresh w -> timers_fresh w'.
Proof.
  intros Hstep Hok Hfresh.
  destruct Hstep as [n w | w w' _ _ _ Hkeep | tm w Hin Hcb].
  - destruct (isAnimating (state w) || negb (isValidSlideNumber n (state w)))
      eqn:Hguard.
    { now rewrite goToSlide_guard_true by exact Hguard. }
    apply orb_false_iff in Hguard as [Hanim Hvalid].
    apply negb_false_iff, isValidSlideNumber_spec in Hvalid.
    destruct Hok as [_ _ _ _ _ Hprev Hnext _ _]. cbn in Hprev, Hnext.
    rewrite (goToSlide_accepted n w _ _ Hanim Hvalid Hprev Hnext). cbn [world_of].
    apply fresh_list_snoc. exact Hfresh.
  - now apply Hkeep.
  - unfold fire. rewrite Hcb. apply fresh_list_filter. exact Hfresh.
Qed.

Lemma page_steps_fresh (d : Document) (w w' : World) :
  page_steps w w' -> page_ok d (page_view w) -> timers_fresh w -> timers_fresh w'.
Proof.
  intros Hsteps. induction Hsteps as [| w1 w2 w3 Hstep _ IH]; [auto |].
  intros Hok Hfresh. apply IH.
  - apply (page_steps_invariant (page_ok d) (page_ok_goToSlide d) w1 w2);
      [now apply rtc_once | exact Hok].
  - eapply page_step_fresh; eassumption.
Qed.

Lemma reachable_fresh (v : Variant) (d : Document) (w : World) :
  reachable v d w -> timers_fresh w.
Proof.
  intros Hreach. induction Hreach as [w Hw | w ti Hreach IH].
  - apply init_returned in Hw as (_ & _ & ->).
    split; [constructor | constructor].
  - eapply page_steps_fresh;
      [apply page_steps_step | apply (reachable_page_ok v d w Hreach) | exact IH].
Qed.

(** *** Stretches in which only the lock is released *)

Lemma calm_refl (w : World) : timers_fresh w -> calm w w.
Proof. intros H. split; first [reflexivity | exact H | lia]. Qed.

Lemma calm_trans (w1 w2 w3 : World) : calm w1 w2 -> calm w2 w3 -> calm w1 w3.
Proof.
  intros [A1 A2 A3 A4 A5 A6 A7 A8] [B1 B2 B3 B4 B5 B6 B7 B8].
  split; first [congruence | exact B5 | lia].
Qed.

Lemma wheel_fired_app (l k : list Effect) :
  wheel_fired (l ++ k) = wheel_fired l ++ wheel_fired k.
Proof. apply omap_app. Qed.

Lemma transitions_app (l k : list Effect) :
  transitions (l ++ k) = transitions l ++ transitions k.
Proof. apply omap_app. Qed.

Lemma fire_unlock_calm (tm : Timer) (w : World) :
  tm ∈ timers w -> timer_cb tm = CbUnlock -> timers_fresh w ->
  calm w (fire tm w) /\ now (fire tm w) = Z.max (now w) (timer_due tm).
Proof.
  intros Hin Hcb Hfresh. unfold fire. rewrite Hcb. cbn [run_callback].
  split; [| reflexivity]. split; try reflexivity.
  - unfold wheel_timers. cbn. apply wheel_timers_remove_other.
    + apply Hfresh.
    + exact Hin.
    + unfold is_wheel. now rewrite Hcb.
  - apply fresh_list_filter. exact Hfresh.
  - cbn. rewrite <- app_assoc, wheel_fired_app. cbn. apply app_nil_r.
  - cbn. rewrite <- app_assoc, transitions_app. cbn. apply app_nil_r.
  - cbn. lia.
Qed.

Lemma calm_run_timers (fuel : nat) (t : Z) (w : World) :
  timers_fresh w ->
  (forall tm, tm ∈ wheel_timers w -> t < timer_due tm) ->
  calm w (run_timers fuel t w)
  /\ now (run_timers fuel t w) <= Z.max (now w) t.
Proof.
  revert w. induction fuel as [| fuel IH]; intros w Hfresh Hlate; cbn [run_timers].
  { split; [now apply calm_refl | lia]. }
  destruct (next_due t (timers w)) as [tm |] eqn:Hdue;
    [| split; [now apply calm_refl | lia]].
  apply next_due_In in Hdue as [Hin Hle].
  destruct (timer_cb tm) as [| deltaY] eqn:Hcb.
  - destruct (fire_unlock_calm tm w Hin Hcb Hfresh) as [Hcalm Hnow].
    destruct (IH (fire tm w)) as [Hcalm' Hnow'].
    + apply Hcalm.
    + rewrite (calm_wheel_timers _ _ Hcalm). exact Hlate.
    + split; [eapply calm_trans; eassumption | lia].
  - exfalso. assert (Hw : tm ∈ wheel_timers w).
    { apply list_elem_of_filter. split; [| exact Hin]. unfold is_wheel. now rewrite Hcb. }
    specialize (Hlate tm Hw). lia.
Qed.

Lemma calm_advance_to (t : Z) (w : World) :
  timers_fresh w ->
  (forall tm, tm ∈ wheel_timers w -> t < timer_due tm) ->
  now w <= t ->
  calm w (advance_to t w) /\ now (advance_to t w) = t.
Proof.
  intros Hfresh Hlate Hnow.
  destruct (calm_run_timers (timer_budget (timers w)) t w Hfresh Hlate)
    as [[C1 C2 C3 C4 C5 C6 C7 C8] Hle].
  unfold advance_to. split; [| cbn; lia].
  split; try assumption. cbn. lia.
Qed.

(** *** An accepted wheel event *)

Lemma armed_after_wheel (w0 w : World) (deltaY : Z) :
  page_view w = page_view w0 -> doc w = doc w0 -> timers_fresh w ->
  (forall tm, tm ∈ wheel_timers w -> Some (timer_id tm) = scrollTimeout w) ->
  wheel_fired (log w) = wheel_fired (log w0) ->
  transitions (log w) = transitions (log w0) ->
  armed w0 (now w) deltaY (after_wheel deltaY w).
Proof.
  intros Hview Hdoc Hfresh Hpending Hfired Htrans.
  split; try assumption; try reflexivity.
  - apply fresh_list_snoc. now apply fresh_list_filter.
  - exists (next_timer_id w). split; [| reflexivity].
    unfold wheel_timers. cbn [after_wheel timers]. rewrite filter_app.
    replace (filter is_wheel (filter _ (timers w))) with (@nil Timer).
    + reflexivity.
    + symmetry. apply elem_of_nil_inv. intros x Hx.
      apply list_elem_of_filter in Hx as [Hw Hx].
      apply list_elem_of_filter in Hx as [Hne Hx].
      apply Hne, Hpending. apply list_elem_of_filter. now split.
  - cbn [after_wheel log]. rewrite wheel_fired_app, Hfired. cbn. apply app_nil_r.
  - cbn [after_wheel log]. rewrite transitions_app, Htrans. cbn. apply app_nil_r.
Qed.

Lemma step_wheel_eq (v : Variant) (w : World) (t deltaY : Z) :
  step v w (t, Wheel deltaY)
  = if wheel_accepts v deltaY (doc (advance_to t w))
    then after_wheel deltaY (advance_to t w)
    else advance_to t w.
Proof.
  unfold step. cbn [fst snd]. rewrite handle_wheel_eq.
  destruct (wheel_accepts _ _ _); reflexivity.
Qed.

(** The first accepted event of a burst arms the callback. *)
Lemma armed_first (v : Variant) (w0 : World) (t deltaY : Z) :
  timers_fresh w0 -> wheel_timers w0 = [] -> now w0 <= t ->
  wheel_accepts v deltaY (doc w0) = true ->
  armed w0 t deltaY (step v w0 (t, Wheel deltaY)).
Proof.
  intros Hfresh Hnone Hnow Hacc.
  destruct (calm_advance_to t w0 Hfresh) as [[C1 C2 C3 C4 C5 C6 C7 C8] Ht];
    [rewrite Hnone; intros tm Htm; inversion Htm | exact Hnow |].
  rewrite step_wheel_eq, C2, Hacc. rewrite <- Ht at 1.
  apply armed_after_wheel; try assumption.
  rewrite C4, Hnone. intros tm Htm. inversion Htm.
Qed.

(** A further accepted event, less than the quiet period after the last one,
    replaces the pending callback by its own. *)
Lemma armed_step (v : Variant) (w0 w : World) (t deltaY t' deltaY' : Z) :
  armed w0 t deltaY w ->
  t <= t' < t + scrollThrottle ->
  wheel_accepts v deltaY' (doc w0) = true ->
  armed w0 t' deltaY' (step v w (t', Wheel deltaY')).
Proof.
  intros [Hview Hdoc Hnow Hfresh (k & Htimer & Hsc) Hfired Htrans] Ht Hacc.
  destruct (calm_advance_to t' w Hfresh) as [[C1 C2 C3 C4 C5 C6 C7 C8] Hnow'].
  { rewrite Htimer. intros tm Htm. apply list_elem_of_singleton in Htm. subst tm.
    cbn. lia. }
  { lia. }
  rewrite step_wheel_eq, C2, Hdoc, Hacc. rewrite <- Hnow' at 1.
  apply armed_after_wheel; try congruence.
  rewrite C4, C3, Htimer, Hsc. intros tm Htm.
  apply list_elem_of_singleton in Htm. now subst tm.
Qed.

Lemma last_cons {A : Type} (x d : A) (l : list A) :
  List.last (x :: l) d = List.last l x.
Proof.
  revert x d. induction l as [| y l IH]; intros x d; [reflexivity |].
  change (List.last (x :: y :: l) d) with (List.last (y :: l) d).
  now rewrite !IH.
Qed.

(** Through a burst of accepted events the callback pending is that of the
    latest event, and no wheel callback runs. *)
Lemma armed_run (v : Variant) (w0 : World) (rest : list (Z * Z)) :
  forall (t deltaY : Z) (w : World),
    armed w0 t deltaY w ->
    spaced t rest ->
    Forall (fun e => wheel_accepts v (snd e) (doc w0) = true) rest ->
    armed w0 (fst (List.last rest (t, deltaY))) (snd (List.last rest (t, deltaY)))
          (run v (wheel_inputs rest) w).
Proof.
  induction rest as [| [t' d'] rest IH]; intros t deltaY w Harmed Hspaced Hacc.
  - exact Harmed.
  - cbn [spaced fst] in Hspaced. destruct Hspaced as [Ht Hspaced].
    apply Forall_cons in Hacc as [Hacc1 Hacc].
    rewrite last_cons. cbn [wheel_inputs map run fold_left fst snd].
    apply (IH t' d'); [| exact Hspaced | exact Hacc].
    eapply armed_step; eassumption.
Qed.

(** *** When the quiet period has passed *)

Lemma goToSlide_effects_summary (n : Z) (w : World) :
  wheel_fired (goToSlide_effects n w) = []
  /\ transitions (goToSlide_effects n w) = [n].
Proof.
  unfold goToSlide_effects.
  destruct (list_find (is_slide n) _), (list_find (is_indicator n) _),
    (url_for n _); split; reflexivity.
Qed.

Lemma timer_weight_le_budget (l : list Timer) (tm : Timer) :
  tm ∈ l -> (timer_weight tm <= timer_budget l)%nat.
Proof. intros H. pose proof (timer_budget_remove l tm H). lia. Qed.

(** The pending wheel callback runs: it is logged, leaves the queue, and makes
    at most one transition, to the next slide for a positive [deltaY] and to
    the previous one otherwise. *)
Lemma fire_wheel (d : Document) (tm : Timer) (deltaY : Z) (w : World) :
  page_ok d (page_view w) -> timers_fresh w ->
  wheel_timers w = [tm] -> timer_cb tm = CbWheel deltaY ->
  timers_fresh (fire tm w)
  /\ wheel_timers (fire tm w) = []
  /\ wheel_fired (log (fire tm w)) = wheel_fired (log w) ++ [deltaY]
  /\ (transitions (log (fire tm w)) = transitions (log w)
      \/ transitions (log (fire tm w))
         = transitions (log w)
           ++ [currentSlide (state w) + (if 0 <? deltaY then 1 else -1)]).
Proof.
  intros Hok Hfresh Hone Hcb.
  set (wp := emit (TimerFired (timer_id tm) (CbWheel deltaY))
               (with_timers (filter (fun x => timer_id x <> timer_id tm))
                  (with_now (Z.max (now w) (timer_due tm)) w))).
  set (n := currentSlide (state w) + (if 0 <? deltaY then 1 else -1)).
  assert (Hfire : fire tm w = world_of (goToSlide n wp)).
  { unfold fire. rewrite Hcb. cbn [run_callback]. fold wp. subst n.
    destruct (0 <? deltaY).
    - now rewrite goToNextSlide_eq.
    - rewrite goToPreviousSlide_eq. reflexivity. }
  assert (Hfresh_p : timers_fresh wp) by (apply fresh_list_filter; exact Hfresh).
  assert (Hnone_p : wheel_timers wp = [])
    by (apply wheel_timers_remove_self; exact Hone).
  assert (Hfired_p : wheel_fired (log wp) = wheel_fired (log w) ++ [deltaY])
    by (cbn; now rewrite wheel_fired_app).
  assert (Htrans_p : transitions (log wp) = transitions (log w))
    by (cbn; rewrite transitions_app; cbn; apply app_nil_r).
  rewrite Hfire.
  destruct (isAnimating (state wp) || negb (isValidSlideNumber n (state wp)))
    eqn:Hguard.
  { rewrite goToSlide_guard_true by exact Hguard. cbn [world_of]. auto. }
  apply orb_false_iff in Hguard as [Hanim Hvalid].
  apply negb_false_iff, isValidSlideNumber_spec in Hvalid.
  destruct Hok as [_ _ _ _ _ Hprev Hnext _ _]. cbn in Hprev, Hnext.
  rewrite (goToSlide_accepted n wp _ _ Hanim Hvalid Hprev Hnext). cbn [world_of].
  destruct (goToSlide_effects_summary n wp) as [Hf Ht].
  split; [apply fresh_list_snoc; exact Hfresh_p |].
  split.
  { unfold wheel_timers. cbn [after_goToSlide timers]. rewrite filter_app.
    fold (wheel_timers wp). rewrite Hnone_p. reflexivity. }
  split.
  { cbn [after_goToSlide log]. rewrite wheel_fired_app, Hf, Hfired_p. apply app_nil_r. }
  right. cbn [after_goToSlide log]. now rewrite transitions_app, Ht, Htrans_p.
Qed.

Lemma final_run (d : Document) (tm : Timer) (deltaY : Z) (fuel : nat) (t : Z) :
  forall w,
    page_ok d (page_view w) -> timers_fresh w ->
    wheel_timers w = [tm] -> timer_cb tm = CbWheel deltaY ->
    timer_due tm <= t ->
    (timer_budget (timers w) <= fuel)%nat ->
    wheel_fired (log (run_timers fuel t w)) = wheel_fired (log w) ++ [deltaY]
    /\ (transitions (log (run_timers fuel t w)) = transitions (log w)
        \/ transitions (log (run_timers fuel t w))
           = transitions (log w)
             ++ [currentSlide (state w) + (if 0 <? deltaY then 1 else -1)]).
Proof.
  induction fuel as [| fuel IH]; intros w Hok Hfresh Hone Hcb Hdue Hfuel.
  - exfalso.
    assert (Hin : tm ∈ timers w).
    { assert (H : tm ∈ wheel_timers w) by (rewrite Hone; left).
      now apply list_elem_of_filter in H. }
    pose proof (timer_weight_le_budget _ _ Hin) as Hw.
    unfold timer_weight in Hw. rewrite Hcb in Hw. lia.
  - assert (Hin : tm ∈ timers w).
    { assert (H : tm ∈ wheel_timers w) by (rewrite Hone; left).
      now apply list_elem_of_filter in H. }
    cbn [run_timers].
    destruct (next_due_exists t (timers w) tm Hin Hdue) as [tm' Hnext].
    rewrite Hnext. apply next_due_In in Hnext as [Hin' Hdue'].
    destruct (timer_cb tm') as [| d'] eqn:Hcb'.
    + destruct (fire_unlock_calm tm' w Hin' Hcb' Hfresh)
        as [[C1 C2 C3 C4 C5 C6 C7 C8] _].
      destruct (IH (fire tm' w)) as [Hf Ht].
      * now rewrite C1.
      * exact C5.
      * now rewrite C4.
      * exact Hcb.
      * exact Hdue.
      * pose proof (timer_budget_remove (timers w) tm' Hin') as Hb.
        unfold timer_weight in Hb. rewrite Hcb' in Hb.
        assert (Htimers : timers (fire tm' w)
                          = filter (fun x => timer_id x <> timer_id tm') (timers w))
          by (unfold fire; rewrite Hcb'; reflexivity).
        rewrite Htimers. lia.
      * apply (f_equal pv_currentSlide) in C1. cbn in C1.
        rewrite Hf, C6. split; [reflexivity |].
        destruct Ht as [Ht | Ht]; rewrite Ht, C7, ?C1; auto.
    + assert (tm' = tm) as ->.
      { assert (H : tm' ∈ wheel_timers w).
        { apply list_elem_of_filter. split; [| exact Hin'].
          unfold is_wheel. now rewrite Hcb'. }
        rewrite Hone in H. now apply list_elem_of_singleton in H. }
      assert (d' = deltaY) as -> by congruence.
      destruct (fire_wheel d tm deltaY w Hok Hfresh Hone Hcb)
        as (Hfresh1 & Hnone1 & Hfired1 & Htrans1).
      destruct (calm_run_timers fuel t (fire tm w) Hfresh1)
        as [[C1 C2 C3 C4 C5 C6 C7 C8] _].
      { rewrite Hnone1. intros x Hx. inversion Hx. }
      rewrite C6, C7. split; [exact Hfired1 | exact Htrans1].
Qed.

(** The claim of C6 fails as it is worded, in the desktop variant: with the
    inner region of the active slide at its bottom edge, a downward event
    arms the callback; an upward event 20 ms later is stopped by the guard
    before the timer is touched, so the timer is not rearmed (it stays due at
    50 ms), and the callback that runs is the one of the first event, not of
    the last: the page goes to the next slide. *)
Lemma wheel_burst_counterexample :
  spaced 0 [(20, -120)]
  /\ timers (after_burst Desktop (0, 120) [(20, -120)] at_bottom)
     = [{| timer_id := 1; timer_due := 50; timer_cb := CbWheel 120 |}]
  /\ wheel_fired (log (advance_to 70 (after_burst Desktop (0, 120) [(20, -120)] at_bottom)))
     = [120]
  /\ currentSlide
       (state (advance_to 70 (after_burst Desktop (0, 120) [(20, -120)] at_bottom)))
     = 2.
Proof.
  split; [cbn; unfold scrollThrottle; lia |]. split; [vm_compute; reflexivity |].
  split; vm_compute; reflexivity.
Qed.

(** C6, amended. The wheel listener cancels the pending callback and arms a
    new one, due 50 ms later, on every event it accepts: every event in the
    basic variant, the events that pass the guards in the desktop variant. In
    a reachable world with no wheel callback pending, after a burst of
    accepted events each less than 50 ms after the one before, one callback
    is pending, that of the last event; no wheel callback runs and no
    transition is made before 50 ms have passed since the last event; at that
    time exactly one wheel callback runs, with the [deltaY] of the last
    event, and it makes at most one transition, through [goToNextSlide] for a
    positive [deltaY] and [goToPreviousSlide] for a negative one. *)
Theorem wheel_burst_debounced (v : Variant) (d : Document) (w : World)
    (first : Z * Z) (rest : list (Z * Z))
  (Hreach : reachable v d w)
  (Hquiet : wheel_timers w = [])
  (Hnow : now w <= fst first)
  (Hspaced : spaced (fst first) rest)
  (Haccepted : Forall (fun e => wheel_accepts v (snd e) (doc w) = true)
                      (first :: rest)) :
  (exists k,
      wheel_timers (after_burst v first rest w)
      = [{| timer_id := k;
            timer_due := fst (last_event first rest) + scrollThrottle;
            timer_cb := CbWheel (snd (last_event first rest)) |}])
  /\ wheel_fired (log (after_burst v first rest w)) = wheel_fired (log w)
  /\ transitions (log (after_burst v first rest w)) = transitions (log w)
  /\ (forall t, t < fst (last_event first rest) + scrollThrottle ->
        wheel_fired (log (advance_to t (after_burst v first rest w)))
        = wheel_fired (log w)
        /\ transitions (log (advance_to t (after_burst v first rest w)))
           = transitions (log w))
  /\ wheel_fired
       (log (advance_to (fst (last_event first rest) + scrollThrottle)
               (after_burst v first rest w)))
     = wheel_fired (log w) ++ [snd (last_event first rest)]
  /\ (transitions
        (log (advance_to (fst (last_event first rest) + scrollThrottle)
                (after_burst v first rest w)))
      = transitions (log w)
      \/ transitions
           (log (advance_to (fst (last_event first rest) + scrollThrottle)
                   (after_burst v first rest w)))
         = transitions (log w)
           ++ [currentSlide (state w)
               + (if 0 <? snd (last_event first rest) then 1 else -1)])
  /\ (0 < snd (last_event first rest) ->
      run_callback (CbWheel (snd (last_event first rest))) = goToNextSlide)
  /\ (snd (last_event first rest) < 0 ->
      run_callback (CbWheel (snd (last_event first rest))) = goToPreviousSlide).
Proof.
  pose proof (reachable_page_ok v d w Hreach) as Hok.
  pose proof (reachable_fresh v d w Hreach) as Hfresh.
  apply Forall_cons in Haccepted as [Hacc1 Hacc].
  destruct first as [t1 d1]. cbn [fst snd] in *.
  assert (Harmed : armed w (fst (last_event (t1, d1) rest))
                     (snd (last_event (t1, d1) rest))
                     (after_burst v (t1, d1) rest w)).
  { unfold after_burst, last_event.
    cbn [wheel_inputs map run fold_left fst snd].
    apply (armed_run v w rest t1 d1); [| exact Hspaced | exact Hacc].
    now apply armed_first. }
  set (wb := after_burst v (t1, d1) rest w) in *.
  set (tl := fst (last_event (t1, d1) rest)) in *.
  set (dl := snd (last_event (t1, d1) rest)) in *.
  destruct Harmed as [Hview Hdoc Hnowb Hfreshb (k & Htimer & Hsc) Hfired Htrans].
  split; [now exists k |]. split; [exact Hfired |]. split; [exact Htrans |].
  split.
  { intros t Ht.
    destruct (calm_run_timers (timer_budget (timers wb)) t wb Hfreshb)
      as [[C1 C2 C3 C4 C5 C6 C7 C8] _].
    { rewrite Htimer. intros tm Htm. apply list_elem_of_singleton in Htm. subst tm.
      cbn. lia. }
    unfold advance_to. cbn [with_now log]. split; congruence. }
  destruct (final_run d
              {| timer_id := k; timer_due := tl + scrollThrottle;
                 timer_cb := CbWheel dl |}
              dl (timer_budget (timers wb)) (tl + scrollThrottle) wb)
    as [Hf Ht]; try assumption; try reflexivity.
  { now rewrite Hview. }
  split; [| split].
  - unfold advance_to. cbn [with_now log]. now rewrite Hf, Hfired.
  - unfold advance_to. cbn [with_now log].
    apply (f_equal pv_currentSlide) in Hview.
    cbn [page_view pv_currentSlide] in Hview.
    destruct Ht as [Ht | Ht]; rewrite Ht, Htrans, ?Hview; auto.
  - split; intros Hd; cbn [run_callback].
    + now rewrite (proj2 (Z.ltb_lt _ _) Hd).
    + rewrite (proj2 (Z.ltb_ge _ _)); [reflexivity | lia].
Qed.

(** The scenario of the specification, in both variants on the sample page:
    five events with [deltaY = 120] within 10 ms, then 50 ms of quiet. *)
Lemma wheel_burst_debounced_witness :
  reachable Basic sample_doc (after_init sample_doc)
  /\ wheel_timers (after_init sample_doc) = []
  /\ spaced 0 five_wheels
  /\ wheel_fired (log (advance_to 60 (after_burst Basic (0, 120) five_wheels
                                        (after_init sample_doc)))) = [120]
  /\ transitions (log (advance_to 60 (after_burst Basic (0, 120) five_wheels
                                        (after_init sample_doc)))) = [2]
  /\ currentSlide (state (advance_to 60 (after_burst Basic (0, 120) five_wheels
                                           (after_init sample_doc)))) = 2
  /\ transitions (log (advance_to 60 (after_burst Desktop (0, 120) five_wheels
                                        (after_init sample_doc)))) = [2].
Proof.
  assert (Hreach : reachable Basic sample_doc (after_init sample_doc)).
  { apply reach_init. vm_compute. reflexivity. }
  assert (Hspaced : spaced 0 five_wheels) by (cbn; unfold scrollThrottle; lia).
  split; [exact Hreach |]. split; [reflexivity |]. split; [exact Hspaced |].
  destruct (wheel_burst_debounced Basic sample_doc (after_init sample_doc)
              (0, 120) five_wheels Hreach eq_refl)
    as (_ & _ & _ & _ & Hfired & _).
  - cbn. lia.
  - exact Hspaced.
  - repeat constructor.
  - split; [exact Hfired |].
    split; [vm_compute; reflexivity |]. split; vm_compute; reflexivity.
Defined.

(** * Further properties of the controller *)

(** ** The identifier map built by [createSlideIdMap] *)

(** Among the positions of a list that satisfy a decidable property, if there
    is one there is a last one. *)
Lemma last_position {A : Type} (P : A -> Prop) `{!forall x, Decision (P x)}
    (l : list A) :
  (exists j x, l !! j = Some x /\ P x) ->
  exists j x, l !! j = Some x /\ P x
              /\ forall j' x', (j < j')%nat -> l !! j' = Some x' -> ~ P x'.
Proof.
  induction l as [| y l IH]; intros (j & x & Hj & HP); [discriminate |].
  destruct (decide (Exists P l)) as [Hex | Hnex].
  - apply Exists_exists in Hex as (z & Hz & HPz).
    apply list_elem_of_lookup in Hz as [k Hk].
    destruct IH as (j0 & x0 & Hj0 & HP0 & Hlast); [now exists k, z |].
    exists (S j0), x0. split; [exact Hj0 |]. split; [exact HP0 |].
    intros [| j'] x' Hlt Hx'; [lia |]. apply (Hlast j' x'); [lia | exact Hx'].
  - destruct j as [| j].
    + injection Hj as ->. exists 0%nat, x. split; [reflexivity |].
      split; [exact HP |].
      intros [| j'] x' Hlt Hx' HP'; [lia |].
      apply Hnex, Exists_exists. exists x'. split; [| exact HP'].
      apply list_elem_of_lookup. now exists j'.
    + exfalso. apply Hnex, Exists_exists. exists x. split; [| exact HP].
      apply list_elem_of_lookup. now exists j.
Qed.

(** X1. In every reachable world the identifier map is the one [init] built
    and holds the identifiers of the slides, apart from the empty one and
    [__proto__]: an identifier is mapped to [n] exactly when it is neither
    of the two and [n] is the position of the last slide that carries it.
    Entries are therefore valid slide numbers; the empty identifier, which
    the loop skips, and [__proto__], whose assignment a plain object ignores,
    are never keys. *)
Theorem slideIdMap_characterised (v : Variant) (d : Document) (w : World)
    (id : string) (n : Z)
  (Hreach : reachable v d w) :
  (slideIdMap (state w) !! id = Some n <->
   exists j s,
     n = Z.of_nat j + 1 /\ slides d !! j = Some s /\ slide_id s = Some id
     /\ id <> "" /\ id <> "__proto__"
     /\ forall j' s', (j < j')%nat -> slides d !! j' = Some s' ->
                      slide_id s' <> Some id)
  /\ (slideIdMap (state w) !! id = Some n -> 1 <= n <= totalSlides (state w))
  /\ slideIdMap (state w) !! "" = None
  /\ slideIdMap (state w) !! "__proto__" = None.
Proof.
  destruct (reachable_page_ok v d w Hreach) as [Htot Hmap _ _ _ _ _ _ _].
  cbn in Htot, Hmap.
  assert (Hproto : slideIdMap (state w) !! "__proto__" = None).
  { rewrite Hmap. now apply slideIdMap_from_proto. }
  assert (Hiff : slideIdMap (state w) !! id = Some n <->
                 exists j s,
                   n = Z.of_nat j + 1 /\ slides d !! j = Some s
                   /\ slide_id s = Some id /\ id <> "" /\ id <> "__proto__"
                   /\ forall j' s', (j < j')%nat -> slides d !! j' = Some s' ->
                                    slide_id s' <> Some id).
  { split.
    - intros Hn.
      assert (Hnp : id <> "__proto__").
      { intros ->. rewrite Hproto in Hn. discriminate. }
      rewrite Hmap in Hn.
      destruct (slideIdMap_from_Some _ _ _ _ _ Hn)
        as [Hemp | (j & s & Hj & Hid & Hne & _)]; [discriminate |].
      destruct (last_position (fun x => slide_id x = Some id) (slides d))
        as (j0 & s0 & Hj0 & Hid0 & Hlast); [now exists j, s |].
      exists j0, s0.
      rewrite (slideIdMap_from_last _ 0 _ id j0 s0 Hj0 Hid0 Hne Hnp Hlast) in Hn.
      injection Hn as <-. repeat split; auto.
    - intros (j & s & -> & Hj & Hid & Hne & Hnp & Hlast).
      rewrite Hmap, (slideIdMap_from_last _ 0 _ id j s Hj Hid Hne Hnp Hlast).
      f_equal. }
  split; [exact Hiff |]. split; [| split; [| exact Hproto]].
  - intros Hn. apply Hiff in Hn as (j & s & -> & Hj & _).
    apply lookup_lt_Some in Hj. lia.
  - rewrite Hmap.
    destruct (slideIdMap_from 0 (slides d) ∅ !! "") as [m |] eqn:E; [| reflexivity].
    destruct (slideIdMap_from_Some _ _ _ _ _ E)
      as [Hemp | (j & s & _ & _ & Hne & _)]; [discriminate | now contradiction Hne].
Qed.

Lemma slideIdMap_characterised_witness :
  reachable Basic sample_doc (after_init sample_doc)
  /\ slideIdMap (state (after_init sample_doc)) !! "s4" = Some 4.
Proof.
  assert (Hreach : reachable Basic sample_doc (after_init sample_doc)).
  { apply reach_init. vm_compute. reflexivity. }
  split; [exact Hreach |].
  apply (slideIdMap_characterised Basic sample_doc _ "s4" 4 Hreach).
  exists 3%nat, (sample_slide 4 false).
  split; [reflexivity |]. split; [reflexivity |]. split; [reflexivity |].
  split; [discriminate |]. split; [discriminate |].
  intros j' s' Hlt Hs'.
  destruct j' as [| [| [| [| [| j']]]]]; try lia; cbn in Hs'; try discriminate.
  injection Hs' as <-. vm_compute. discriminate.
Defined.

(** ** What stays fixed, and the range of [currentSlide] *)

(** X2. After [init], [totalSlides] is the number of slides of the page and
    never changes, as do the identifier map and the attributes the code only
    reads; [currentSlide] stays within [1, totalSlides] on a page with at
    least one slide. On a page without slides it stays at 1, outside the empty
    range, and every [goToSlide] is dropped. *)
Theorem state_stays_in_range (v : Variant) (d : Document) (w : World)
  (Hreach : reachable v d w) :
  totalSlides (state w) = Z.of_nat (length (slides d))
  /\ length (slides (doc w)) = length (slides d)
  /\ slideIdMap (state w) = slideIdMap (state (after_init d))
  /\ slide_id <$> slides (doc w) = slide_id <$> slides d
  /\ slide_data <$> slides (doc w) = slide_data <$> slides d
  /\ ind_data <$> indicators (doc w) = ind_data <$> indicators d
  /\ (slides d <> [] -> 1 <= currentSlide (state w) <= totalSlides (state w))
  /\ (slides d = [] ->
      currentSlide (state w) = 1 /\ forall n, goToSlide n w = Returned tt w).
Proof.
  destruct (reachable_page_ok v d w Hreach)
    as [Htot Hmap Hids Hdata Hind _ _ Hcur _]. cbn in *.
  split; [exact Htot |].
  split; [eapply fmap_length_eq; exact Hids |].
  split; [exact Hmap |]. split; [exact Hids |]. split; [exact Hdata |].
  split; [exact Hind |]. split.
  - intros Hne. destruct (slides d) as [| s l]; [contradiction |].
    cbn [length] in Htot. destruct Hcur as [-> | Hcur]; lia.
  - intros Hnil. rewrite Hnil in Htot. cbn in Htot.
    split; [destruct Hcur as [Hc | Hc]; [exact Hc | lia] |].
    intros n. destruct (Z.lt_ge_cases n 1).
    + apply goToSlide_out_of_range. now left.
    + apply goToSlide_out_of_range. right. lia.
Qed.

Lemma state_stays_in_range_witness :
  reachable Desktop sample_doc
    (run Desktop [(0, KeyDown "ArrowRight"); (700, KeyDown "ArrowDown");
                  (1400, KeyDown "ArrowUp")] (after_init sample_doc))
  /\ 1 <= currentSlide
            (state (run Desktop [(0, KeyDown "ArrowRight"); (700, KeyDown "ArrowDown");
                                 (1400, KeyDown "ArrowUp")] (after_init sample_doc)))
       <= 5.
Proof.
  assert (Hreach : reachable Desktop sample_doc
                     (run Desktop [(0, KeyDown "ArrowRight"); (700, KeyDown "ArrowDown");
                                   (1400, KeyDown "ArrowUp")] (after_init sample_doc))).
  { cbn [run fold_left]. do 3 apply reach_step. apply reach_init.
    vm_compute. reflexivity. }
  split; [exact Hreach |].
  destruct (state_stays_in_range Desktop sample_doc _ Hreach)
    as (Htot & _ & _ & _ & _ & _ & Hrange & _).
  rewrite Htot in Hrange. apply Hrange. discriminate.
Defined.

(** ** When [init] returns *)

(** X3. [init] returns normally exactly when the page has both buttons and,
    in the desktop variant, a slider container; otherwise it throws a
    [TypeError]. When it returns, the slide count and the identifier map are
    set, the current slide is 1 and the buttons are updated for it; no timer
    is pending. *)
Theorem init_returns_iff (v : Variant) (d : Document) :
  ((exists w, init v (initial_world d) = Returned tt w) <->
   is_Some (prevBtn d) /\ is_Some (nextBtn d)
   /\ (v = Desktop -> sliderContainer d = true))
  /\ ((forall w, init v (initial_world d) <> Returned tt w) ->
      exists w, init v (initial_world d) = Threw TypeError w)
  /\ (forall w, init v (initial_world d) = Returned tt w -> w = after_init d).
Proof.
  split; [| split].
  - split.
    + intros [w Hw]. pose proof (init_returned v d w Hw) as (Hp & Hn & _).
      split; [exact Hp |]. split; [exact Hn |]. intros ->.
      destruct d as [sl ind pb nb cont iw lh hist]. cbn in *.
      destruct Hp as [p ->], Hn as [q ->].
      unfold init, Script.init, Script.setupEventListeners, cacheElements,
        createSlideIdMap, updateNavigationButtons, initial_world in Hw.
      revert Hw. run_world. destruct cont; [reflexivity | discriminate].
    + intros ([p Hp] & [q Hq] & Hc). exists (after_init d).
      destruct d as [sl ind pb nb cont iw lh hist]. cbn in *. subst pb nb.
      unfold init, Script.init, Index.init, Script.setupEventListeners,
        Index.setupEventListeners, cacheElements, createSlideIdMap,
        updateNavigationButtons, initial_world, after_init.
      destruct v; [rewrite (Hc eq_refl) |]; run_world; reflexivity.
  - intros Hnot. destruct (init v (initial_world d)) as [[] w | [] w] eqn:E.
    + now contradiction (Hnot w).
    + now exists w.
  - intros w Hw. apply (init_returned v d w Hw).
Qed.

(** ** The view after a navigation *)

Lemma page_ok_contract (d : Document) (w : World) :
  dom_contract d -> page_ok d (page_view w) ->
  length (slides (doc w)) = length (slides d)
  /\ length (indicators (doc w)) = length (slides d)
  /\ length (indicators d) = length (slides d)
  /\ slide_data <$> slides (doc w) = position_attrs (length (slides (doc w)))
  /\ ind_data <$> indicators (doc w) = position_attrs (length (indicators (doc w))).
Proof.
  intros [Hcs Hci _ _] [_ _ Hids Hdata Hind _ _ _ _]. cbn in Hids, Hdata, Hind.
  assert (Hlen : length (slides (doc w)) = length (slides d))
    by (eapply fmap_length_eq; exact Hids).
  assert (Hlend : length (indicators d) = length (slides d)).
  { apply (f_equal length) in Hci. unfold position_attrs in Hci.
    now rewrite !length_fmap, length_seq in Hci. }
  assert (Hleni : length (indicators (doc w)) = length (slides d)).
  { apply fmap_length_eq in Hind. congruence. }
  split; [exact Hlen |]. split; [exact Hleni |]. split; [exact Hlend |]. split.
  - rewrite Hdata, Hlen. exact Hcs.
  - rewrite Hind, Hleni. exact Hci.
Qed.

(** Two indicators lists with the same attributes and classes are equal. *)
Lemma indicators_ext (l l' : list IndicatorEl) :
  ind_data <$> l = ind_data <$> l' ->
  ind_active <$> l = ind_active <$> l' ->
  ind_aria_selected <$> l = ind_aria_selected <$> l' ->
  l = l'.
Proof.
  revert l'. induction l as [| [a b c] l IH]; intros [| [a' b' c'] l'] H1 H2 H3;
    try discriminate; [reflexivity |].
  cbn in H1, H2, H3.
  injection H1 as -> H1. injection H2 as -> H2. injection H3 as -> H3.
  f_equal. now apply IH.
Qed.

Lemma indicators_after_aria_eq (n : Z) (l l' : list IndicatorEl) :
  length l = length l' ->
  ind_aria_selected <$> indicators_after n l
  = ind_aria_selected <$> indicators_after n l'.
Proof.
  intros Hlen. apply list_eq. intros i. rewrite !list_lookup_fmap.
  destruct (indicators_after n l !! i) as [x |] eqn:E;
    destruct (indicators_after n l' !! i) as [x' |] eqn:E'; cbn.
  - now rewrite (indicators_after_aria _ _ _ _ E), (indicators_after_aria _ _ _ _ E').
  - apply lookup_lt_Some in E. apply lookup_ge_None in E'.
    rewrite indicators_after_length in E, E'. lia.
  - apply lookup_lt_Some in E'. apply lookup_ge_None in E.
    rewrite indicators_after_length in E, E'. lia.
  - reflexivity.
Qed.

Lemma view_after_goToSlide (d : Document) (n : Z) (w : World) :
  dom_contract d -> page_ok d (page_view w) ->
  1 <= n <= Z.of_nat (length (slides d)) ->
  page_view (after_goToSlide n w) = view_at d n.
Proof.
  intros Hc Hok Hn.
  destruct (page_ok_contract d w Hc Hok) as (Hlen & Hleni & Hlend & Hdata & Hind).
  pose proof Hc as [Hcs Hci _ _].
  destruct Hok as [Htot Hmap Hids Hdat Hin _ _ _ _].
  cbn in Htot, Hmap, Hids, Hdat, Hin.
  assert (Hi : indicators_after n (indicators (doc w))
               = indicators_after n (indicators d)).
  { apply indicators_ext.
    - rewrite !indicators_after_data. exact Hin.
    - rewrite !indicators_after_active; try lia; try congruence.
    - apply indicators_after_aria_eq. congruence. }
  unfold page_view, view_at.
  cbn [after_goToSlide state doc currentSlide totalSlides slideIdMap slides
       indicators prevBtn nextBtn].
  rewrite Hi, Htot, Hmap.
  rewrite (proj1 (slides_after_attrs n _)), (proj2 (slides_after_attrs n _)), Hids, Hdat.
  rewrite slides_after_active by (auto; lia). rewrite Hlen. reflexivity.
Qed.

(** X4. On a page that keeps the contract, the view an accepted
    [goToSlide n] leaves does not depend on the world it was called in: the
    classes, the attributes of the indicators, the buttons and the counters
    are those of [view_at d n], whatever was shown before. *)
Theorem goToSlide_view_determined (v : Variant) (d : Document) (w : World) (n : Z)
  (Hcontract : dom_contract d)
  (Hreach : reachable v d w)
  (Hanim : isAnimating (state w) = false)
  (Hn : 1 <= n <= Z.of_nat (length (slides d))) :
  page_view (world_of (goToSlide n w)) = view_at d n.
Proof.
  pose proof (reachable_page_ok v d w Hreach) as Hok.
  pose proof Hok as [Htot _ _ _ _ Hprev Hnext _ _]. cbn in Htot, Hprev, Hnext.
  rewrite (goToSlide_accepted n w _ _ Hanim ltac:(lia) Hprev Hnext). cbn [world_of].
  now apply view_after_goToSlide.
Qed.

Lemma goToSlide_view_determined_witness :
  page_view (world_of (goToSlide 2 (after_init sample_doc)))
  = page_view
      (world_of (goToSlide 2 (run Desktop [(0, CallGoToSlide 4); (700, Tick)]
                                (after_init sample_doc)))).
Proof.
  assert (Hinit : reachable Desktop sample_doc (after_init sample_doc)).
  { apply reach_init. vm_compute. reflexivity. }
  rewrite (goToSlide_view_determined Desktop sample_doc (after_init sample_doc) 2
             sample_contract Hinit eq_refl ltac:(cbn; lia)).
  symmetry.
  apply (goToSlide_view_determined Desktop sample_doc _ 2 sample_contract).
  - cbn [run fold_left]. do 2 apply reach_step. exact Hinit.
  - vm_compute. reflexivity.
  - cbn. lia.
Defined.

(** ** A page without one of its buttons *)

Lemma indicators_moved_active (n : Z) (l : list IndicatorEl) :
  ind_active <$> indicators_moved n l = ind_active <$> indicators_after n l.
Proof.
  unfold indicators_after, indicators_moved. cbn zeta.
  now rewrite fmap_imap_same by reflexivity.
Qed.

(** With the lock taken and no release pending, nothing the page does frees
    the lock or changes the view. *)
Lemma stuck_page_step (w w' : World) :
  page_step w w' ->
  isAnimating (state w) = true -> unlock_timers w = [] ->
  isAnimating (state w') = true /\ unlock_timers w' = []
  /\ page_view w' = page_view w.
Proof.
  intros Hstep Hanim Hnone.
  destruct Hstep as [n w | w w' Hview Hsame Hsub _ | tm w Hin Hcb].
  - rewrite goToSlide_locked by exact Hanim. auto.
  - split; [congruence |]. split; [| exact Hview].
    rewrite Hnone in Hsub. now apply sublist_nil_r in Hsub.
  - exfalso. assert (H : tm ∈ unlock_timers w) by (apply list_elem_of_filter; auto).
    rewrite Hnone in H. inversion H.
Qed.

Lemma stuck_page_steps (w w' : World) :
  page_steps w w' ->
  isAnimating (state w) = true -> unlock_timers w = [] ->
  isAnimating (state w') = true /\ unlock_timers w' = []
  /\ page_view w' = page_view w.
Proof.
  intros Hsteps. induction Hsteps as [| w1 w2 w3 Hstep _ IH]; [auto |].
  intros Hanim Hnone.
  destruct (stuck_page_step w1 w2 Hstep Hanim Hnone) as (H1 & H2 & H3).
  destruct (IH H1 H2) as (H4 & H5 & H6).
  split; [exact H4 |]. split; [exact H5 | congruence].
Qed.

Lemma stuck_run (v : Variant) (inputs : list (Z * Input)) :
  forall w,
    isAnimating (state w) = true -> unlock_timers w = [] ->
    isAnimating (state (run v inputs w)) = true
    /\ unlock_timers (run v inputs w) = []
    /\ page_view (run v inputs w) = page_view w.
Proof.
  induction inputs as [| ti inputs IH]; intros w Hanim Hnone; [auto |].
  change (run v (ti :: inputs) w) with (run v inputs (step v w ti)).
  destruct (stuck_page_steps w (step v w ti) (page_steps_step v w ti) Hanim Hnone)
    as (H1 & H2 & H3).
  destruct (IH (step v w ti) H1 H2) as (H4 & H5 & H6).
  split; [exact H4 |]. split; [exact H5 |]. now rewrite H6.
Qed.

(** X5. On a page without one of the two buttons a call of [goToSlide]
    that passes the guard takes the lock, moves the active classes (cleared
    everywhere, set on the first slide and the first indicator whose
    [data-slide] is the number), sets [currentSlide], disables the [prev]
    button if there is one, and then throws in [updateNavigationButtons]:
    [aria-selected] and the URL are not updated, [pushState] is not called
    and the release of the lock is never scheduled. From then on, whatever
    inputs arrive and however much time passes, the lock stays taken, the
    view does not change and every call of [goToSlide] is dropped. *)
Theorem goToSlide_without_button (n : Z) (w : World)
  (Hbtn : prevBtn (doc w) = None \/ nextBtn (doc w) = None)
  (Hanim : isAnimating (state w) = false)
  (Hn : 1 <= n <= totalSlides (state w))
  (Hnone : unlock_timers w = []) :
  exists w',
    goToSlide n w = Threw TypeError w'
    /\ isAnimating (state w') = true
    /\ currentSlide (state w') = n
    /\ slides (doc w') = slides_after n (slides (doc w))
    /\ indicators (doc w') = indicators_moved n (indicators (doc w))
    /\ prevBtn (doc w') = btn_set_disabled (n =? 1) <$> prevBtn (doc w)
    /\ nextBtn (doc w') = nextBtn (doc w)
    /\ timers w' = timers w
    /\ history (doc w') = history (doc w)
    /\ location_hash (doc w') = location_hash (doc w)
    /\ pushes (log w') = pushes (log w)
    /\ (slide_data <$> slides (doc w) = position_attrs (length (slides (doc w))) ->
        ind_data <$> indicators (doc w)
        = position_attrs (length (indicators (doc w))) ->
        length (indicators (doc w)) = length (slides (doc w)) ->
        totalSlides (state w) = Z.of_nat (length (slides (doc w))) ->
        one_active_at n (doc w'))
    /\ (forall t m,
          isAnimating (state (advance_to t w')) = true
          /\ currentSlide (state (advance_to t w')) = n
          /\ goToSlide m (advance_to t w') = Returned tt (advance_to t w'))
    /\ (forall v inputs,
          isAnimating (state (run v inputs w')) = true
          /\ currentSlide (state (run v inputs w')) = n
          /\ page_view (run v inputs w') = page_view w'
          /\ forall m, goToSlide m (run v inputs w')
                       = Returned tt (run v inputs w')).
Proof.
  assert (Hex : exists w',
             goToSlide n w = Threw TypeError w'
             /\ isAnimating (state w') = true
             /\ currentSlide (state w') = n
             /\ slides (doc w') = slides_after n (slides (doc w))
             /\ indicators (doc w') = indicators_moved n (indicators (doc w))
             /\ prevBtn (doc w') = btn_set_disabled (n =? 1) <$> prevBtn (doc w)
             /\ nextBtn (doc w') = nextBtn (doc w)
             /\ timers w' = timers w
             /\ history (doc w') = history (doc w)
             /\ location_hash (doc w') = location_hash (doc w)
             /\ pushes (log w') = pushes (log w)).
  { unfold goToSlide.
    rewrite Hanim, (proj2 (isValidSlideNumber_spec n (state w)) Hn).
    cbn [orb negb].
    destruct w as [st d t tm nid sc tv lg].
    destruct d as [sl ind pb nb cont iw lh hist].
    destruct st as [cur anim tot idmap].
    cbn [state doc prevBtn nextBtn] in Hbtn.
    unfold slides_after, indicators_moved.
    run_world.
    destruct (list_find (is_slide n) _) as [[i x] |]; run_world;
      destruct (list_find (is_indicator n) _) as [[j y] |]; run_world;
      (destruct Hbtn as [-> | ->]; [| destruct pb as [p |]]); run_world;
      eexists; (split; [reflexivity |]);
      repeat (split; [reflexivity |]);
      unfold pushes; rewrite ?omap_app; cbn; rewrite ?app_nil_r; reflexivity. }
  destruct Hex as (w' & Hgo & Ha & Hc & Hsl & Hin & Hp & Hq & Ht & Hh & Hl & Hpu).
  assert (Hnone' : unlock_timers w' = []) by (unfold unlock_timers; now rewrite Ht).
  exists w'. do 11 (split; [assumption |]).
  split; [| split].
  - intros Hds Hdi Hlen Htot. unfold one_active_at. rewrite Hsl, Hin. split.
    + rewrite slides_after_active by (auto; lia). apply only_active_flags_at. lia.
    + rewrite indicators_moved_active, indicators_after_active by (auto; lia).
      apply only_active_flags_at. lia.
  - intros t m.
    destruct (locked_run_timers (timer_budget (timers w')) t w' Ha) as (H1 & H2 & _).
    { intros x Hx Hun. exfalso.
      assert (H : x ∈ unlock_timers w') by (apply list_elem_of_filter; auto).
      rewrite Hnone' in H. inversion H. }
    apply (f_equal pv_currentSlide) in H2. cbn [page_view pv_currentSlide] in H2.
    unfold advance_to. cbn [with_now state]. split; [exact H1 |].
    split; [congruence |].
    apply goToSlide_locked. exact H1.
  - intros v inputs.
    destruct (stuck_run v inputs w' Ha Hnone') as (H1 & _ & H3).
    split; [exact H1 |]. split; [| split; [exact H3 |]].
    + apply (f_equal pv_currentSlide) in H3. cbn [page_view pv_currentSlide] in H3.
      congruence.
    + intros m. now apply goToSlide_locked.
Qed.

Lemma goToSlide_without_button_witness :
  nextBtn (doc (world_of (init Basic (initial_world no_next_doc)))) = None
  /\ exists w',
       goToSlide 2 (world_of (init Basic (initial_world no_next_doc)))
       = Threw TypeError w'
       /\ one_active_at 2 (doc w')
       /\ isAnimating
            (state (run Basic [(100, ClickPrev); (2000, Wheel 120); (5000, Tick)] w'))
          = true.
Proof.
  split; [vm_compute; reflexivity |].
  destruct (goToSlide_without_button 2
              (world_of (init Basic (initial_world no_next_doc))))
    as (w' & H1 & _ & _ & _ & _ & _ & _ & _ & _ & _ & _ & Hone & _ & H2).
  - right. vm_compute. reflexivity.
  - vm_compute. reflexivity.
  - vm_compute. split; discriminate.
  - vm_compute. reflexivity.
  - exists w'. split; [exact H1 |]. split.
    + apply Hone; vm_compute; reflexivity.
    + apply (H2 Basic).
Defined.

(** ** Touch gestures *)

(** X6. A gesture in the desktop variant that starts away from the controls.
    Without a [touchmove] between the two, a [touchstart] and a [touchend]
    (a tap) only record the start position. With a [touchmove], the
    [touchend] compares the two positions: the page goes to the next slide
    when the finger moved left by more than 50 px and further than it moved
    vertically, to the previous slide when it moved right in the same way,
    and nowhere otherwise; a movement of exactly 50 px, or one as long
    vertically as horizontally, does nothing. *)
Theorem desktop_gesture (e0 e1 : TouchEvent) (w : World)
  (Hnav : target_in_navigation e0 = false)
  (Hind : target_in_indicators e0 = false) :
  let dx := screenX e0 - screenX e1 in
  let dy := screenY e0 - screenY e1 in
  let w0 := with_touch (tv_start (screenX e0) (screenY e0)) w in
  let w1 := with_touch (tv_set_isSwiping true) w0 in
  let w2 := with_touch (tv_end (screenX e1) (screenY e1)) w1 in
  Script.touchstartListener e0 w = Returned tt w0
  /\ Script.touchendListener e1 w0 = Returned tt w0
  /\ Script.touchmoveListener w0 = Returned tt w1
  /\ Script.touchmoveListener w1 = Returned tt w1
  /\ (Z.abs dx <= Z.abs dy \/ Z.abs dx <= 50 ->
      Script.touchendListener e1 w1 = Returned tt w2)
  /\ (Z.abs dy < Z.abs dx -> 50 < dx ->
      Script.touchendListener e1 w1 = goToNextSlide w2)
  /\ (Z.abs dy < Z.abs dx -> dx < -50 ->
      Script.touchendListener e1 w1 = goToPreviousSlide w2).
Proof.
  intros dx dy w0 w1 w2.
  assert (Hend : Script.touchendListener e1 w1
                 = Script.handleSwipe (screenX e0) (screenY e0)
                     (screenX e1) (screenY e1) w2) by reflexivity.
  split; [unfold Script.touchstartListener; now rewrite Hnav, Hind |].
  split; [reflexivity |]. split; [reflexivity |]. split; [reflexivity |].
  rewrite Hend. unfold Script.handleSwipe, swipeThreshold. cbv zeta.
  fold dx dy.
  split; [| split].
  - intros [H | H].
    + rewrite (proj2 (Z.ltb_ge _ _) H). reflexivity.
    + rewrite (proj2 (Z.ltb_ge 50 _) H), andb_false_r. reflexivity.
  - intros H1 H2.
    rewrite (proj2 (Z.ltb_lt _ _) H1), (proj2 (Z.ltb_lt 50 (Z.abs dx)) ltac:(lia)).
    cbn [andb]. now rewrite (proj2 (Z.ltb_lt 0 dx) ltac:(lia)).
  - intros H1 H2.
    rewrite (proj2 (Z.ltb_lt _ _) H1), (proj2 (Z.ltb_lt 50 (Z.abs dx)) ltac:(lia)).
    cbn [andb]. now rewrite (proj2 (Z.ltb_ge 0 dx) ltac:(lia)).
Qed.

Lemma desktop_gesture_witness :
  currentSlide
    (state (world_of (Script.touchendListener (touch_at 200 310)
              (with_touch (tv_set_isSwiping true)
                 (with_touch (tv_start 300 300) (after_init sample_doc))))))
  = 2.
Proof.
  destruct (desktop_gesture (touch_at 300 300) (touch_at 200 310)
              (after_init sample_doc) eq_refl eq_refl)
    as (_ & _ & _ & _ & _ & Hnext & _).
  cbn [touch_at screenX screenY] in Hnext.
  rewrite Hnext by lia. vm_compute. reflexivity.
Defined.

(** X7. A gesture in the basic variant. The two listeners look at the
    vertical position only: where the touch started, on a control or not,
    and how far the finger moved horizontally make no difference, and no
    [touchmove] is needed. The page goes to the next slide when the finger
    moved up by more than 50 px, to the previous slide when it moved down by
    more than 50 px, and nowhere otherwise. *)
Theorem basic_gesture (e0 e1 : TouchEvent) (w : World) :
  let dy := screenY e0 - screenY e1 in
  let w0 := with_touch (tv_startY (screenY e0)) w in
  let w1 := with_touch (tv_endY (screenY e1)) w0 in
  Index.touchstartListener e0 w = Returned tt w0
  /\ handle Basic TouchMove w0 = Returned tt w0
  /\ (Z.abs dy <= 50 -> Index.touchendListener e1 w0 = Returned tt w1)
  /\ (50 < dy -> Index.touchendListener e1 w0 = goToNextSlide w1)
  /\ (dy < -50 -> Index.touchendListener e1 w0 = goToPreviousSlide w1)
  /\ (forall e0' e1',
        screenY e0' = screenY e0 -> screenY e1' = screenY e1 ->
        Index.touchendListener e1' (world_of (Index.touchstartListener e0' w))
        = Index.touchendListener e1 w0).
Proof.
  intros dy w0 w1.
  assert (Hend : Index.touchendListener e1 w0
                 = Index.handleSwipe (screenY e0) (screenY e1) w1) by reflexivity.
  assert (Hsame : forall e0' e1',
             screenY e0' = screenY e0 -> screenY e1' = screenY e1 ->
             Index.touchendListener e1' (world_of (Index.touchstartListener e0' w))
             = Index.touchendListener e1 w0).
  { intros e0' e1' H0 H1.
    unfold Index.touchendListener, Index.touchstartListener, bind, mutate.
    cbn [world_of]. now rewrite H0, H1. }
  split; [reflexivity |]. split; [reflexivity |].
  rewrite Hend. unfold Index.handleSwipe, swipeThreshold. cbv zeta. fold dy.
  split; [| split; [| split]].
  - intros H. rewrite (proj2 (Z.ltb_ge 50 _) H). reflexivity.
  - intros H. rewrite (proj2 (Z.ltb_lt 50 (Z.abs dy)) ltac:(lia)).
    now rewrite (proj2 (Z.ltb_lt 0 dy) ltac:(lia)).
  - intros H. rewrite (proj2 (Z.ltb_lt 50 (Z.abs dy)) ltac:(lia)).
    now rewrite (proj2 (Z.ltb_ge 0 dy) ltac:(lia)).
  - intros e0' e1' H0 H1. rewrite (Hsame e0' e1' H0 H1). exact Hend.
Qed.

(** ** Navigation through the fragment of the URL *)

Lemma reachable_map_entry (v : Variant) (d : Document) (w : World)
    (id : string) (n : Z) :
  reachable v d w -> slideIdMap (state w) !! id = Some n ->
  id <> "" /\ 1 <= n <= totalSlides (state w).
Proof.
  intros Hreach Hn.
  destruct (reachable_page_ok v d w Hreach) as [Htot Hmap _ _ _ _ _ _ _].
  cbn in Htot, Hmap. rewrite Hmap in Hn.
  destruct (slideIdMap_from_Some _ _ _ _ _ Hn)
    as [Hemp | (j & s & Hj & _ & Hne & ->)]; [discriminate |].
  split; [exact Hne |]. apply lookup_lt_Some in Hj. lia.
Qed.

(** The test [handleInitialHash] makes before calling [goToSlideById] is the
    one [goToSlideById] makes again, as long as the empty identifier is not a
    key of the map. *)
Lemma handleInitialHash_eq (w : World) :
  slideIdMap (state w) !! "" = None ->
  handleInitialHash w = goToSlideById (substring1 (location_hash (doc w))) w.
Proof.
  intros Hemp. unfold handleInitialHash, goToSlideById, substring1. cbv zeta.
  destruct (location_hash (doc w)) as [| c rest].
  - rewrite Hemp. reflexivity.
  - destruct (String.eqb rest "") eqn:E.
    + apply String.eqb_eq in E. subst rest. rewrite Hemp. reflexivity.
    + cbn [negb andb].
      destruct (slideIdMap (state w) !! rest) as [n |]; [| reflexivity].
      destruct (truthy_number n); reflexivity.
Qed.

(** X8. The [hashchange] listener and [handleInitialHash] in a reachable
    world. Both are [goToSlideById] on the fragment without its first
    character. A fragment that names no slide changes nothing but the
    fragment itself. A fragment that names a slide navigates to it when the
    lock is free; while the lock is taken the event is dropped, so that the
    address shows one slide and the page another. *)
Theorem hash_navigation (v : Variant) (d : Document) (w : World) (h : string)
  (Hreach : reachable v d w) :
  handleInitialHash w = goToSlideById (substring1 (location_hash (doc w))) w
  /\ handle v (HashChange h) w
     = goToSlideById (substring1 h) (with_doc (doc_set_hash h) w)
  /\ (slideIdMap (state w) !! substring1 h = None ->
      handle v (HashChange h) w = Returned tt (with_doc (doc_set_hash h) w))
  /\ (isAnimating (state w) = true ->
      handle v (HashChange h) w = Returned tt (with_doc (doc_set_hash h) w)
      /\ location_hash (doc (world_of (handle v (HashChange h) w))) = h
      /\ currentSlide (state (world_of (handle v (HashChange h) w)))
         = currentSlide (state w))
  /\ (forall n,
        slideIdMap (state w) !! substring1 h = Some n ->
        isAnimating (state w) = false ->
        handle v (HashChange h) w
        = Returned tt (after_goToSlide n (with_doc (doc_set_hash h) w))
        /\ 1 <= n <= totalSlides (state w)).
Proof.
  assert (Hemp : slideIdMap (state w) !! "" = None).
  { destruct (slideIdMap (state w) !! "") as [n |] eqn:E; [| reflexivity].
    now destruct (reachable_map_entry v d w "" n Hreach E). }
  assert (Hhash : handle v (HashChange h) w
                  = goToSlideById (substring1 h) (with_doc (doc_set_hash h) w)).
  { change (handle v (HashChange h) w)
      with (handleInitialHash (with_doc (doc_set_hash h) w)).
    now rewrite handleInitialHash_eq by exact Hemp. }
  split; [now apply handleInitialHash_eq |]. split; [exact Hhash |].
  rewrite Hhash. unfold goToSlideById.
  change (slideIdMap (state (with_doc (doc_set_hash h) w))) with (slideIdMap (state w)).
  split; [intros ->; reflexivity |]. split.
  - intros Hanim.
    assert (H : match slideIdMap (state w) !! substring1 h with
                | Some n => if truthy_number n
                            then goToSlide n (with_doc (doc_set_hash h) w)
                            else Returned tt (with_doc (doc_set_hash h) w)
                | None => Returned tt (with_doc (doc_set_hash h) w)
                end = Returned tt (with_doc (doc_set_hash h) w)).
    { destruct (slideIdMap (state w) !! substring1 h) as [n |]; [| reflexivity].
      destruct (truthy_number n); [| reflexivity].
      apply goToSlide_locked. exact Hanim. }
    rewrite H. split; [reflexivity |]. split; reflexivity.
  - intros n Hn Hanim. rewrite Hn.
    destruct (reachable_map_entry v d w _ n Hreach Hn) as [_ Hrange].
    destruct (reachable_page_ok v d w Hreach) as [_ _ _ _ _ Hprev Hnext _ _].
    cbn in Hprev, Hnext.
    assert (Ht : truthy_number n = true).
    { unfold truthy_number. apply negb_true_iff, Z.eqb_neq. lia. }
    rewrite Ht. split; [| exact Hrange].
    apply (goToSlide_accepted n (with_doc (doc_set_hash h) w) _ _ Hanim Hrange
             Hprev Hnext).
Qed.

Lemma hash_navigation_witness :
  reachable Desktop sample_doc (after_init sample_doc)
  /\ currentSlide
       (state (world_of (handle Desktop (HashChange "#s3") (after_init sample_doc))))
     = 3.
Proof.
  assert (Hreach : reachable Desktop sample_doc (after_init sample_doc)).
  { apply reach_init. vm_compute. reflexivity. }
  split; [exact Hreach |].
  destruct (hash_navigation Desktop sample_doc (after_init sample_doc) "#s3" Hreach)
    as (_ & _ & _ & _ & Hnav).
  destruct (Hnav 3) as [Hgo _]; [vm_compute; reflexivity | reflexivity |].
  rewrite Hgo. reflexivity.
Defined.

(** ** Clicks on the indicators *)

Lemma digit_of_pretty_N_char (y : N) :
  (y < 10)%N -> digit_of (pretty_N_char y) = Some (Z.of_N y).
Proof.
  intros H.
  assert (Hy : (y = 0 \/ y = 1 \/ y = 2 \/ y = 3 \/ y = 4 \/ y = 5 \/ y = 6
                \/ y = 7 \/ y = 8 \/ y = 9)%N) by lia.
  repeat (destruct Hy as [-> | Hy]; [reflexivity |]). subst y. reflexivity.
Qed.

(** Reading back the digits the template literal wrote. *)
Lemma parse_digits_pretty_N_go (x : N) :
  (0 < x)%N ->
  exists m, forall acc s,
    parse_digits acc (pretty_N_go x s)
    = parse_digits (Some (default 0 acc * m + Z.of_N x)) s.
Proof.
  induction (N.lt_wf_0 x) as [x _ IH]. intros Hx.
  assert (Hsplit : Z.of_N x = 10 * Z.of_N (x `div` 10) + Z.of_N (x `mod` 10)).
  { rewrite (N.div_mod x 10) at 1 by lia. lia. }
  destruct (decide (x `div` 10 = 0)%N) as [Hz | Hz].
  - exists 10. intros acc s. rewrite pretty_N_go_step by exact Hx.
    rewrite Hz, pretty_N_go_0. cbn [parse_digits].
    rewrite digit_of_pretty_N_char by (apply N.mod_lt; lia).
    rewrite Hz in Hsplit. do 2 f_equal. lia.
  - destruct (IH (x `div` 10)%N) as [m Hm];
      [apply N.div_lt; lia | now apply N.neq_0_lt_0 |].
    exists (m * 10). intros acc s. rewrite pretty_N_go_step by exact Hx.
    rewrite Hm. cbn [parse_digits].
    rewrite digit_of_pretty_N_char by (apply N.mod_lt; lia).
    do 2 f_equal. cbn [default from_option id]. lia.
Qed.

Lemma pretty_N_go_head (x : N) (s : string) :
  (0 < x)%N ->
  exists y r, (y < 10)%N /\ pretty_N_go x s = String (pretty_N_char y) r.
Proof.
  revert s. induction (N.lt_wf_0 x) as [x _ IH]. intros s Hx.
  rewrite pretty_N_go_step by exact Hx.
  destruct (decide (x `div` 10 = 0)%N) as [Hz | Hz].
  - rewrite Hz, pretty_N_go_0. exists (x `mod` 10)%N, s.
    split; [apply N.mod_lt; lia | reflexivity].
  - apply IH; [apply N.div_lt; lia | now apply N.neq_0_lt_0].
Qed.

Lemma parseInt10_digit_first (y : N) (r : string) :
  (y < 10)%N ->
  parseInt10 (Some (String (pretty_N_char y) r))
  = parse_digits None (String (pretty_N_char y) r).
Proof.
  intros H.
  assert (Hy : (y = 0 \/ y = 1 \/ y = 2 \/ y = 3 \/ y = 4 \/ y = 5 \/ y = 6
                \/ y = 7 \/ y = 8 \/ y = 9)%N) by lia.
  destruct r as [| c2 [| c3 r]];
    repeat (destruct Hy as [-> | Hy]; [reflexivity |]); subst y; reflexivity.
Qed.

Lemma parseInt10_minus_first (y : N) (r : string) :
  (y < 10)%N ->
  parseInt10 (Some (String "-" (String (pretty_N_char y) r)))
  = Z.opp <$> parse_digits None (String (pretty_N_char y) r).
Proof.
  intros H.
  assert (Hy : (y = 0 \/ y = 1 \/ y = 2 \/ y = 3 \/ y = 4 \/ y = 5 \/ y = 6
                \/ y = 7 \/ y = 8 \/ y = 9)%N) by lia.
  destruct r as [| c3 r];
    repeat (destruct Hy as [-> | Hy]; [reflexivity |]); subst y; reflexivity.
Qed.

Lemma parse_pretty_positive (p : positive) :
  parse_digits None (pretty_N_go (N.pos p) "") = Some (Z.pos p)
  /\ parseInt10 (Some (pretty_N_go (N.pos p) "")) = Some (Z.pos p)
  /\ parseInt10 (Some (String "-" (pretty_N_go (N.pos p) ""))) = Some (Z.neg p).
Proof.
  destruct (parse_digits_pretty_N_go (N.pos p) ltac:(lia)) as [m Hm].
  assert (H : parse_digits None (pretty_N_go (N.pos p) "") = Some (Z.pos p)).
  { rewrite Hm. cbn [parse_digits default from_option]. reflexivity. }
  split; [exact H |].
  destruct (pretty_N_go_head (N.pos p) "" ltac:(lia)) as (y & r & Hy & E).
  split.
  - rewrite E, (parseInt10_digit_first y r Hy), <- E. exact H.
  - rewrite E, (parseInt10_minus_first y r Hy), <- E, H. reflexivity.
Qed.

(** [parseInt] reads back the integer a template literal wrote. *)
Lemma parseInt10_number_toString (n : Z) :
  parseInt10 (Some (number_toString n)) = Some n.
Proof.
  destruct n as [| p | p].
  - reflexivity.
  - change (number_toString (Z.pos p)) with (pretty_N_go (N.pos p) "").
    apply parse_pretty_positive.
  - change (number_toString (Z.neg p)) with (String "-" (pretty_N_go (N.pos p) "")).
    apply parse_pretty_positive.
Qed.

(** X9. On a page that keeps the contract, a click on the indicator at
    position [k] (counted from 0) is [goToSlide (k + 1)]: the number the
    listener parses from [data-slide] is the position of the indicator. With
    the lock free the page then shows slide [k + 1]. *)
Theorem indicator_click_navigates (v : Variant) (d : Document) (w : World) (k : nat)
  (Hcontract : dom_contract d)
  (Hreach : reachable v d w)
  (Hk : (k < length (slides d))%nat) :
  indicatorClick k w = goToSlide (Z.of_nat k + 1) w
  /\ handle v (ClickIndicator k) w = goToSlide (Z.of_nat k + 1) w
  /\ (isAnimating (state w) = false ->
      indicatorClick k w = Returned tt (after_goToSlide (Z.of_nat k + 1) w)
      /\ page_view (after_goToSlide (Z.of_nat k + 1) w) = view_at d (Z.of_nat k + 1)).
Proof.
  pose proof (reachable_page_ok v d w Hreach) as Hok.
  destruct (page_ok_contract d w Hcontract Hok) as (Hlen & Hleni & _ & _ & Hind).
  assert (Hclick : indicatorClick k w = goToSlide (Z.of_nat k + 1) w).
  { assert (Hlt : (k < length (indicators (doc w)))%nat) by lia.
    destruct (lookup_lt_is_Some_2 _ _ Hlt) as [el Hel].
    unfold indicatorClick. rewrite Hel.
    rewrite (data_at_position ind_data _ _ _ Hind Hel).
    now rewrite parseInt10_number_toString. }
  split; [exact Hclick |]. split; [exact Hclick |].
  intros Hanim. rewrite Hclick.
  pose proof Hok as [Htot _ _ _ _ Hprev Hnext _ _]. cbn in Htot, Hprev, Hnext.
  split.
  - apply (goToSlide_accepted (Z.of_nat k + 1) w _ _ Hanim ltac:(lia) Hprev Hnext).
  - apply view_after_goToSlide; [exact Hcontract | exact Hok | lia].
Qed.

Lemma indicator_click_navigates_witness :
  dom_contract sample_doc
  /\ reachable Basic sample_doc (after_init sample_doc)
  /\ currentSlide (state (world_of (indicatorClick 3 (after_init sample_doc)))) = 4.
Proof.
  assert (Hreach : reachable Basic sample_doc (after_init sample_doc)).
  { apply reach_init. vm_compute. reflexivity. }
  split; [exact sample_contract |]. split; [exact Hreach |].
  destruct (indicator_click_navigates Basic sample_doc (after_init sample_doc) 3
              sample_contract Hreach ltac:(cbn; lia)) as (_ & _ & Hgo).
  destruct (Hgo eq_refl) as [-> _]. reflexivity.
Defined.

(** ** Runs as sequences of moves *)

Lemma moves_refl (w : World) : moves w w.
Proof. apply rtc_refl. Qed.

Lemma moves_trans (w1 w2 w3 : World) : moves w1 w2 -> moves w2 w3 -> moves w1 w3.
Proof. intros H1 H2. etrans; eassumption. Qed.

Lemma moves_goToSlide (n : Z) (w : World) : moves w (world_of (goToSlide n w)).
Proof. apply rtc_once, move_goToSlide. Qed.

Ltac inert :=
  apply rtc_once, move_inert; try reflexivity; try apply Z.le_refl.

Lemma moves_goToPreviousSlide (w : World) : moves w (world_of (goToPreviousSlide w)).
Proof. rewrite goToPreviousSlide_eq. apply moves_goToSlide. Qed.

Lemma moves_goToNextSlide (w : World) : moves w (world_of (goToNextSlide w)).
Proof. rewrite goToNextSlide_eq. apply moves_goToSlide. Qed.

Lemma moves_goToSlideById (id : string) (w : World) :
  moves w (world_of (goToSlideById id w)).
Proof.
  unfold goToSlideById. destruct (slideIdMap (state w) !! id) as [n |].
  - destruct (truthy_number n); [apply moves_goToSlide | apply moves_refl].
  - apply moves_refl.
Qed.

Lemma moves_handleInitialHash (w : World) : moves w (world_of (handleInitialHash w)).
Proof.
  unfold handleInitialHash.
  destruct (_ && _)%bool; [apply moves_goToSlideById | apply moves_refl].
Qed.

Lemma fire_unlock_eq (tm : Timer) (w : World) :
  timer_cb tm = CbUnlock ->
  fire tm w
  = emit (SetIsAnimating false) (with_state (st_set_isAnimating false) (dequeued tm w)).
Proof.
  intros Hcb.
  change (fire tm w) with (world_of (run_callback (timer_cb tm) (dequeued tm w))).
  generalize (dequeued tm w). intros w'. rewrite Hcb. reflexivity.
Qed.

Lemma fire_wheel_eq (tm : Timer) (deltaY : Z) (w : World) :
  timer_cb tm = CbWheel deltaY ->
  fire tm w
  = world_of (goToSlide (currentSlide (state w) + (if 0 <? deltaY then 1 else -1))
                (dequeued tm w)).
Proof.
  intros Hcb.
  change (fire tm w) with (world_of (run_callback (timer_cb tm) (dequeued tm w))).
  change (currentSlide (state w)) with (currentSlide (state (dequeued tm w))).
  generalize (dequeued tm w). intros w'.
  rewrite Hcb. cbn [run_callback]. destruct (0 <? deltaY).
  - now rewrite goToNextSlide_eq.
  - rewrite goToPreviousSlide_eq. reflexivity.
Qed.

Lemma moves_fire (tm : Timer) (w : World) : tm ∈ timers w -> moves w (fire tm w).
Proof.
  intros Hin. destruct (timer_cb tm) as [| deltaY] eqn:Hcb.
  - apply rtc_once. now apply move_release.
  - rewrite (fire_wheel_eq tm deltaY w Hcb).
    eapply moves_trans; [| apply moves_goToSlide].
    apply rtc_once, move_dequeue; [exact Hin |]. unfold is_wheel. now rewrite Hcb.
Qed.

Lemma moves_run_timers (fuel : nat) (t : Z) (w : World) :
  moves w (run_timers fuel t w).
Proof.
  revert w. induction fuel as [| fuel IH]; intros w; cbn [run_timers].
  - apply moves_refl.
  - destruct (next_due t (timers w)) as [tm |] eqn:Hdue; [| apply moves_refl].
    eapply moves_trans; [| apply IH].
    apply moves_fire. now apply next_due_In in Hdue.
Qed.

Lemma moves_advance_to (t : Z) (w : World) : moves w (advance_to t w).
Proof.
  unfold advance_to. eapply moves_trans; [apply moves_run_timers |].
  inert. cbn [with_now now]. lia.
Qed.

Lemma moves_handle (v : Variant) (i : Input) (w : World) :
  moves w (world_of (handle v i w)).
Proof.
  destruct i; try (rewrite handle_wheel_eq); cbn [handle world_of].
  - apply moves_refl.
  - apply moves_goToPreviousSlide.
  - apply moves_goToNextSlide.
  - destruct v; [apply moves_goToNextSlide | apply moves_refl].
  - unfold indicatorClick. destruct (indicators (doc w) !! indicator) as [el |].
    + destruct (parseInt10 (ind_data el)); [apply moves_goToSlide | apply moves_refl].
    + apply moves_refl.
  - unfold keydownListener.
    destruct (_ || _)%bool; [apply moves_goToPreviousSlide |].
    destruct (_ || _)%bool; [apply moves_goToNextSlide | apply moves_refl].
  - destruct (wheel_accepts v deltaY (doc w));
      [apply rtc_once, move_wheel | apply moves_refl].
  - destruct v.
    + unfold Script.touchstartListener.
      destruct (_ || _)%bool; [apply moves_refl |]. inert.
    + inert.
  - destruct v; [| apply moves_refl].
    unfold Script.touchmoveListener.
    destruct (negb _); [| apply moves_refl]. inert.
  - destruct v.
    + unfold Script.touchendListener.
      destruct (negb _); [apply moves_refl |].
      unfold bind, mutate.
      eapply moves_trans; [| unfold Script.handleSwipe; cbn zeta;
                             destruct (_ && _)%bool; [| apply moves_refl];
                             destruct (0 <? _);
                             [apply moves_goToNextSlide | apply moves_goToPreviousSlide]].
      inert.
    + unfold Index.touchendListener, bind, mutate.
      eapply moves_trans; [| unfold Index.handleSwipe; cbn zeta;
                             destruct (swipeThreshold <? _); [| apply moves_refl];
                             destruct (0 <? _);
                             [apply moves_goToNextSlide | apply moves_goToPreviousSlide]].
      inert.
  - unfold bind, mutate.
    eapply moves_trans; [| apply moves_handleInitialHash]. inert.
  - apply moves_handleInitialHash.
  - apply moves_goToSlide.
  - apply moves_goToSlideById.
  - inert.
  - apply rtc_once, move_inert; try reflexivity.
    unfold mutate, page_view. cbn.
    destruct (slide_id_alter_scroll top slide (slides (doc w))) as (-> & -> & ->).
    reflexivity.
Qed.

Lemma moves_step (v : Variant) (w : World) (ti : Z * Input) : moves w (step v w ti).
Proof.
  unfold step. eapply moves_trans; [apply moves_advance_to | apply moves_handle].
Qed.

(** A call of [goToSlide] on a page with its buttons is dropped or gives
    [after_goToSlide]. *)
Lemma goToSlide_cases (d : Document) (n : Z) (w : World) :
  page_ok d (page_view w) ->
  world_of (goToSlide n w) = w
  \/ (isAnimating (state w) = false
      /\ 1 <= n <= totalSlides (state w)
      /\ world_of (goToSlide n w) = after_goToSlide n w).
Proof.
  intros Hok.
  destruct (isAnimating (state w) || negb (isValidSlideNumber n (state w)))
    eqn:Hguard.
  { left. now rewrite goToSlide_guard_true by exact Hguard. }
  apply orb_false_iff in Hguard as [Hanim Hvalid].
  apply negb_false_iff, isValidSlideNumber_spec in Hvalid.
  destruct Hok as [_ _ _ _ _ Hprev Hnext _ _]. cbn in Hprev, Hnext.
  right. split; [exact Hanim |]. split; [exact Hvalid |].
  now rewrite (goToSlide_accepted n w _ _ Hanim Hvalid Hprev Hnext).
Qed.

Lemma move_page_ok (d : Document) (w w' : World) :
  move w w' -> page_ok d (page_view w) -> page_ok d (page_view w').
Proof.
  intros Hmove Hok.
  destruct Hmove as [n w | deltaY w | tm w _ Hcb | tm w _ _ | w w' _ _ _ _ Hview _ _ _].
  - now apply page_ok_goToSlide.
  - exact Hok.
  - unfold fire. rewrite Hcb. exact Hok.
  - exact Hok.
  - now rewrite Hview.
Qed.

(** A property of the world that every move keeps holds along every run. *)
Lemma moves_invariant (d : Document) (Q : World -> Prop) :
  (forall w w', move w w' -> page_ok d (page_view w) -> Q w -> Q w') ->
  forall w w', moves w w' -> page_ok d (page_view w) -> Q w ->
               page_ok d (page_view w') /\ Q w'.
Proof.
  intros Hmove w w' Hmoves.
  induction Hmoves as [| w1 w2 w3 Hstep _ IH]; [auto |].
  intros Hok HQ. apply IH.
  - now apply (move_page_ok d w1 w2).
  - now apply (Hmove w1 w2).
Qed.

Lemma reachable_by_moves (v : Variant) (d : Document) (Q : World -> Prop) :
  Q (after_init d) ->
  (forall w w', move w w' -> page_ok d (page_view w) -> Q w -> Q w') ->
  forall w, reachable v d w -> Q w.
Proof.
  intros Hinit Hmove w Hreach. induction Hreach as [w Hw | w ti Hreach IH].
  - destruct (init_returned v d w Hw) as (_ & _ & ->). exact Hinit.
  - eapply moves_invariant;
      [exact Hmove | apply moves_step | exact (reachable_page_ok v d w Hreach)
       | exact IH].
Qed.

(** ** The timer queue along a run *)

Lemma timer_kind (tm : Timer) : is_unlock tm \/ is_wheel tm.
Proof. unfold is_unlock, is_wheel. destruct (timer_cb tm); auto. Qed.

Lemma wheel_not_unlock (tm : Timer) : is_wheel tm -> ~ is_unlock tm.
Proof. unfold is_unlock, is_wheel. now destruct (timer_cb tm). Qed.

Lemma filter_unlock_keep (P : Timer -> Prop) `{!forall x, Decision (P x)}
    (l : list Timer) :
  (forall x, x ∈ l -> is_unlock x -> P x) ->
  filter is_unlock (filter P l) = filter is_unlock l.
Proof.
  induction l as [| y l IH]; intros Hkeep; [reflexivity |].
  assert (IH' : filter is_unlock (filter P l) = filter is_unlock l).
  { apply IH. intros x Hx. apply Hkeep. now right. }
  rewrite (filter_cons P). destruct (decide (P y)) as [HP | HP].
  - rewrite !filter_cons. destruct (decide (is_unlock y)); now rewrite IH'.
  - rewrite filter_cons. destruct (decide (is_unlock y)) as [Hy | Hy]; [| exact IH'].
    contradiction HP. apply Hkeep; [left | exact Hy].
Qed.

Lemma sched_ok_init (d : Document) : sched_ok (after_init d).
Proof.
  split; cbn.
  - split; [apply NoDup_nil_2 | apply Forall_nil_2].
  - discriminate.
  - reflexivity.
  - intros tm H. inversion H.
  - intros tm H. inversion H.
  - discriminate.
  - intros tm H. inversion H.
  - intros tm H. inversion H.
Qed.

Lemma sched_ok_after_goToSlide (n : Z) (w : World) :
  sched_ok w -> isAnimating (state w) = false -> sched_ok (after_goToSlide n w).
Proof.
  intros [Hf Hl Hfr Hw Hu Hs Hwd Hud] Hanim.
  pose proof (Hfr Hanim) as Hnone.
  split.
  - apply fresh_list_snoc. exact Hf.
  - intros _. exists (unlock_timer w).
    now rewrite unlock_timers_after_goToSlide, Hnone.
  - cbn [after_goToSlide state isAnimating]. discriminate.
  - cbn [after_goToSlide timers scrollTimeout]. intros tm Hin Hwh.
    apply elem_of_app in Hin as [Hin | Hin]; [now apply Hw |].
    apply list_elem_of_singleton in Hin. subst tm. destruct Hwh.
  - cbn [after_goToSlide timers scrollTimeout]. intros tm Hin Hun.
    apply elem_of_app in Hin as [Hin | Hin]; [now apply Hu |].
    apply list_elem_of_singleton in Hin. subst tm.
    intros E. specialize (Hs _ E). cbn in Hs. lia.
  - cbn [after_goToSlide next_timer_id scrollTimeout]. intros k Hk.
    specialize (Hs k Hk). lia.
  - cbn [after_goToSlide timers now]. intros tm Hin Hwh.
    apply elem_of_app in Hin as [Hin | Hin]; [now apply Hwd |].
    apply list_elem_of_singleton in Hin. subst tm. destruct Hwh.
  - cbn [after_goToSlide timers now]. intros tm Hin Hun.
    apply elem_of_app in Hin as [Hin | Hin]; [now apply Hud |].
    apply list_elem_of_singleton in Hin. subst tm. cbn. lia.
Qed.

(** The wheel listener's [clearTimeout] leaves the release of the lock in
    the queue. *)
Lemma unlock_timers_after_wheel (deltaY : Z) (w : World) :
  sched_ok w -> unlock_timers (after_wheel deltaY w) = unlock_timers w.
Proof.
  intros [_ _ _ _ Hu _ _ _]. unfold unlock_timers. cbn [after_wheel timers].
  rewrite unlock_timers_snoc_wheel. apply filter_unlock_keep.
  intros x Hx Hun E. now apply (Hu x Hx Hun).
Qed.

Lemma sched_ok_after_wheel (deltaY : Z) (w : World) :
  sched_ok w -> sched_ok (after_wheel deltaY w).
Proof.
  intros Hok. pose proof (unlock_timers_after_wheel deltaY w Hok) as Hsame.
  destruct Hok as [Hf Hl Hfr Hw Hu Hs Hwd Hud].
  split.
  - apply fresh_list_snoc. now apply fresh_list_filter.
  - rewrite Hsame. exact Hl.
  - rewrite Hsame. exact Hfr.
  - cbn [after_wheel timers scrollTimeout]. intros tm Hin Hwh.
    apply elem_of_app in Hin as [Hin | Hin].
    + apply list_elem_of_filter in Hin as [Hne Hin].
      contradiction Hne. symmetry. now apply Hw.
    + apply list_elem_of_singleton in Hin. now subst tm.
  - cbn [after_wheel timers scrollTimeout]. intros tm Hin Hun.
    apply elem_of_app in Hin as [Hin | Hin].
    + apply list_elem_of_filter in Hin as [_ Hin].
      destruct Hf as [_ Hlt]. rewrite Forall_forall in Hlt.
      specialize (Hlt tm Hin). intros [= E]. lia.
    + apply list_elem_of_singleton in Hin. subst tm. discriminate Hun.
  - cbn [after_wheel next_timer_id scrollTimeout]. intros k [= <-]. lia.
  - cbn [after_wheel timers now]. intros tm Hin Hwh.
    apply elem_of_app in Hin as [Hin | Hin].
    + apply list_elem_of_filter in Hin as [_ Hin]. now apply Hwd.
    + apply list_elem_of_singleton in Hin. subst tm. cbn. lia.
  - cbn [after_wheel timers now]. intros tm Hin Hun.
    apply elem_of_app in Hin as [Hin | Hin].
    + apply list_elem_of_filter in Hin as [_ Hin]. now apply Hud.
    + apply list_elem_of_singleton in Hin. subst tm. discriminate Hun.
Qed.

Lemma timers_dequeued (tm : Timer) (w : World) :
  timers (dequeued tm w) = filter (fun x => timer_id x <> timer_id tm) (timers w).
Proof. reflexivity. Qed.

(** A wheel callback leaving the queue leaves the release in it. *)
Lemma unlock_timers_dequeued (tm : Timer) (w : World) :
  timers_fresh w -> tm ∈ timers w -> is_wheel tm ->
  unlock_timers (dequeued tm w) = unlock_timers w.
Proof.
  intros [Hnd _] Hin Hwh. unfold unlock_timers. rewrite timers_dequeued.
  apply filter_unlock_keep. intros x Hx Hun E.
  assert (x = tm) by (eapply timer_id_inj; eauto). subst x.
  now apply (wheel_not_unlock tm).
Qed.

Lemma sched_ok_dequeued (tm : Timer) (w : World) :
  tm ∈ timers w -> is_wheel tm -> sched_ok w -> sched_ok (dequeued tm w).
Proof.
  intros Hin Hwh [Hf Hl Hfr Hw Hu Hs Hwd Hud].
  pose proof (unlock_timers_dequeued tm w Hf Hin Hwh) as Hsame.
  split.
  - now apply fresh_list_filter.
  - rewrite Hsame. exact Hl.
  - rewrite Hsame. exact Hfr.
  - rewrite timers_dequeued. intros x Hx. apply list_elem_of_filter in Hx as [_ Hx].
    now apply Hw.
  - rewrite timers_dequeued. intros x Hx. apply list_elem_of_filter in Hx as [_ Hx].
    now apply Hu.
  - exact Hs.
  - rewrite timers_dequeued. intros x Hx Hxw.
    apply list_elem_of_filter in Hx as [_ Hx].
    specialize (Hwd x Hx Hxw). cbn [dequeued emit with_timers with_now now]. lia.
  - rewrite timers_dequeued. intros x Hx Hxu.
    apply list_elem_of_filter in Hx as [_ Hx].
    specialize (Hud x Hx Hxu). cbn [dequeued emit with_timers with_now now]. lia.
Qed.

Lemma sched_ok_release (tm : Timer) (w : World) :
  tm ∈ timers w -> timer_cb tm = CbUnlock -> sched_ok w -> sched_ok (fire tm w).
Proof.
  intros Hin Hcb [Hf Hl Hfr Hw Hu Hs Hwd Hud].
  rewrite (fire_unlock_eq tm w Hcb).
  assert (Hnone : filter is_unlock (filter (fun x => timer_id x <> timer_id tm) (timers w))
                  = []).
  { apply unlock_timers_after_release; [exact Hin | exact Hcb |].
    fold (unlock_timers w).
    destruct (isAnimating (state w)) eqn:E.
    - destruct (Hl eq_refl) as [x ->]. cbn. lia.
    - rewrite (Hfr eq_refl). cbn. lia. }
  split.
  - now apply fresh_list_filter.
  - cbn. discriminate.
  - intros _. exact Hnone.
  - intros x Hx. change (x ∈ timers (dequeued tm w)) in Hx. rewrite timers_dequeued in Hx.
    apply list_elem_of_filter in Hx as [_ Hx]. now apply Hw.
  - intros x Hx. change (x ∈ timers (dequeued tm w)) in Hx. rewrite timers_dequeued in Hx.
    apply list_elem_of_filter in Hx as [_ Hx]. now apply Hu.
  - exact Hs.
  - intros x Hx Hxw. change (x ∈ timers (dequeued tm w)) in Hx.
    rewrite timers_dequeued in Hx. apply list_elem_of_filter in Hx as [_ Hx].
    specialize (Hwd x Hx Hxw). cbn. lia.
  - intros x Hx Hxu. change (x ∈ timers (dequeued tm w)) in Hx.
    rewrite timers_dequeued in Hx. apply list_elem_of_filter in Hx as [_ Hx].
    specialize (Hud x Hx Hxu). cbn. lia.
Qed.

Lemma move_sched_ok (d : Document) (w w' : World) :
  move w w' -> page_ok d (page_view w) -> sched_ok w -> sched_ok w'.
Proof.
  intros Hmove Hok Hs.
  destruct Hmove as [n w | deltaY w | tm w Hin Hcb | tm w Hin Hwh
                     | w w' Hst Htm Hnid Hsc Hview Hhist Hlog Hnow].
  - destruct (goToSlide_cases d n w Hok) as [-> | (Hanim & _ & ->)]; [exact Hs |].
    now apply sched_ok_after_goToSlide.
  - now apply sched_ok_after_wheel.
  - now apply sched_ok_release.
  - now apply sched_ok_dequeued.
  - destruct Hs as [Hf Hl Hfr Hw Hu Hsc' Hwd Hud].
    split; unfold timers_fresh, unlock_timers in *;
      rewrite ?Hst, ?Htm, ?Hnid, ?Hsc; try assumption.
    + intros x Hx Hxw. specialize (Hwd x Hx Hxw). lia.
    + intros x Hx Hxu. specialize (Hud x Hx Hxu). lia.
Qed.

Lemma reachable_sched_ok (v : Variant) (d : Document) (w : World) :
  reachable v d w -> sched_ok w.
Proof.
  apply (reachable_by_moves v d sched_ok); [apply sched_ok_init |].
  intros w1 w2. apply move_sched_ok.
Qed.

(** At most one wheel callback is pending. *)
Lemma wheel_timers_at_most_one (w : World) :
  sched_ok w ->
  wheel_timers w = []
  \/ exists tm, wheel_timers w = [tm] /\ scrollTimeout w = Some (timer_id tm).
Proof.
  intros [[Hnd _] _ _ Hw _ _ _ _].
  assert (Hall : forall x, x ∈ wheel_timers w -> x ∈ timers w /\ is_wheel x).
  { intros x Hx. apply list_elem_of_filter in Hx. tauto. }
  assert (Hndw : NoDup (wheel_timers w)).
  { apply NoDup_filter. eapply NoDup_fmap_1. exact Hnd. }
  destruct (wheel_timers w) as [| a [| b l]] eqn:E; [now left | |].
  - right. exists a. split; [reflexivity |].
    destruct (Hall a ltac:(left)) as [Ha Hwa]. now apply Hw.
  - exfalso.
    destruct (Hall a ltac:(left)) as [Ha Hwa].
    destruct (Hall b ltac:(right; left)) as [Hb Hwb].
    pose proof (Hw a Ha Hwa) as Ea. pose proof (Hw b Hb Hwb) as Eb.
    assert (a = b) by (eapply timer_id_inj; eauto; congruence). subst b.
    apply NoDup_cons in Hndw as [Hnot _]. apply Hnot. left.
Qed.

(** X11. The timer queue in a reachable world. At most one wheel callback
    is pending; it is the one the listener's variable [scrollTimeout] names,
    and it is due within 50 ms. The identifier in [scrollTimeout] is never
    that of a pending release of the lock, so the [clearTimeout] of the
    wheel listener cannot cancel a release: a wheel event leaves the pending
    releases as they are. At most two timers are pending. *)
Theorem wheel_timer_single (v : Variant) (d : Document) (w : World)
  (Hreach : reachable v d w) :
  (wheel_timers w = []
   \/ exists tm, wheel_timers w = [tm]
                 /\ scrollTimeout w = Some (timer_id tm)
                 /\ timer_due tm <= now w + 50)
  /\ (forall tm, tm ∈ timers w -> scrollTimeout w = Some (timer_id tm) -> is_wheel tm)
  /\ (forall deltaY,
        unlock_timers (world_of (handle v (Wheel deltaY) w)) = unlock_timers w)
  /\ (length (timers w) <= 2)%nat.
Proof.
  pose proof (reachable_sched_ok v d w Hreach) as Hs.
  pose proof (wheel_timers_at_most_one w Hs) as Hone.
  pose proof Hs as [Hf Hl Hfr Hw Hu Hsc Hwd Hud].
  split; [| split; [| split]].
  - destruct Hone as [Hnone | (tm & Htm & Hid)]; [now left |].
    right. exists tm. split; [exact Htm |]. split; [exact Hid |].
    assert (Hin : tm ∈ wheel_timers w) by (rewrite Htm; left).
    apply list_elem_of_filter in Hin as [Hwh Hin].
    exact (Hwd tm Hin Hwh).
  - intros tm Hin Hid. destruct (timer_kind tm) as [Hun | Hwh]; [| exact Hwh].
    now destruct (Hu tm Hin Hun).
  - intros deltaY. rewrite handle_wheel_eq. cbn [world_of].
    destruct (wheel_accepts v deltaY (doc w)); [| reflexivity].
    now apply unlock_timers_after_wheel.
  - assert (Hlen : length (timers w)
                   = (length (unlock_timers w) + length (wheel_timers w))%nat).
    { unfold unlock_timers, wheel_timers. clear.
      induction (timers w) as [| x l IH]; [reflexivity |].
      rewrite !filter_cons. destruct (timer_kind x) as [Hx | Hx].
      - destruct (decide (is_unlock x)); [| contradiction].
        destruct (decide (is_wheel x)) as [Hx' |];
          [now destruct (wheel_not_unlock x Hx') |].
        cbn [length]. lia.
      - destruct (decide (is_wheel x)); [| contradiction].
        destruct (decide (is_unlock x)) as [Hx' |];
          [now destruct (wheel_not_unlock x Hx) |].
        cbn [length]. lia. }
    assert (Hlu : (length (unlock_timers w) <= 1)%nat).
    { destruct (isAnimating (state w)) eqn:E.
      - destruct (Hl eq_refl) as [x ->]. cbn. lia.
      - rewrite (Hfr eq_refl). cbn. lia. }
    assert (Hlw : (length (wheel_timers w) <= 1)%nat).
    { destruct Hone as [-> | (tm & -> & _)]; cbn; lia. }
    lia.
Qed.

Lemma wheel_timer_single_witness :
  reachable Basic sample_doc
    (run Basic [(0, Wheel 120); (10, ClickNext); (20, Wheel 120)]
       (after_init sample_doc))
  /\ length (timers (run Basic [(0, Wheel 120); (10, ClickNext); (20, Wheel 120)]
                       (after_init sample_doc))) = 2%nat.
Proof.
  assert (Hreach : reachable Basic sample_doc
                     (run Basic [(0, Wheel 120); (10, ClickNext); (20, Wheel 120)]
                        (after_init sample_doc))).
  { cbn [run fold_left]. do 3 apply reach_step. apply reach_init.
    vm_compute. reflexivity. }
  split; [exact Hreach |].
  destruct (wheel_timer_single Basic sample_doc _ Hreach) as (_ & _ & _ & Hle).
  apply Nat.le_antisymm; [exact Hle |]. vm_compute. repeat constructor.
Defined.

(** X12. The lock is never left taken without its release. In a reachable
    world the lock is taken exactly when a release is pending; there is then
    exactly one, due within 600 ms. *)
Theorem lock_has_release (v : Variant) (d : Document) (w : World)
  (Hreach : reachable v d w) :
  (isAnimating (state w) = true <->
   exists tm, unlock_timers w = [tm] /\ timer_due tm <= now w + 600)
  /\ (isAnimating (state w) = false <-> unlock_timers w = []).
Proof.
  pose proof (reachable_sched_ok v d w Hreach) as [Hf Hl Hfr Hw Hu Hsc Hwd Hud].
  split; split.
  - intros Hanim. destruct (Hl Hanim) as [tm Htm]. exists tm. split; [exact Htm |].
    assert (Hin : tm ∈ unlock_timers w) by (rewrite Htm; left).
    apply list_elem_of_filter in Hin as [Hun Hin]. exact (Hud tm Hin Hun).
  - intros (tm & Htm & _). destruct (isAnimating (state w)); [reflexivity |].
    rewrite (Hfr eq_refl) in Htm. discriminate.
  - exact Hfr.
  - intros Hnone. destruct (isAnimating (state w)); [| reflexivity].
    destruct (Hl eq_refl) as [tm Htm]. rewrite Hnone in Htm. discriminate.
Qed.

Lemma lock_has_release_witness :
  reachable Desktop sample_doc (step Desktop (after_init sample_doc) (5, ClickNext))
  /\ exists tm,
       unlock_timers (step Desktop (after_init sample_doc) (5, ClickNext)) = [tm]
       /\ timer_due tm <= 5 + 600.
Proof.
  assert (Hreach : reachable Desktop sample_doc
                     (step Desktop (after_init sample_doc) (5, ClickNext))).
  { apply reach_step, reach_init. vm_compute. reflexivity. }
  split; [exact Hreach |].
  apply (proj1 (proj1 (lock_has_release Desktop sample_doc _ Hreach))).
  vm_compute. reflexivity.
Defined.

(** ** The view follows the navigation *)

Lemma view_ok_same (d : Document) (w w' : World) :
  transitions (log w') = transitions (log w) -> page_view w' = page_view w ->
  view_ok d w -> view_ok d w'.
Proof.
  intros Hlog Hview Hv.
  assert (Hcur : currentSlide (state w') = currentSlide (state w))
    by exact (f_equal pv_currentSlide Hview).
  unfold view_ok. rewrite Hlog, Hview, Hcur. exact Hv.
Qed.

Lemma transitions_snoc_other (l : list Effect) (e : Effect) :
  (forall n, e <> SetCurrentSlide n) -> transitions (l ++ [e]) = transitions l.
Proof.
  intros He. rewrite transitions_app.
  destruct e; cbn; try apply app_nil_r. now destruct (He n).
Qed.

Lemma move_view_ok (d : Document) (w w' : World) :
  dom_contract d ->
  move w w' -> page_ok d (page_view w) -> view_ok d w -> view_ok d w'.
Proof.
  intros Hc Hmove Hok Hv.
  destruct Hmove as [n w | deltaY w | tm w Hin Hcb | tm w Hin Hwh
                     | w w' Hst Htm Hnid Hsc Hview Hhist Hlog Hnow].
  - destruct (goToSlide_cases d n w Hok) as [-> | (Hanim & Hn & ->)]; [exact Hv |].
    pose proof Hok as [Htot _ _ _ _ _ _ _ _]. cbn in Htot.
    right.
    change (currentSlide (state (after_goToSlide n w))) with n.
    change (log (after_goToSlide n w)) with (log w ++ goToSlide_effects n w).
    split; [| split; [lia |]].
    + rewrite transitions_app, (proj2 (goToSlide_effects_summary n w)).
      apply last_snoc.
    + apply view_after_goToSlide; [exact Hc | exact Hok | lia].
  - apply (view_ok_same d w); [| reflexivity | exact Hv].
    cbn [after_wheel log]. rewrite transitions_app. cbn. apply app_nil_r.
  - apply (view_ok_same d w); [| now rewrite fire_unlock_eq | exact Hv].
    rewrite fire_unlock_eq by exact Hcb. cbn [emit log].
    rewrite transitions_snoc_other by discriminate.
    cbn [with_state dequeued emit log]. now rewrite transitions_snoc_other.
  - apply (view_ok_same d w); [| reflexivity | exact Hv].
    cbn [dequeued emit log]. now rewrite transitions_snoc_other.
  - apply (view_ok_same d w); [now rewrite Hlog | exact Hview | exact Hv].
Qed.

Lemma reachable_view_ok (v : Variant) (d : Document) (w : World) :
  dom_contract d -> reachable v d w -> view_ok d w.
Proof.
  intros Hc. apply (reachable_by_moves v d (view_ok d)).
  - left. split; reflexivity.
  - intros w1 w2. now apply move_view_ok.
Qed.

(** A world whose view is the view of slide [n] has its classes on [n]. *)
Lemma view_at_one_active (d : Document) (w : World) (n : Z) :
  dom_contract d -> 1 <= n <= Z.of_nat (length (slides d)) ->
  page_view w = view_at d n -> one_active_at n (doc w).
Proof.
  intros [_ Hci _ _] Hn Hview.
  assert (Hlend : length (indicators d) = length (slides d)).
  { apply (f_equal length) in Hci. unfold position_attrs in Hci.
    now rewrite !length_fmap, length_seq in Hci. }
  split.
  - replace (slide_active <$> slides (doc w)) with (flags_at n (length (slides d)))
      by (symmetry; exact (f_equal pv_slide_active Hview)).
    now apply only_active_flags_at.
  - replace (indicators (doc w)) with (indicators_after n (indicators d))
      by (symmetry; exact (f_equal pv_indicators Hview)).
    rewrite indicators_after_active; [| now rewrite Hlend | lia].
    apply only_active_flags_at. lia.
Qed.

(** Where the classes are in a reachable world: on the current slide once a
    call has been accepted, where the page was delivered with them before. *)
Lemma reachable_classes (v : Variant) (d : Document) (w : World) :
  dom_contract d -> reachable v d w ->
  (transitions (log w) <> [] -> one_active_at (currentSlide (state w)) (doc w))
  /\ (transitions (log w) = [] ->
      currentSlide (state w) = 1
      /\ slide_active <$> slides (doc w) = slide_active <$> slides d
      /\ indicators (doc w) = indicators d).
Proof.
  intros Hc Hreach.
  destruct (reachable_view_ok v d w Hc Hreach)
    as [[Hnone Hview] | (Hlast & Hrange & Hview)]; split.
  - intros H. contradiction.
  - intros _. split; [exact (f_equal pv_currentSlide Hview) |].
    split; [exact (f_equal pv_slide_active Hview) | exact (f_equal pv_indicators Hview)].
  - intros _. now apply (view_at_one_active d).
  - intros Hnone. rewrite Hnone in Hlast. discriminate.
Qed.

(** X10. On a page that keeps the contract the view follows the navigation.
    Until a call of [goToSlide] is accepted the view is the one [init] left.
    From then on [currentSlide] is the target of the last accepted call, the
    view is the one of that slide, and on every indicator [aria-selected] is
    ["true"] exactly when the indicator has the active class, which it has
    exactly at the position of the current slide. *)
Theorem view_follows_navigation (v : Variant) (d : Document) (w : World)
  (Hcontract : dom_contract d)
  (Hreach : reachable v d w) :
  (transitions (log w) = [] -> page_view w = page_view (after_init d))
  /\ (transitions (log w) <> [] ->
      last (transitions (log w)) = Some (currentSlide (state w))
      /\ page_view w = view_at d (currentSlide (state w))
      /\ forall i x, indicators (doc w) !! i = Some x ->
           ind_aria_selected x = Some (bool_toString (ind_active x))
           /\ (ind_active x = true <-> Z.of_nat i + 1 = currentSlide (state w))).
Proof.
  assert (Hv : view_ok d w).
  { apply (reachable_by_moves v d (view_ok d)); [| | exact Hreach].
    - left. split; reflexivity.
    - intros w1 w2. now apply move_view_ok. }
  split.
  - intros Hnone. destruct Hv as [[_ Hview] | (Hlast & _)]; [exact Hview |].
    rewrite Hnone in Hlast. discriminate.
  - intros Hsome. destruct Hv as [[Hnone _] | (Hlast & Hrange & Hview)];
      [contradiction |].
    split; [exact Hlast |]. split; [exact Hview |].
    intros i x Hx.
    assert (Hinds : indicators (doc w)
                    = indicators_after (currentSlide (state w)) (indicators d))
      by exact (f_equal pv_indicators Hview).
    rewrite Hinds in Hx.
    pose proof (indicators_after_aria _ _ _ _ Hx) as Haria.
    destruct Hcontract as [_ Hci _ _].
    assert (Hlend : length (indicators d) = length (slides d)).
    { apply (f_equal length) in Hci. unfold position_attrs in Hci.
      now rewrite !length_fmap, length_seq in Hci. }
    assert (Hact : ind_active <$> indicators_after (currentSlide (state w)) (indicators d)
                   = flags_at (currentSlide (state w)) (length (indicators d))).
    { apply indicators_after_active; [now rewrite Hlend | lia]. }
    destruct (only_active_flags_at (currentSlide (state w)) (length (indicators d)))
      as [_ Honly]; [lia |].
    assert (Hb : (ind_active <$> indicators_after (currentSlide (state w)) (indicators d))
                 !! i = Some (ind_active x))
      by (now rewrite list_lookup_fmap, Hx).
    rewrite Hact in Hb. specialize (Honly i _ Hb).
    split; [| exact Honly].
    rewrite Haria. f_equal. f_equal.
    destruct (ind_active x).
    + apply Z.eqb_eq. now apply Honly.
    + apply Z.eqb_neq. intros E. apply Honly in E. discriminate.
Qed.

Lemma view_follows_navigation_witness :
  dom_contract sample_doc
  /\ reachable Desktop sample_doc
       (run Desktop [(0, KeyDown "ArrowDown"); (700, ClickIndicator 3)]
          (after_init sample_doc))
  /\ page_view (run Desktop [(0, KeyDown "ArrowDown"); (700, ClickIndicator 3)]
                  (after_init sample_doc))
     = view_at sample_doc 4.
Proof.
  assert (Hreach : reachable Desktop sample_doc
                     (run Desktop [(0, KeyDown "ArrowDown"); (700, ClickIndicator 3)]
                        (after_init sample_doc))).
  { cbn [run fold_left]. do 2 apply reach_step. apply reach_init.
    vm_compute. reflexivity. }
  split; [exact sample_contract |]. split; [exact Hreach |].
  destruct (view_follows_navigation Desktop sample_doc _ sample_contract Hreach)
    as [_ Hnav].
  destruct Hnav as (_ & Hview & _); [vm_compute; discriminate |].
  rewrite Hview. f_equal.
Defined.

(** ** The calls of [pushState] *)









(** ** The slider comes to rest *)

Lemma timer_budget_nil (l : list Timer) : timer_budget l = 0%nat -> l = [].
Proof.
  destruct l as [| x l]; [reflexivity |]. cbn [timer_budget fold_right].
  unfold timer_weight. destruct (timer_cb x); lia.
Qed.

Lemma next_due_earliest (t : Z) (l : list Timer) (tm : Timer) :
  next_due t l = Some tm -> forall x, x ∈ l -> timer_due tm <= timer_due x.
Proof.
  unfold next_due. destruct (earliest l) as [e |] eqn:E; [| discriminate].
  destruct (timer_due e <=? t); [| discriminate].
  intros [= <-]. now apply earliest_min.
Qed.

Lemma all_fired (t : Z) (l : list Timer) :
  next_due t l = None -> (forall x, x ∈ l -> timer_due x <= t) -> l = [].
Proof.
  intros Hnone Hall. destruct l as [| x l]; [reflexivity |].
  destruct (next_due_exists t (x :: l) x) as [tm' E]; [left | apply Hall; left |].
  congruence.
Qed.

Lemma at_rest_free (w : World) :
  sched_ok w -> timers w = [] -> isAnimating (state w) = false.
Proof.
  intros [_ Hl _ _ _ _ _ _] Hnone.
  destruct (isAnimating (state w)); [| reflexivity].
  destruct (Hl eq_refl) as [tm Htm]. unfold unlock_timers in Htm.
  rewrite Hnone in Htm. discriminate.
Qed.

(** Running the timer that is due first keeps the queue on its way to
    empty, and uses up part of the budget. *)
Lemma fire_drains (d : Document) (t : Z) (tm : Timer) (w : World) :
  page_ok d (page_view w) -> sched_ok w -> drains t w ->
  next_due t (timers w) = Some tm ->
  drains t (fire tm w)
  /\ (timer_budget (timers (fire tm w)) < timer_budget (timers w))%nat
  /\ now w <= now (fire tm w).
Proof.
  intros Hok Hs [Hnow Hdu Hdw] Hnext.
  pose proof (next_due_earliest t _ _ Hnext) as Hmin.
  apply next_due_In in Hnext as [Hin Hdue].
  pose proof (timer_budget_remove (timers w) tm Hin) as Hb.
  unfold timer_weight in Hb.
  destruct (timer_cb tm) as [| deltaY] eqn:Hcb.
  - rewrite (fire_unlock_eq tm w Hcb).
    split; [| split].
    + split.
      * cbn. lia.
      * intros x Hx Hxu. change (x ∈ timers (dequeued tm w)) in Hx.
        rewrite timers_dequeued in Hx. apply list_elem_of_filter in Hx as [_ Hx].
        now apply Hdu.
      * intros x Hx Hxw. change (x ∈ timers (dequeued tm w)) in Hx.
        rewrite timers_dequeued in Hx. apply list_elem_of_filter in Hx as [_ Hx].
        specialize (Hdw x Hx Hxw). specialize (Hmin x Hx). cbn. lia.
    + change (timers (emit (SetIsAnimating false)
                        (with_state (st_set_isAnimating false) (dequeued tm w))))
        with (timers (dequeued tm w)).
      rewrite timers_dequeued. lia.
    + cbn. lia.
  - assert (Hwh : is_wheel tm) by (unfold is_wheel; now rewrite Hcb).
    assert (Hnowheel : forall x, x ∈ timers (dequeued tm w) -> ~ is_wheel x).
    { intros x Hx Hxw. rewrite timers_dequeued in Hx.
      apply list_elem_of_filter in Hx as [Hne Hx].
      destruct Hs as [_ _ _ Hw _ _ _ _].
      pose proof (Hw x Hx Hxw) as E1. pose proof (Hw tm Hin Hwh) as E2.
      congruence. }
    assert (Hunl : forall x, x ∈ timers (dequeued tm w) -> is_unlock x ->
                             timer_due x <= t).
    { intros x Hx Hxu. rewrite timers_dequeued in Hx.
      apply list_elem_of_filter in Hx as [_ Hx]. now apply Hdu. }
    assert (Hnow' : now (dequeued tm w) = Z.max (now w) (timer_due tm))
      by reflexivity.
    rewrite (fire_wheel_eq tm deltaY w Hcb).
    set (n := currentSlide (state w) + (if 0 <? deltaY then 1 else -1)).
    destruct (goToSlide_cases d n (dequeued tm w) Hok) as [-> | (_ & _ & ->)].
    + split; [| split].
      * split; [lia | exact Hunl |]. intros x Hx Hxw. now destruct (Hnowheel x Hx).
      * rewrite timers_dequeued. lia.
      * lia.
    + assert (Htimers : timers (after_goToSlide n (dequeued tm w))
                        = timers (dequeued tm w) ++ [unlock_timer (dequeued tm w)])
        by reflexivity.
      assert (Hnow'' : now (after_goToSlide n (dequeued tm w)) = now (dequeued tm w))
        by reflexivity.
      split; [| split].
      * split; [lia | |]; rewrite Htimers.
        -- intros x Hx Hxu. apply elem_of_app in Hx as [Hx | Hx]; [now apply Hunl |].
           apply list_elem_of_singleton in Hx. subst x.
           specialize (Hdw tm Hin Hwh).
           change (timer_due (unlock_timer (dequeued tm w)))
             with (now (dequeued tm w) + transitionDuration). lia.
        -- intros x Hx Hxw. apply elem_of_app in Hx as [Hx | Hx];
             [now destruct (Hnowheel x Hx) |].
           apply list_elem_of_singleton in Hx. subst x. destruct Hxw.
      * rewrite Htimers, timer_budget_snoc, timers_dequeued.
        change (timer_weight (unlock_timer (dequeued tm w))) with 1%nat. lia.
      * lia.
Qed.

Lemma run_timers_drains (d : Document) (t : Z) (fuel : nat) :
  forall w,
    page_ok d (page_view w) -> sched_ok w -> drains t w ->
    (timer_budget (timers w) <= fuel)%nat ->
    timers (run_timers fuel t w) = []
    /\ isAnimating (state (run_timers fuel t w)) = false
    /\ now w <= now (run_timers fuel t w) <= t.
Proof.
  induction fuel as [| fuel IH]; intros w Hok Hs Hd Hfuel.
  - assert (Hnone : timers w = []) by (apply timer_budget_nil; lia).
    cbn [run_timers]. split; [exact Hnone |].
    split; [now apply at_rest_free |]. destruct Hd as [Hnow _ _]. lia.
  - cbn [run_timers]. destruct (next_due t (timers w)) as [tm |] eqn:Hnext.
    + destruct (fire_drains d t tm w Hok Hs Hd Hnext) as (Hd' & Hb & Hnow).
      assert (Hin : tm ∈ timers w) by (now apply next_due_In in Hnext).
      destruct (moves_invariant d sched_ok (move_sched_ok d) w (fire tm w)
                  (moves_fire tm w Hin) Hok Hs) as [Hok' Hs'].
      destruct (IH (fire tm w) Hok' Hs' Hd' ltac:(lia)) as (H1 & H2 & H3).
      split; [exact H1 |]. split; [exact H2 |]. lia.
    + assert (Hnone : timers w = []).
      { apply (all_fired t); [exact Hnext |]. destruct Hd as [Hnow Hdu Hdw].
        intros x Hx. destruct (timer_kind x) as [Hxu | Hxw]; [now apply Hdu |].
        specialize (Hdw x Hx Hxw). unfold transitionDuration in Hdw. lia. }
      split; [exact Hnone |]. split; [now apply at_rest_free |].
      destruct Hd as [Hnow _ _]. lia.
Qed.

(** X14. The slider comes to rest. From any reachable world, once 650 ms
    have passed without an input, every pending timer has run, none is left,
    and the lock is free: a pending wheel callback runs within 50 ms, and the
    release of the transition it may start runs 600 ms after it. The model's
    event loop is given enough steps for that. Nothing changes from then on
    until the next input. *)
Theorem slider_comes_to_rest (v : Variant) (d : Document) (w : World) (t : Z)
  (Hreach : reachable v d w)
  (Ht : now w + 650 <= t) :
  timers (advance_to t w) = []
  /\ isAnimating (state (advance_to t w)) = false
  /\ now (advance_to t w) = t
  /\ forall t', t <= t' ->
       advance_to t' (advance_to t w) = with_now t' (advance_to t w).
Proof.
  pose proof (reachable_page_ok v d w Hreach) as Hok.
  pose proof (reachable_sched_ok v d w Hreach) as Hs.
  assert (Hd : drains t w).
  { destruct Hs as [_ _ _ _ _ _ Hwd Hud].
    unfold scrollThrottle, transitionDuration in *.
    split; [lia | |].
    - intros x Hx Hxu. specialize (Hud x Hx Hxu). lia.
    - intros x Hx Hxw. specialize (Hwd x Hx Hxw). unfold transitionDuration. lia. }
  destruct (run_timers_drains d t (timer_budget (timers w)) w Hok Hs Hd
              (Nat.le_refl _)) as (H1 & H2 & H3).
  assert (Hrest : timers (advance_to t w) = []) by exact H1.
  assert (Hnow : now (advance_to t w) = t).
  { unfold advance_to. cbn [with_now now]. lia. }
  split; [exact Hrest |]. split; [exact H2 |]. split; [exact Hnow |].
  intros t' Ht'. unfold advance_to at 1. rewrite Hrest.
  cbn [timer_budget fold_right run_timers]. rewrite Hnow. f_equal. lia.
Qed.

Lemma slider_comes_to_rest_witness :
  reachable Basic sample_doc
    (run Basic [(0, ClickNext); (580, Wheel 120)] (after_init sample_doc))
  /\ timers (run Basic [(0, ClickNext); (580, Wheel 120)] (after_init sample_doc))
     <> []
  /\ timers (advance_to 1230
               (run Basic [(0, ClickNext); (580, Wheel 120)] (after_init sample_doc)))
     = []
  /\ currentSlide
       (state (advance_to 1230
                 (run Basic [(0, ClickNext); (580, Wheel 120)]
                    (after_init sample_doc))))
     = 3.
Proof.
  assert (Hreach : reachable Basic sample_doc
                     (run Basic [(0, ClickNext); (580, Wheel 120)]
                        (after_init sample_doc))).
  { cbn [run fold_left]. do 2 apply reach_step. apply reach_init.
    vm_compute. reflexivity. }
  split; [exact Hreach |]. split; [vm_compute; discriminate |].
  destruct (slider_comes_to_rest Basic sample_doc _ 1230 Hreach) as (Hrest & _).
  - vm_compute. discriminate.
  - split; [exact Hrest |]. vm_compute. reflexivity.
Defined.

(** ** No listener throws once [init] has returned *)

Lemma goToSlide_returns (d : Document) (n : Z) (w : World) :
  page_ok d (page_view w) -> exists w', goToSlide n w = Returned tt w'.
Proof.
  intros Hok.
  destruct (isAnimating (state w) || negb (isValidSlideNumber n (state w)))
    eqn:Hguard.
  { exists w. now apply goToSlide_guard_true. }
  apply orb_false_iff in Hguard as [Hanim Hvalid].
  apply negb_false_iff, isValidSlideNumber_spec in Hvalid.
  destruct Hok as [_ _ _ _ _ Hprev Hnext _ _]. cbn in Hprev, Hnext.
  exists (after_goToSlide n w).
  exact (goToSlide_accepted n w _ _ Hanim Hvalid Hprev Hnext).
Qed.

Lemma goToSlideById_returns (d : Document) (id : string) (w : World) :
  page_ok d (page_view w) -> exists w', goToSlideById id w = Returned tt w'.
Proof.
  intros Hok. unfold goToSlideById.
  destruct (slideIdMap (state w) !! id) as [n |]; [| now exists w].
  destruct (truthy_number n); [now apply (goToSlide_returns d) | now exists w].
Qed.

Lemma handleInitialHash_returns (d : Document) (w : World) :
  page_ok d (page_view w) -> exists w', handleInitialHash w = Returned tt w'.
Proof.
  intros Hok. unfold handleInitialHash. cbv zeta.
  destruct (_ && _)%bool; [now apply (goToSlideById_returns d) | now exists w].
Qed.

Lemma run_callback_returns (d : Document) (cb : Callback) (w : World) :
  page_ok d (page_view w) -> exists w', run_callback cb w = Returned tt w'.
Proof.
  intros Hok. destruct cb as [| deltaY]; cbn [run_callback].
  - eexists. reflexivity.
  - destruct (0 <? deltaY).
    + rewrite goToNextSlide_eq. now apply (goToSlide_returns d).
    + rewrite goToPreviousSlide_eq. now apply (goToSlide_returns d).
Qed.

Lemma handle_returns (d : Document) (v : Variant) (i : Input) (w : World) :
  page_ok d (page_view w) -> exists w', handle v i w = Returned tt w'.
Proof.
  intros Hok.
  assert (Hprev : forall w1, page_view w1 = page_view w ->
                    exists w', goToPreviousSlide w1 = Returned tt w').
  { intros w1 Hv. rewrite goToPreviousSlide_eq. apply (goToSlide_returns d).
    now rewrite Hv. }
  assert (Hnext : forall w1, page_view w1 = page_view w ->
                    exists w', goToNextSlide w1 = Returned tt w').
  { intros w1 Hv. rewrite goToNextSlide_eq. apply (goToSlide_returns d).
    now rewrite Hv. }
  destruct i; try (rewrite handle_wheel_eq); cbn [handle].
  - now exists w.
  - now apply Hprev.
  - now apply Hnext.
  - destruct v; [now apply Hnext | now exists w].
  - unfold indicatorClick. destruct (indicators (doc w) !! indicator) as [el |];
      [| now exists w].
    destruct (parseInt10 (ind_data el)); [now apply (goToSlide_returns d) | now exists w].
  - unfold keydownListener.
    destruct (_ || _)%bool; [now apply Hprev |].
    destruct (_ || _)%bool; [now apply Hnext | now exists w].
  - eexists. reflexivity.
  - destruct v.
    + unfold Script.touchstartListener. destruct (_ || _)%bool; eexists; reflexivity.
    + eexists. reflexivity.
  - destruct v; [| now exists w].
    unfold Script.touchmoveListener. destruct (negb _); eexists; reflexivity.
  - destruct v.
    + unfold Script.touchendListener. destruct (negb _); [now exists w |].
      unfold bind, mutate, Script.handleSwipe. cbv zeta.
      destruct (_ && _)%bool; [| eexists; reflexivity].
      destruct (0 <? _); [now apply Hnext | now apply Hprev].
    + unfold Index.touchendListener, bind, mutate, Index.handleSwipe. cbv zeta.
      destruct (swipeThreshold <? _); [| eexists; reflexivity].
      destruct (0 <? _); [now apply Hnext | now apply Hprev].
  - unfold bind, mutate. now apply (handleInitialHash_returns d).
  - now apply (handleInitialHash_returns d).
  - now apply (goToSlide_returns d).
  - now apply (goToSlideById_returns d).
  - eexists. reflexivity.
  - eexists. reflexivity.
Qed.

(** X15. Once [init] has returned, nothing throws: in a reachable world,
    and after any time has passed, every listener returns normally on every
    input, and so does every timer callback. The only exception of the
    controller, the [TypeError] on a missing button, is raised during
    [init] or never. *)
Theorem no_exception_after_init (v : Variant) (d : Document) (w : World)
  (Hreach : reachable v d w) :
  (forall i, exists w', handle v i w = Returned tt w')
  /\ (forall t i, exists w', handle v i (advance_to t w) = Returned tt w')
  /\ (forall cb, exists w', run_callback cb w = Returned tt w')
  /\ (forall n, exists w', goToSlide n w = Returned tt w')
  /\ (forall id, exists w', goToSlideById id w = Returned tt w').
Proof.
  pose proof (reachable_page_ok v d w Hreach) as Hok.
  split; [intros i; now apply (handle_returns d) |].
  split.
  - intros t i. apply (handle_returns d).
    destruct (moves_invariant d (fun _ => True) (fun _ _ _ _ _ => I) w
                (advance_to t w) (moves_advance_to t w) Hok I) as [Hok' _].
    exact Hok'.
  - split; [intros cb; now apply (run_callback_returns d) |].
    split; [intros n; now apply (goToSlide_returns d) |].
    intros id. now apply (goToSlideById_returns d).
Qed.

Lemma no_exception_after_init_witness :
  reachable Desktop sample_doc (step Desktop (after_init sample_doc) (0, ClickNext))
  /\ exists w',
       handle Desktop (TouchEnd (touch_at 10 10))
         (step Desktop (after_init sample_doc) (0, ClickNext))
       = Returned tt w'.
Proof.
  assert (Hreach : reachable Desktop sample_doc
                     (step Desktop (after_init sample_doc) (0, ClickNext))).
  { apply reach_step, reach_init. vm_compute. reflexivity. }
  split; [exact Hreach |].
  apply (proj1 (no_exception_after_init Desktop sample_doc _ Hreach)).
Defined.

(** ** A wheel event on a page at rest *)

Lemma next_due_singleton (t : Z) (tm : Timer) :
  next_due t [tm] = if timer_due tm <=? t then Some tm else None.
Proof. reflexivity. Qed.

Lemma filter_self (tm : Timer) :
  filter (fun x => timer_id x <> timer_id tm) [tm] = [].
Proof.
  rewrite filter_cons. destruct (decide (timer_id tm <> timer_id tm)); [congruence |].
  reflexivity.
Qed.

(** X16. A wheel event on a page at rest. In a reachable world with no
    timer pending, an event the listener accepts at time [t] changes nothing
    for 50 ms; at [t + 50] its callback runs and the page goes to the next
    slide when [deltaY] is positive and to the previous slide otherwise, also
    when [deltaY] is 0; the lock is then taken until [t + 650]. At the last
    slide scrolling down, and at the first slide scrolling up, the callback
    does nothing. *)
Theorem wheel_at_rest_navigates (v : Variant) (d : Document) (w : World)
    (t deltaY : Z)
  (Hreach : reachable v d w)
  (Hrest : timers w = [])
  (Ht : now w <= t)
  (Hacc : wheel_accepts v deltaY (doc w) = true) :
  let w1 := step v w (t, Wheel deltaY) in
  let target := currentSlide (state w) + (if 0 <? deltaY then 1 else -1) in
  (forall t', t' < t + 50 ->
     currentSlide (state (advance_to t' w1)) = currentSlide (state w)
     /\ isAnimating (state (advance_to t' w1)) = false)
  /\ (1 <= target <= totalSlides (state w) ->
      forall t', t + 50 <= t' ->
        currentSlide (state (advance_to t' w1)) = target
        /\ (isAnimating (state (advance_to t' w1)) = true <-> t' < t + 650))
  /\ (target < 1 \/ totalSlides (state w) < target ->
      forall t', t + 50 <= t' ->
        currentSlide (state (advance_to t' w1)) = currentSlide (state w)
        /\ isAnimating (state (advance_to t' w1)) = false
        /\ timers (advance_to t' w1) = []).
Proof.
  intros w1 target.
  pose proof (reachable_page_ok v d w Hreach) as Hok.
  pose proof (reachable_sched_ok v d w Hreach) as Hs.
  pose proof (at_rest_free w Hs Hrest) as Hfree.
  assert (Hadv : advance_to t w = with_now t w).
  { unfold advance_to. rewrite Hrest. cbn [timer_budget fold_right run_timers].
    f_equal. lia. }
  set (W1 := after_wheel deltaY (with_now t w)).
  assert (Hw1 : w1 = W1).
  { unfold w1. rewrite step_wheel_eq, Hadv. cbn [with_now doc]. now rewrite Hacc. }
  set (wh := {| timer_id := next_timer_id w; timer_due := t + scrollThrottle;
                timer_cb := CbWheel deltaY |}).
  assert (Htm1 : timers W1 = [wh]).
  { unfold W1. cbn [after_wheel timers with_now now next_timer_id scrollTimeout].
    rewrite Hrest. reflexivity. }
  assert (Hbudget : timer_budget (timers W1) = 2%nat) by (now rewrite Htm1).
  rewrite Hw1. clear Hw1 w1.
  assert (Hstate : forall t0 w0, state (with_now t0 w0) = state w0) by reflexivity.
  assert (Htimers : forall t0 w0, timers (with_now t0 w0) = timers w0) by reflexivity.
  split; [| split].
  - intros t' Ht'. unfold advance_to. rewrite Hstate, Hbudget.
    cbn [run_timers]. rewrite Htm1, next_due_singleton.
    rewrite (proj2 (Z.leb_gt (timer_due wh) t'))
      by (cbn [wh timer_due]; unfold scrollThrottle; lia).
    split; [reflexivity | exact Hfree].
  - intros Hvalid t' Ht'. unfold advance_to. rewrite Hstate, Hbudget.
    cbn [run_timers]. rewrite Htm1, next_due_singleton.
    rewrite (proj2 (Z.leb_le (timer_due wh) t'))
      by (cbn [wh timer_due]; unfold scrollThrottle; lia).
    assert (Hfire : fire wh W1 = after_goToSlide target (dequeued wh W1)).
    { rewrite (fire_wheel_eq wh deltaY W1 eq_refl).
      destruct Hok as [_ _ _ _ _ Hprev Hnext _ _]. cbn in Hprev, Hnext.
      exact (f_equal world_of
               (goToSlide_accepted target (dequeued wh W1) _ _ Hfree Hvalid
                  Hprev Hnext)). }
    rewrite Hfire.
    set (W2 := after_goToSlide target (dequeued wh W1)).
    set (u := unlock_timer (dequeued wh W1)).
    assert (Htm2 : timers W2 = [u]).
    { change (timers W2) with (timers (dequeued wh W1) ++ [u]).
      now rewrite timers_dequeued, Htm1, filter_self. }
    assert (Hdue : timer_due u = Z.max t (t + 50) + 600) by reflexivity.
    rewrite Htm2, next_due_singleton, Hdue.
    destruct (Z.max t (t + 50) + 600 <=? t') eqn:E.
    + apply Z.leb_le in E. rewrite (fire_unlock_eq u W2 eq_refl).
      split; [reflexivity |]. split; [discriminate | lia].
    + apply Z.leb_gt in E. split; [reflexivity |]. split; [lia | reflexivity].
  - intros Hinvalid t' Ht'. unfold advance_to. rewrite Hstate, Htimers, Hbudget.
    cbn [run_timers]. rewrite Htm1, next_due_singleton.
    rewrite (proj2 (Z.leb_le (timer_due wh) t'))
      by (cbn [wh timer_due]; unfold scrollThrottle; lia).
    assert (Hfire : fire wh W1 = dequeued wh W1).
    { rewrite (fire_wheel_eq wh deltaY W1 eq_refl).
      exact (f_equal world_of
               (goToSlide_out_of_range target (dequeued wh W1) Hinvalid)). }
    rewrite Hfire.
    assert (Htm2 : timers (dequeued wh W1) = [])
      by (now rewrite timers_dequeued, Htm1, filter_self).
    rewrite Htm2. cbn [next_due earliest].
    split; [reflexivity |]. split; [exact Hfree | exact Htm2].
Qed.

Lemma wheel_at_rest_navigates_witness :
  reachable Basic sample_doc (after_init sample_doc)
  /\ currentSlide
       (state (advance_to 50 (step Basic (after_init sample_doc) (0, Wheel 0))))
     = 1
  /\ currentSlide
       (state (advance_to 50 (step Basic (after_init sample_doc) (0, Wheel 3))))
     = 2.
Proof.
  assert (Hreach : reachable Basic sample_doc (after_init sample_doc)).
  { apply reach_init. vm_compute. reflexivity. }
  split; [exact Hreach |]. split.
  - destruct (wheel_at_rest_navigates Basic sample_doc (after_init sample_doc) 0 0
                Hreach eq_refl ltac:(cbn; lia) eq_refl) as (_ & _ & Hout).
    destruct (Hout ltac:(left; cbn; lia) 50 ltac:(lia)) as [-> _]. reflexivity.
  - destruct (wheel_at_rest_navigates Basic sample_doc (after_init sample_doc) 0 3
                Hreach eq_refl ltac:(cbn; lia) eq_refl) as (_ & Hin & _).
    destruct (Hin ltac:(cbn; lia) 50 ltac:(lia)) as [-> _]. reflexivity.
Defined.

(** ** The buttons, the keys and what they do *)

(** X17. On a page with at least one slide, with the lock free, a button is
    disabled exactly when a click on it would do nothing: [prev] on the first
    slide, [next] on the last. The arrow keys do what the buttons do, left
    and up for [prev], right and down for [next], as does the mobile button
    of the desktop variant for [next]. *)
Theorem nav_button_disabled_iff_inert (v : Variant) (d : Document) (w : World)
  (Hreach : reachable v d w)
  (Hne : slides d <> [])
  (Hanim : isAnimating (state w) = false) :
  exists p q,
    prevBtn (doc w) = Some p /\ nextBtn (doc w) = Some q
    /\ (disabled p = true <-> handle v ClickPrev w = Returned tt w)
    /\ (disabled q = true <-> handle v ClickNext w = Returned tt w)
    /\ handle v (KeyDown "ArrowLeft") w = handle v ClickPrev w
    /\ handle v (KeyDown "ArrowUp") w = handle v ClickPrev w
    /\ handle v (KeyDown "ArrowRight") w = handle v ClickNext w
    /\ handle v (KeyDown "ArrowDown") w = handle v ClickNext w
    /\ handle Desktop ClickMobileNext w = handle v ClickNext w.
Proof.
  destruct (reachable_page_ok v d w Hreach)
    as [Htot _ _ _ _ Hprev Hnext Hcur _]. cbn in Htot, Hprev, Hnext, Hcur.
  assert (Hrange : 1 <= currentSlide (state w) <= totalSlides (state w)).
  { destruct (slides d) as [| s l]; [contradiction |]. cbn [length] in Htot.
    destruct Hcur as [-> | Hcur]; lia. }
  assert (Hmoved : forall n, 1 <= n <= totalSlides (state w) ->
                             goToSlide n w <> Returned tt w).
  { intros n Hn E.
    rewrite (goToSlide_accepted n w _ _ Hanim Hn Hprev Hnext) in E.
    injection E as E. apply (f_equal (fun x => isAnimating (state x))) in E.
    cbn in E. congruence. }
  exists (button_for (currentSlide (state w) =? 1)),
         (button_for (currentSlide (state w) =? totalSlides (state w))).
  split; [exact Hprev |]. split; [exact Hnext |].
  cbn [handle button_for disabled].
  split; [| split; [| repeat split]].
  - split.
    + intros E. apply Z.eqb_eq in E. unfold goToPreviousSlide. rewrite E. reflexivity.
    + intros E. apply Z.eqb_eq.
      destruct (Z.eq_dec (currentSlide (state w)) 1) as [| Hgt]; [assumption |].
      rewrite goToPreviousSlide_eq in E.
      now destruct (Hmoved (currentSlide (state w) - 1) ltac:(lia)).
  - split.
    + intros E. apply Z.eqb_eq in E. unfold goToNextSlide.
      rewrite <- E, Z.ltb_irrefl. reflexivity.
    + intros E. apply Z.eqb_eq.
      destruct (Z.eq_dec (currentSlide (state w)) (totalSlides (state w)))
        as [| Hlt]; [assumption |].
      rewrite goToNextSlide_eq in E.
      now destruct (Hmoved (currentSlide (state w) + 1) ltac:(lia)).
Qed.

Lemma nav_button_disabled_iff_inert_witness :
  reachable Desktop sample_doc (after_init sample_doc)
  /\ handle Desktop ClickPrev (after_init sample_doc)
     = Returned tt (after_init sample_doc)
  /\ handle Desktop ClickNext (after_init sample_doc)
     <> Returned tt (after_init sample_doc).
Proof.
  assert (Hreach : reachable Desktop sample_doc (after_init sample_doc)).
  { apply reach_init. vm_compute. reflexivity. }
  split; [exact Hreach |].
  destruct (nav_button_disabled_iff_inert Desktop sample_doc (after_init sample_doc)
              Hreach ltac:(discriminate) eq_refl)
    as (p & q & Hp & Hq & Hprev & Hnext & _).
  injection Hp as <-. injection Hq as <-. split.
  - apply Hprev. reflexivity.
  - intros E. apply Hnext in E. discriminate E.
Defined.

(** ** Exactly one active slide *)

(** The claim of C1 fails as it is worded, at every time: [init] does not
    set the active class, so a page that keeps the contract but is delivered
    without the class on any slide has no active slide and no active
    indicator until a call of [goToSlide] is accepted; inputs that make no
    transition leave it so. *)
Lemma exactly_one_active_counterexample :
  dom_contract bare_doc
  /\ reachable Desktop bare_doc
       (run Desktop [(0, Tick); (10, KeyDown "ArrowLeft"); (20, TouchMove)]
          (after_init bare_doc))
  /\ currentSlide
       (state (run Desktop [(0, Tick); (10, KeyDown "ArrowLeft"); (20, TouchMove)]
                 (after_init bare_doc))) = 1
  /\ slide_active
       <$> slides (doc (run Desktop [(0, Tick); (10, KeyDown "ArrowLeft");
                                     (20, TouchMove)] (after_init bare_doc)))
     = [false; false; false; false; false]
  /\ ind_active
       <$> indicators (doc (run Desktop [(0, Tick); (10, KeyDown "ArrowLeft");
                                         (20, TouchMove)] (after_init bare_doc)))
     = [false; false; false; false; false]
  /\ ~ one_active_at 1
        (doc (run Desktop [(0, Tick); (10, KeyDown "ArrowLeft"); (20, TouchMove)]
                (after_init bare_doc))).
Proof.
  split; [split; [reflexivity | reflexivity | eexists; reflexivity
                  | eexists; reflexivity] |].
  split.
  { cbn [run fold_left]. do 3 apply reach_step. apply reach_init.
    vm_compute. reflexivity. }
  split; [vm_compute; reflexivity |]. split; [vm_compute; reflexivity |].
  split; [vm_compute; reflexivity |].
  intros [[_ H] _]. specialize (H 0%nat false). vm_compute in H.
  destruct (H eq_refl) as [_ H']. discriminate (H' eq_refl).
Qed.

(** C1, amended. On a page that keeps the contract, in every reachable
    world: an accepted [goToSlide n] returns with exactly one slide and
    exactly one indicator active, both at [n], which is then [currentSlide],
    and the callback that releases the lock leaves this as it is; once a call
    has been accepted, exactly one slide and exactly one indicator are
    active, both at [currentSlide], at every later time. Before the first
    accepted call [currentSlide] is 1 and the classes are those the page was
    delivered with: the property then holds exactly when the page was
    delivered with its first slide and first indicator active. The window in
    which no element is active lies inside [goToSlide], between two of its
    statements, where no other code of the page runs. *)
Theorem exactly_one_active (v : Variant) (d : Document) (w : World)
  (Hcontract : dom_contract d)
  (Hreach : reachable v d w) :
  (transitions (log w) <> [] -> one_active_at (currentSlide (state w)) (doc w))
  /\ (transitions (log w) = [] ->
      currentSlide (state w) = 1
      /\ slide_active <$> slides (doc w) = slide_active <$> slides d
      /\ ind_active <$> indicators (doc w) = ind_active <$> indicators d
      /\ (one_active_at (currentSlide (state w)) (doc w) <-> one_active_at 1 d))
  /\ (one_active_at 1 d -> one_active_at (currentSlide (state w)) (doc w))
  /\ forall n,
       1 <= n <= totalSlides (state w) ->
       isAnimating (state w) = false ->
       exists w',
         goToSlide n w = Returned tt w'
         /\ currentSlide (state w') = n
         /\ isAnimating (state w') = true
         /\ one_active_at n (doc w')
         /\ isAnimating (state (world_of (run_callback CbUnlock w'))) = false
         /\ currentSlide (state (world_of (run_callback CbUnlock w'))) = n
         /\ one_active_at n (doc (world_of (run_callback CbUnlock w'))).
Proof.
  destruct (reachable_classes v d w Hcontract Hreach) as [Hafter Hbefore].
  split; [exact Hafter |]. split; [| split].
  - intros Hnone. destruct (Hbefore Hnone) as (Hcur & Hs & Hi).
    split; [exact Hcur |]. split; [exact Hs |]. split; [now rewrite Hi |].
    unfold one_active_at. now rewrite Hcur, Hs, Hi.
  - intros Hfirst.
    destruct (reachable_page_ok v d w Hreach) as [_ _ _ _ _ _ _ _ Hact].
    exact (Hact Hcontract Hfirst).
  - intros n Hn Hanim.
    destruct (accepted_on_contract v d w n Hcontract Hreach Hanim Hn)
      as (_ & Heq & _ & _ & _ & Hone & _).
    exists (after_goToSlide n w). split; [exact Heq |]. split; [reflexivity |].
    split; [reflexivity |]. split; [exact Hone |].
    split; [reflexivity |]. split; [reflexivity | exact Hone].
Qed.

Lemma exactly_one_active_witness :
  dom_contract bare_doc
  /\ reachable Basic bare_doc (step Basic (after_init bare_doc) (0, CallGoToSlide 3))
  /\ one_active_at 3 (doc (step Basic (after_init bare_doc) (0, CallGoToSlide 3))).
Proof.
  assert (Hc : dom_contract bare_doc)
    by (split; [reflexivity | reflexivity | eexists; reflexivity
                | eexists; reflexivity]).
  assert (Hreach : reachable Basic bare_doc
                     (step Basic (after_init bare_doc) (0, CallGoToSlide 3))).
  { apply reach_step, reach_init. vm_compute. reflexivity. }
  split; [exact Hc |]. split; [exact Hreach |].
  apply (proj1 (exactly_one_active Basic bare_doc _ Hc Hreach)).
  vm_compute. discriminate.
Defined.

(** ** Going to the slide already shown *)

(** The claim of C10 fails as it is worded, for every state with the lock
    free. On a page without slides [currentSlide] is 1 and [totalSlides] is
    0, so [goToSlide currentSlide] is dropped by the range test: no lock, no
    side effect. On a page delivered without the active class, before any
    navigation, the call is accepted and the display does change: the first
    slide and the first indicator become active. *)
Lemma goToSlide_current_counterexample :
  reachable Desktop empty_doc (after_init empty_doc)
  /\ isAnimating (state (after_init empty_doc)) = false
  /\ currentSlide (state (after_init empty_doc)) = 1
  /\ goToSlide 1 (after_init empty_doc) = Returned tt (after_init empty_doc)
  /\ reachable Desktop bare_doc (after_init bare_doc)
  /\ isAnimating (state (after_init bare_doc)) = false
  /\ currentSlide (state (after_init bare_doc)) = 1
  /\ slide_active <$> slides (doc (after_init bare_doc))
     = [false; false; false; false; false]
  /\ slide_active <$> slides (doc (world_of (goToSlide 1 (after_init bare_doc))))
     = [true; false; false; false; false].
Proof.
  split; [apply reach_init; vm_compute; reflexivity |].
  split; [reflexivity |]. split; [reflexivity |].
  split; [vm_compute; reflexivity |].
  split; [apply reach_init; vm_compute; reflexivity |].
  split; [reflexivity |]. split; [reflexivity |].
  split; vm_compute; reflexivity.
Qed.

(** C10, amended. On a page with at least one slide, in a reachable world
    whose lock is free, [goToSlide currentSlide] is accepted: it logs the
    whole sequence of side effects again, leaves [currentSlide] as it is and
    takes the lock; the release is due 600 ms later, and at every time before
    that the lock is still held and every [goToSlide] is dropped. On a page
    that keeps the contract the side effects are the class removals, the
    classes set again on the current slide and its indicator, the buttons,
    [aria-selected], the [pushState] of the slide's identifier when it has a
    non-empty one, and the timer; the active classes are where they were
    whenever the current slide was shown as active, which is the case once a
    call has been accepted and when the page was delivered with its first
    slide active. *)
Theorem goToSlide_current_relocks (v : Variant) (d : Document) (w : World)
  (Hreach : reachable v d w)
  (Hne : slides d <> [])
  (Hanim : isAnimating (state w) = false) :
  exists w',
    goToSlide (currentSlide (state w)) w = Returned tt w'
    /\ log w' = log w ++ goToSlide_effects (currentSlide (state w)) w
    /\ transitions (log w') = transitions (log w) ++ [currentSlide (state w)]
    /\ currentSlide (state w') = currentSlide (state w)
    /\ isAnimating (state w') = true
    /\ unlock_timers w'
       = [{| timer_id := next_timer_id w; timer_due := now w + 600;
             timer_cb := CbUnlock |}]
    /\ (forall t m, t < now w + 600 ->
          isAnimating (state (advance_to t w')) = true
          /\ goToSlide m (advance_to t w') = Returned tt (advance_to t w')
          /\ currentSlide (state (advance_to t w')) = currentSlide (state w))
    /\ (dom_contract d ->
        (exists target,
            slides (doc w) !! Z.to_nat (currentSlide (state w) - 1) = Some target
            /\ goToSlide_effects (currentSlide (state w)) w
               = [SetIsAnimating true; RemoveActiveSlides; RemoveActiveIndicators;
                  AddActiveSlide (currentSlide (state w));
                  AddActiveIndicator (currentSlide (state w));
                  SetCurrentSlide (currentSlide (state w));
                  SetDisabled Prev (currentSlide (state w) =? 1);
                  SetDisabled Next (currentSlide (state w) =? totalSlides (state w));
                  SetAriaDisabled Prev (bool_toString (currentSlide (state w) =? 1));
                  SetAriaDisabled Next
                    (bool_toString (currentSlide (state w) =? totalSlides (state w)));
                  SetAriaSelected (currentSlide (state w))]
                 ++ match slide_id target with
                    | Some id =>
                        if truthy_attr (Some id) then [PushState ("#" +:+ id)] else []
                    | None => []
                    end
                 ++ [SetTimeout (next_timer_id w) CbUnlock 600])
        /\ one_active_at (currentSlide (state w)) (doc w')
        /\ (one_active_at (currentSlide (state w)) (doc w) ->
            slide_active <$> slides (doc w') = slide_active <$> slides (doc w)
            /\ ind_active <$> indicators (doc w')
               = ind_active <$> indicators (doc w))
        /\ (transitions (log w) <> [] \/ one_active_at 1 d ->
            one_active_at (currentSlide (state w)) (doc w))).
Proof.
  pose proof (reachable_page_ok v d w Hreach) as Hok.
  destruct (reachable_lock_ok v d w Hreach) as [_ Hfree].
  pose proof Hok as [Htot _ _ _ _ Hprev Hnext Hcur _]. cbn in Htot, Hprev, Hnext, Hcur.
  assert (Hn : 1 <= currentSlide (state w) <= totalSlides (state w)).
  { destruct (slides d) as [| s0 l0]; [contradiction |]. cbn [length] in Htot.
    destruct Hcur as [-> | Hcur]; lia. }
  pose proof (goToSlide_accepted _ w _ _ Hanim Hn Hprev Hnext) as Heq.
  set (w' := after_goToSlide (currentSlide (state w)) w) in *.
  assert (Hanim' : isAnimating (state w') = true) by reflexivity.
  assert (Htimers : timers w'
                    = timers w ++ [{| timer_id := next_timer_id w;
                                      timer_due := now w + 600;
                                      timer_cb := CbUnlock |}]) by reflexivity.
  assert (Hunlock : unlock_timers w'
                    = [{| timer_id := next_timer_id w; timer_due := now w + 600;
                          timer_cb := CbUnlock |}]).
  { unfold unlock_timers. rewrite Htimers, filter_app.
    fold (unlock_timers w). rewrite (Hfree Hanim). cbn.
    rewrite decide_True by reflexivity. reflexivity. }
  exists w'.
  split; [exact Heq |]. split; [reflexivity |].
  split.
  { change (log w') with (log w ++ goToSlide_effects (currentSlide (state w)) w).
    now rewrite transitions_app, (proj2 (goToSlide_effects_summary _ w)). }
  split; [reflexivity |]. split; [exact Hanim' |]. split; [exact Hunlock |].
  split.
  { intros t m Ht.
    destruct (locked_run_timers (timer_budget (timers w')) t w' Hanim')
      as (H1 & H2 & _).
    { intros tm Hin Hun.
      assert (Htm : tm ∈ unlock_timers w') by (apply list_elem_of_filter; auto).
      rewrite Hunlock in Htm. apply list_elem_of_singleton in Htm. subst tm.
      cbn. lia. }
    assert (Hlocked : isAnimating (state (advance_to t w')) = true) by exact H1.
    split; [exact Hlocked |]. split; [now apply goToSlide_locked |].
    unfold advance_to. cbn [with_now state].
    apply (f_equal pv_currentSlide) in H2. cbn [page_view pv_currentSlide] in H2.
    rewrite H2. reflexivity. }
  intros Hcontract.
  destruct (accepted_on_contract v d w _ Hcontract Hreach Hanim Hn)
    as (target & _ & Htarget & Hurl & Heffects & [Hs' Hi'] & _).
  fold w' in Hs', Hi'.
  split; [| split; [| split]].
  - exists target. split; [exact Htarget |]. rewrite Heffects, Hurl.
    destruct (slide_id target) as [id |]; [destruct (truthy_attr (Some id)) |];
      reflexivity.
  - split; assumption.
  - intros [Hact_s Hact_i].
    assert (Hlen_s : length (slides (doc w')) = length (slides (doc w)))
      by apply slides_after_length.
    assert (Hlen_i : length (indicators (doc w')) = length (indicators (doc w)))
      by apply indicators_after_length.
    split.
    + rewrite (only_active_unique _ _ Hs'), (only_active_unique _ _ Hact_s).
      rewrite !length_fmap, Hlen_s. reflexivity.
    + rewrite (only_active_unique _ _ Hi'), (only_active_unique _ _ Hact_i).
      rewrite !length_fmap, Hlen_i. reflexivity.
  - intros [Hnav | Hfirst].
    + now apply (proj1 (reachable_classes v d w Hcontract Hreach)).
    + exact (ok_active d _ Hok Hcontract Hfirst).
Qed.

Lemma goToSlide_current_relocks_witness :
  reachable Desktop sample_doc (after_init sample_doc)
  /\ slides sample_doc <> []
  /\ isAnimating (state (after_init sample_doc)) = false
  /\ isAnimating
       (state (advance_to 599 (world_of (goToSlide 1 (after_init sample_doc)))))
     = true.
Proof.
  assert (Hreach : reachable Desktop sample_doc (after_init sample_doc)).
  { apply reach_init. vm_compute. reflexivity. }
  split; [exact Hreach |]. split; [discriminate |]. split; [reflexivity |].
  destruct (goToSlide_current_relocks Desktop sample_doc (after_init sample_doc)
              Hreach ltac:(discriminate) eq_refl)
    as (w' & Heq & _ & _ & _ & _ & _ & Hblocked & _).
  change (currentSlide (state (after_init sample_doc))) with 1 in Heq.
  rewrite Heq. cbn [world_of].
  apply (Hblocked 599 1). vm_compute. reflexivity.
Defined.
